(** * Control-set consolidation for iCE40 netlists (sw/ice40_opt_cset.py)

    A shallow embedding of the control-set optimizer and the properties
    of its legality model, cost model, merge search and truth-table
    rewrite. *)

From Stdlib Require Import ZArith List String Ascii Bool Lia Permutation Arith Sorted.
Import ListNotations.

Open Scope string_scope.
Open Scope list_scope.

(** ** Exceptions and fallible computations *)

Inductive exn : Type :=
| ValueError | KeyError | AttributeError | IndexError | TypeError
| NetlistError.

Inductive result (A : Type) : Type :=
| Ok (a : A)
| Raise (e : exn).
Arguments Ok {A} a.
Arguments Raise {A} e.

Definition bind {A B : Type} (m : result A) (k : A -> result B) : result B :=
  match m with
  | Ok a => k a
  | Raise e => Raise e
  end.

Notation "x <- m ;; k" := (bind m (fun x => k))
  (at level 61, m at next level, right associativity).
Notation "' p <- m ;; k" := (bind m (fun p => k))
  (at level 61, p pattern, m at next level, right associativity).

Definition from_option {A : Type} (e : exn) (o : option A) : result A :=
  match o with
  | Some a => Ok a
  | None => Raise e
  end.

(** ** Python string and list helpers *)

Module Py.

(** [pat in s] for strings. *)
Fixpoint contains (pat s : string) : bool :=
  String.prefix pat s ||
  match s with
  | EmptyString => false
  | String _ s' => contains pat s'
  end.

(** [s.replace(pat, new)] for a non-empty [pat]: a left-to-right scan
    over non-overlapping occurrences; [skip] counts the characters of a
    matched occurrence still to be dropped. *)
Fixpoint replace_from (pat new : string) (skip : nat) (s : string) : string :=
  match s with
  | EmptyString => EmptyString
  | String c s' =>
      match skip with
      | S k => replace_from pat new k s'
      | O =>
          if String.prefix pat s
          then new ++ replace_from pat new (String.length pat - 1) s'
          else String c (replace_from pat new 0 s')
      end
  end.

Definition replace (pat new s : string) : string := replace_from pat new 0 s.

(** Truth value of an optional string: [None] and [''] are false. *)
Definition truthy (o : option string) : bool :=
  match o with
  | Some s => negb (s =? "")
  | None => false
  end.

(** [a or b] on optional strings. *)
Definition or_ (a b : option string) : option string :=
  if truthy a then a else b.

(** [o or ''], the sort key of one field. *)
Definition or_empty (o : option string) : string :=
  match or_ o (Some "") with
  | Some s => s
  | None => ""
  end.

(** [x in l] for a list of strings. *)
Definition mem (x : string) (l : list string) : bool :=
  existsb (String.eqb x) l.

(** [l.remove(x)] on a list known to contain [x]: drops the first
    occurrence. *)
Fixpoint remove_first {A : Type} (eqb : A -> A -> bool) (x : A) (l : list A) : list A :=
  match l with
  | [] => []
  | y :: l' => if eqb x y then l' else y :: remove_first eqb x l'
  end.

(** [l.pop()]: the last element and the list without it. *)
Fixpoint pop {A : Type} (l : list A) : option (A * list A) :=
  match l with
  | [] => None
  | x :: l' =>
      match pop l' with
      | None => Some (x, [])
      | Some (y, r) => Some (y, x :: r)
      end
  end.

(** [sorted(l, key=...)] is a stable sort; [le a b] decides
    [key a <= key b].  Insertion places an element after every element
    whose key is not larger, which keeps equal keys in input order. *)
Section Sorted.
Context {A : Type} (le : A -> A -> bool).

Fixpoint insert_sorted (x : A) (l : list A) : list A :=
  match l with
  | [] => [x]
  | y :: l' => if le y x then y :: insert_sorted x l' else x :: y :: l'
  end.

Definition sorted (l : list A) : list A :=
  fold_left (fun acc x => insert_sorted x acc) l [].
End Sorted.

(** [int(s)] for a string of decimal digits, the only strings the
    optimizer passes (the suffix of a port name [I0] .. [I3]). *)
Definition digit_of (c : ascii) : option nat :=
  let n := nat_of_ascii c in
  if Nat.leb 48 n && Nat.leb n 57 then Some (n - 48) else None.

Fixpoint int_digits (acc : nat) (s : string) : option nat :=
  match s with
  | EmptyString => Some acc
  | String c s' =>
      match digit_of c with
      | Some d => int_digits (10 * acc + d) s'
      | None => None
      end
  end.

Definition int_dec (s : string) : result nat :=
  match s with
  | EmptyString => Raise ValueError
  | _ => from_option ValueError (int_digits 0 s)
  end.

(** [s[1:]] *)
Definition tail (s : string) : string :=
  match s with
  | EmptyString => EmptyString
  | String _ s' => s'
  end.

End Py.

(** ** The netlist access layer *)

Module Netlist.

(** Modelled from the spec: the netlist access layer (cells, ports, nets
    and the mutation primitives of section 6) is an external collaborator
    of the optimizer and not part of the repository.  Cells are kept in
    enumeration order and referenced by name; a net is identified by its
    name, its single driving port is the first output port connected to
    it and its consuming ports are the input ports connected to it. *)
Inductive PortType : Type := PORT_IN | PORT_OUT.

Record PortInfo : Type := mkPort {
  port_net : option string;
  port_type : PortType }.

Record PortRef : Type := mkRef {
  ref_cell : string;
  ref_port : string }.

(** A truth table parameter is a fixed-width binary string; it is kept as
    the list of its binary digits, most significant first. *)
Definition bits : Type := list bool.

Record CellInfo : Type := mkCell {
  cell_type : string;
  cell_ports : list (string * PortInfo);
  cell_params : list (string * bits) }.

Definition Context : Type := list (string * CellInfo).

Section Assoc.
Context {V : Type}.

Fixpoint assoc (k : string) (l : list (string * V)) : option V :=
  match l with
  | [] => None
  | (k', v) :: l' => if k =? k' then Some v else assoc k l'
  end.

(** Rebinds [k] in place, or appends the binding when [k] is new. *)
Fixpoint assoc_set (k : string) (v : V) (l : list (string * V)) : list (string * V) :=
  match l with
  | [] => [(k, v)]
  | (k', v') :: l' =>
      if k =? k' then (k, v) :: l' else (k', v') :: assoc_set k v l'
  end.
End Assoc.

Definition no_cell : CellInfo := mkCell "" [] [].

(** Modelled from the spec: dereferences a cell reference held by the
    optimizer.  A name that is not a cell of the netlist, which the
    optimizer never holds, reads as a cell without type, ports and
    parameters. *)
Definition cell_of (ctx : Context) (name : string) : CellInfo :=
  match assoc name ctx with
  | Some c => c
  | None => no_cell
  end.

(** Modelled from the spec: the type tag, [cell.type]. *)
Definition type_of (ctx : Context) (name : string) : string :=
  cell_type (cell_of ctx name).

(** Modelled from the spec: [p in cell.ports]. *)
Definition has_port (ctx : Context) (name p : string) : bool :=
  match assoc p (cell_ports (cell_of ctx name)) with
  | Some _ => true
  | None => false
  end.

(** Modelled from the spec: [cell.ports[p].net], the name of the
    connected net, if any; a missing port is a [KeyError]. *)
Definition port_net_of (ctx : Context) (name p : string) : result (option string) :=
  pi <- from_option KeyError (assoc p (cell_ports (cell_of ctx name))) ;;
  Ok (port_net pi).

(** Modelled from the spec: the named parameter, [cell.params[k]]. *)
Definition param_of (ctx : Context) (name k : string) : result bits :=
  from_option KeyError (assoc k (cell_params (cell_of ctx name))).

(** Every port of the netlist with its owner, in enumeration order. *)
Definition all_ports (ctx : Context) : list (PortRef * PortInfo) :=
  flat_map (fun c : string * CellInfo =>
              map (fun p : string * PortInfo => (mkRef (fst c) (fst p), snd p))
                  (cell_ports (snd c)))
           ctx.

Definition on_net (t : PortType) (n : string) (p : PortRef * PortInfo) : bool :=
  match port_type (snd p), t with
  | PORT_IN, PORT_IN | PORT_OUT, PORT_OUT =>
      match port_net (snd p) with
      | Some m => m =? n
      | None => false
      end
  | _, _ => false
  end.

(** Modelled from the spec: [net.driver], the single driving port, when
    the net is driven. *)
Definition driver (ctx : Context) (n : string) : option PortRef :=
  option_map fst (find (on_net PORT_OUT n) (all_ports ctx)).

(** Modelled from the spec: [net.users], the consuming ports. *)
Definition users (ctx : Context) (n : string) : list PortRef :=
  map fst (filter (on_net PORT_IN n) (all_ports ctx)).

(** Modelled from the spec: [net.driver.cell], failing like an attribute
    access on [None] when the net has no driver. *)
Definition driver_cell (ctx : Context) (n : string) : result string :=
  r <- from_option AttributeError (driver ctx n) ;;
  Ok (ref_cell r).

(** *** Mutation primitives *)

Definition update_cell (ctx : Context) (name : string)
    (f : CellInfo -> result CellInfo) : result Context :=
  c <- from_option NetlistError (assoc name ctx) ;;
  c' <- f c ;;
  Ok (assoc_set name c' ctx).

(** Modelled from the spec: writing the type tag, [cell.type = t]. *)
Definition set_type (ctx : Context) (name t : string) : Context :=
  match assoc name ctx with
  | Some c => assoc_set name (mkCell t (cell_ports c) (cell_params c)) ctx
  | None => ctx
  end.

(** Modelled from the spec: [ctx.disconnectPort(cell, port)]; nothing
    happens when the cell has no such port (the optimizer disconnects
    both [R] and [S] of a cell that has only one of them). *)
Definition disconnectPort (ctx : Context) (name p : string) : result Context :=
  update_cell ctx name (fun c =>
    match assoc p (cell_ports c) with
    | None => Ok c
    | Some pi =>
        Ok (mkCell (cell_type c)
                   (assoc_set p (mkPort None (port_type pi)) (cell_ports c))
                   (cell_params c))
    end).

(** Modelled from the spec: [ctx.connectPort(net, cell, port)]; the cell
    and the port must exist. *)
Definition connectPort (ctx : Context) (net name p : string) : result Context :=
  update_cell ctx name (fun c =>
    pi <- from_option NetlistError (assoc p (cell_ports c)) ;;
    Ok (mkCell (cell_type c)
               (assoc_set p (mkPort (Some net) (port_type pi)) (cell_ports c))
               (cell_params c))).

(** Modelled from the spec: [ctx.createCell(name, type)], a new cell
    without ports; the name must not be taken. *)
Definition createCell (ctx : Context) (name t : string) : result Context :=
  match assoc name ctx with
  | Some _ => Raise NetlistError
  | None => Ok (ctx ++ [(name, mkCell t [] [])])
  end.

(** Modelled from the spec: [cell.addInput(p)] and [cell.addOutput(p)]. *)
Definition addPort (ctx : Context) (name p : string) (t : PortType) : result Context :=
  update_cell ctx name (fun c =>
    Ok (mkCell (cell_type c) (assoc_set p (mkPort None t) (cell_ports c))
               (cell_params c))).

(** Modelled from the spec: [cell.setParam(k, v)]. *)
Definition setParam (ctx : Context) (name k : string) (v : bits) : result Context :=
  update_cell ctx name (fun c =>
    Ok (mkCell (cell_type c) (cell_ports c) (assoc_set k v (cell_params c)))).

(** Modelled from the spec: [ctx.createNet(name)]; a net carries no
    state of its own, it comes into being with its name. *)
Definition createNet (ctx : Context) (name : string) : result Context := Ok ctx.

End Netlist.

Import Netlist.

(** ** Control sets *)

Record ControlSet : Type := mkControlSet {
  rs : option string;
  ena : option string;
  clk : option string }.

Definition opt_eqb (a b : option string) : bool :=
  match a, b with
  | Some x, Some y => x =? y
  | None, None => true
  | _, _ => false
  end.

Definition cset_eqb (a b : ControlSet) : bool :=
  opt_eqb (rs a) (rs b) && opt_eqb (ena a) (ena b) && opt_eqb (clk a) (clk b).

(** [cell.ports[p].net.name if p in cell.ports and cell.ports[p].net is
    not None else None] *)
Definition net_name (ctx : Context) (cell p : string) : option string :=
  match assoc p (cell_ports (cell_of ctx cell)) with
  | Some pi => port_net pi
  | None => None
  end.

(** [ControlSet.from_cell] *)
Definition from_cell (ctx : Context) (cell : string) : result ControlSet :=
  if negb (String.prefix "SB_DFF" (type_of ctx cell)) then Raise ValueError
  else
    let net_r := net_name ctx cell "R" in
    let net_s := net_name ctx cell "S" in
    let net_e := net_name ctx cell "E" in
    let net_c := net_name ctx cell "C" in
    Ok (mkControlSet (Py.or_ net_r net_s) net_e net_c).

(** ** The equivalence index: a dictionary from control sets to member
    lists, in insertion order *)

Definition CsetMap : Type := list (ControlSet * list string).

Fixpoint cs_lookup (k : ControlSet) (m : CsetMap) : option (list string) :=
  match m with
  | [] => None
  | (k', v) :: m' => if cset_eqb k k' then Some v else cs_lookup k m'
  end.

(** [m[k]] *)
Definition cs_get (m : CsetMap) (k : ControlSet) : result (list string) :=
  from_option KeyError (cs_lookup k m).

(** [m.setdefault(k, []).extend(cells)] *)
Fixpoint cs_extend (k : ControlSet) (cells : list string) (m : CsetMap) : CsetMap :=
  match m with
  | [] => [(k, cells)]
  | (k', v) :: m' =>
      if cset_eqb k k' then (k', v ++ cells) :: m'
      else (k', v) :: cs_extend k cells m'
  end.

(** [m.pop(k)] when [k] is present: the dictionary without [k]. *)
Fixpoint cs_remove (k : ControlSet) (m : CsetMap) : CsetMap :=
  match m with
  | [] => []
  | (k', v) :: m' => if cset_eqb k k' then m' else (k', v) :: cs_remove k m'
  end.

Definition cs_pop (k : ControlSet) (m : CsetMap) : result (list string * CsetMap) :=
  cells <- cs_get m k ;;
  Ok (cells, cs_remove k m).

Definition cs_keys (m : CsetMap) : list ControlSet := map fst m.

(** ** The optimizer object *)

Record Optimizer : Type := mkOptimizer {
  ctx : Context;
  global_nets : list string;
  cset_map : CsetMap }.

Definition with_ctx (self : Optimizer) (c : Context) : Optimizer :=
  mkOptimizer c (global_nets self) (cset_map self).

Definition with_map (self : Optimizer) (m : CsetMap) : Optimizer :=
  mkOptimizer (ctx self) (global_nets self) m.

(** [find_global_nets]: the set of net names on the output of a global
    buffer, as a list without repetition. *)
Fixpoint global_outputs (c : Context) (names : list string) : result (list string) :=
  match names with
  | [] => Ok []
  | n :: names' =>
      if type_of c n =? "SB_GB" then
        o <- port_net_of c n "GLOBAL_BUFFER_OUTPUT" ;;
        net <- from_option AttributeError o ;;
        r <- global_outputs c names' ;;
        Ok (net :: r)
      else global_outputs c names'
  end.

Definition find_global_nets (c : Context) : result (list string) :=
  l <- global_outputs c (map fst c) ;;
  Ok (nodup string_dec l).

(** [build_map] *)
Fixpoint build_map_from (c : Context) (names : list string) (m : CsetMap) : result CsetMap :=
  match names with
  | [] => Ok m
  | n :: names' =>
      if negb (String.prefix "SB_DFF" (type_of c n)) then build_map_from c names' m
      else
        cset <- from_cell c n ;;
        build_map_from c names' (cs_extend cset [n] m)
  end.

Definition build_map (c : Context) : result CsetMap :=
  build_map_from c (map fst c) [].

(** [ControlSetOptimizer.__init__] *)
Definition init (c : Context) : result Optimizer :=
  g <- find_global_nets c ;;
  m <- build_map c ;;
  Ok (mkOptimizer c g m).

(** ** Utilities *)

(** [_net_name_simplify] *)
Definition _net_name_simplify (c : Context) (net : option string) : result (option string) :=
  match net with
  | None => Ok None
  | Some n =>
      d <- driver_cell c n ;;
      let t := type_of c d in
      if Py.mem t ["GND"; "VCC"] then Ok (Some t) else Ok (Some n)
  end.

(** [_unused_port] *)
Definition _unused_port (c : Context) (cell port_name : string) : result bool :=
  n <- port_net_of c cell port_name ;;
  match n with
  | None => Ok true
  | Some n =>
      d <- driver_cell c n ;;
      if type_of c d =? "GND" then Ok true else Ok false
  end.

(** The scan of [_cell_has_carry] over the users of [I1] and [I2]. *)
Fixpoint carry_scan (c : Context) (nn1 nn2 : option string) (us : list PortRef) : result bool :=
  match us with
  | [] => Ok false
  | u :: us' =>
      if negb (type_of c (ref_cell u) =? "SB_CARRY") then carry_scan c nn1 nn2 us'
      else
        i0 <- port_net_of c (ref_cell u) "I0" ;;
        s0 <- _net_name_simplify c i0 ;;
        if negb (opt_eqb s0 nn1) then carry_scan c nn1 nn2 us'
        else
          i1 <- port_net_of c (ref_cell u) "I1" ;;
          s1 <- _net_name_simplify c i1 ;;
          if negb (opt_eqb s1 nn2) then carry_scan c nn1 nn2 us'
          else Ok true
  end.

Definition users_of (c : Context) (net : option string) : list PortRef :=
  match net with
  | Some n => users c n
  | None => []
  end.

(** [_cell_has_carry] *)
Definition _cell_has_carry (c : Context) (cell : string) : result bool :=
  n1 <- port_net_of c cell "I1" ;;
  n2 <- port_net_of c cell "I2" ;;
  let us := users_of c n1 ++ users_of c n2 in
  nn1 <- _net_name_simplify c n1 ;;
  nn2 <- _net_name_simplify c n2 ;;
  carry_scan c nn1 nn2 us.

(** The list comprehension of [_lut_free_ports]. *)
Fixpoint unused_among (c : Context) (cell : string) (ps : list string) : result (list string) :=
  match ps with
  | [] => Ok []
  | p :: ps' =>
      u <- _unused_port c cell p ;;
      r <- unused_among c cell ps' ;;
      Ok (if u then p :: r else r)
  end.

(** [_lut_free_ports] *)
Definition _lut_free_ports (c : Context) (cell : string) : result (list string) :=
  free_ports <- unused_among c cell ["I0"; "I1"; "I2"; "I3"] ;;
  carry <- _cell_has_carry c cell ;;
  if carry then
    Ok (fold_left (fun fp p => if Py.mem p fp then Py.remove_first String.eqb p fp else fp)
                  ["I1"; "I2"] free_ports)
  else Ok free_ports.

(** ** Cost and legality models *)

(** [bool(conv & 1)] and [bool(conv & 2)] *)
Definition rm_rs_of (conv : Z) : bool := negb (Z.land conv 1 =? 0)%Z.
Definition rm_ena_of (conv : Z) : bool := negb (Z.land conv 2 =? 0)%Z.

(** [(2 * rm_ena) + (1 * rm_rs)] *)
Definition n_in_of (conv : Z) : nat :=
  2 * Nat.b2n (rm_ena_of conv) + 1 * Nat.b2n (rm_rs_of conv).

(** [cell.ports['D'].net.driver.cell] *)
Definition d_driver (c : Context) (cell : string) : result string :=
  d <- port_net_of c cell "D" ;;
  n <- from_option AttributeError d ;;
  driver_cell c n.

(** [len(driver_cell.ports['O'].net.users)] *)
Definition fanout (c : Context) (driver : string) : result nat :=
  o <- port_net_of c driver "O" ;;
  n <- from_option AttributeError o ;;
  Ok (List.length (users c n)).

(** One round of the loop of [cost_convert]: the charge for one cell. *)
Definition cost_cell (c : Context) (n_in : nat) (cell : string) : result nat :=
  driver <- d_driver c cell ;;
  if negb (type_of c driver =? "SB_LUT4") then Ok 0
  else
    k <- fanout c driver ;;
    if Nat.ltb 1 k then Ok 0
    else
      free_ports <- _lut_free_ports c driver ;;
      if Nat.ltb (List.length free_ports) n_in then Ok 1 else Ok 0.

Fixpoint cost_cells (c : Context) (n_in : nat) (cells : list string) (cost : nat) : result nat :=
  match cells with
  | [] => Ok cost
  | cell :: cells' =>
      k <- cost_cell c n_in cell ;;
      cost_cells c n_in cells' (cost + k)
  end.

(** [cost_convert] *)
Definition cost_convert (self : Optimizer) (cset : ControlSet) (conv : Z) : result nat :=
  let n_in := n_in_of conv in
  cells <- cs_get (cset_map self) cset ;;
  cost_cells (ctx self) n_in cells 0.

Definition async_types : list string := ["SB_DFFR"; "SB_DFFS"; "SB_DFFER"; "SB_DFFES"].

(** [can_convert] *)
Definition can_convert (self : Optimizer) (cset : ControlSet) (conv : Z) : result bool :=
  let rm_rs := rm_rs_of conv in
  let rm_ena := rm_ena_of conv in
  let has_rs := match rs cset with Some _ => true | None => false end in
  let has_ena := match ena cset with Some _ => true | None => false end in
  has_rs <-
    (if has_rs then
       cells <- cs_get (cset_map self) cset ;;
       Ok (negb (existsb (fun c => Py.mem (type_of (ctx self) c) async_types) cells))
     else Ok has_rs) ;;
  if rm_rs && negb has_rs then Ok false
  else if rm_ena && negb has_ena then Ok false
  else if has_rs && (rm_ena && negb rm_rs) then Ok false
  else Ok true.

(** ** Truth-table rewrite *)

(** [int(val, 2)] on a binary string. *)
Definition int_bits (val : bits) : result Z :=
  match val with
  | [] => Raise ValueError
  | _ => Ok (fold_left (fun acc (b : bool) => 2 * acc + Z.b2z b)%Z val 0%Z)
  end.

(** [f'{val:016b}'] for a non-negative [val]. *)
Definition format_016b (val : Z) : bits :=
  let width := Nat.max 16 (Z.to_nat (Z.log2 val) + 1) in
  map (fun i => Z.testbit val (Z.of_nat i)) (rev (seq 0 width)).

(** [i & (1 << p)] as a truth value *)
Definition bit_and (i : Z) (p : nat) : bool :=
  negb (Z.land i (Z.shiftl 1 (Z.of_nat p)) =? 0)%Z.

Definition set_or_clear (val mask : Z) (b : bool) : Z :=
  if b then Z.lor val mask else Z.land val (Z.lnot mask).

(** The body of the loop of [_update_lut_init] for input combination [i]. *)
Definition lut_step (pn_rs : option nat) (rs_val : bool) (pn_ena pn_old : option nat)
    (val : Z) (i : nat) : result Z :=
  let mask := Z.shiftl 1 (Z.of_nat i) in
  let val :=
    match pn_rs with
    | Some p => if bit_and (Z.of_nat i) p then set_or_clear val mask rs_val else val
    | None => val
    end in
  match pn_ena with
  | Some pe =>
      if negb (bit_and (Z.of_nat i) pe) then
        po <- from_option TypeError pn_old ;;
        Ok (set_or_clear val mask (bit_and (Z.of_nat i) po))
      else Ok val
  | None => Ok val
  end.

Fixpoint lut_loop (pn_rs : option nat) (rs_val : bool) (pn_ena pn_old : option nat)
    (val : Z) (idx : list nat) : result Z :=
  match idx with
  | [] => Ok val
  | i :: idx' =>
      val' <- lut_step pn_rs rs_val pn_ena pn_old val i ;;
      lut_loop pn_rs rs_val pn_ena pn_old val' idx'
  end.

(** [_update_lut_init] *)
Definition _update_lut_init (val : bits) (pn_rs : option nat) (rs_val : bool)
    (pn_ena pn_old : option nat) : result bits :=
  val <- int_bits val ;;
  val <- lut_loop pn_rs rs_val pn_ena pn_old val (seq 0 16) ;;
  Ok (format_016b val).

(** ** Applying a conversion *)

Definition bits_of_string (s : string) : bits :=
  map (fun c => Ascii.eqb c "1"%char) (list_ascii_of_string s).

(** Inserts a fresh pass-through LUT in front of the [D] input of [cell]. *)
Definition insert_lut (c : Context) (cell : string) : result (Context * string * list string) :=
  let new_lut := (cell ++ "_conv")%string in
  c <- createCell c new_lut "SB_LUT4" ;;
  c <- addPort c new_lut "I0" PORT_IN ;;
  c <- addPort c new_lut "I1" PORT_IN ;;
  c <- addPort c new_lut "I2" PORT_IN ;;
  c <- addPort c new_lut "I3" PORT_IN ;;
  c <- addPort c new_lut "O" PORT_OUT ;;
  c <- setParam c new_lut "LUT_INIT" (bits_of_string "1111111100000000") ;;
  let new_net := (cell ++ "_net")%string in
  c <- createNet c new_net ;;
  d <- port_net_of c cell "D" ;;
  old_net <- from_option AttributeError d ;;
  c <- disconnectPort c cell "D" ;;
  c <- connectPort c old_net new_lut "I3" ;;
  c <- connectPort c new_net new_lut "O" ;;
  c <- connectPort c new_net cell "D" ;;
  Ok (c, new_lut, ["I0"; "I1"; "I2"]).

(** [p = free_ports.pop(); pn = int(p[1:])] *)
Definition take_port (free_ports : list string) : result (string * nat * list string) :=
  '(p, free_ports) <- from_option IndexError (Py.pop free_ports) ;;
  pn <- Py.int_dec (Py.tail p) ;;
  Ok (p, pn, free_ports).

(** The body of the loop of [exec_convert] for one cell. *)
Definition convert_cell (c : Context) (cset : ControlSet) (conv : Z) (cell : string)
    : result Context :=
  let rm_rs := rm_rs_of conv in
  let rm_ena := rm_ena_of conv in
  let n_in := n_in_of conv in
  let t := type_of c cell in
  let set_reset := Py.contains "SS" t in
  '(c, t) <-
    (if rm_rs then
       c <- disconnectPort c cell "R" ;;
       c <- disconnectPort c cell "S" ;;
       Ok (c, Py.replace "SS" "" (Py.replace "SR" "" t))
     else Ok (c, t)) ;;
  '(c, t) <-
    (if rm_ena then
       c <- disconnectPort c cell "E" ;;
       Ok (c, Py.replace "E" "" t)
     else Ok (c, t)) ;;
  let c := set_type c cell t in
  driver <- d_driver c cell ;;
  free_ports <-
    (if type_of c driver =? "SB_LUT4" then
       k <- fanout c driver ;;
       if Nat.eqb k 1 then _lut_free_ports c driver else Ok []
     else Ok []) ;;
  '(c, tgt_lut, free_ports) <-
    (if Nat.ltb (List.length free_ports) n_in then insert_lut c cell
     else Ok (c, driver, free_ports)) ;;
  '(c, free_ports, pn_rs) <-
    (if rm_rs then
       '(p_rs, pn_rs, free_ports) <- take_port free_ports ;;
       c <- disconnectPort c tgt_lut p_rs ;;
       net <- from_option TypeError (rs cset) ;;
       c <- connectPort c net tgt_lut p_rs ;;
       Ok (c, free_ports, Some pn_rs)
     else Ok (c, free_ports, None)) ;;
  '(c, pn_ena, pn_old) <-
    (if rm_ena then
       '(p_ena, pn_ena, free_ports) <- take_port free_ports ;;
       '(p_old, pn_old, free_ports) <- take_port free_ports ;;
       c <- disconnectPort c tgt_lut p_ena ;;
       c <- disconnectPort c tgt_lut p_old ;;
       net <- from_option TypeError (ena cset) ;;
       c <- connectPort c net tgt_lut p_ena ;;
       q <- port_net_of c cell "Q" ;;
       q_net <- from_option AttributeError q ;;
       c <- connectPort c q_net tgt_lut p_old ;;
       Ok (c, Some pn_ena, Some pn_old)
     else Ok (c, None, None)) ;;
  lut_init <- param_of c tgt_lut "LUT_INIT" ;;
  lut_init <- _update_lut_init lut_init pn_rs set_reset pn_ena pn_old ;;
  setParam c tgt_lut "LUT_INIT" lut_init.

Fixpoint convert_cells (c : Context) (cset : ControlSet) (conv : Z) (cells : list string)
    : result Context :=
  match cells with
  | [] => Ok c
  | cell :: cells' =>
      c <- convert_cell c cset conv cell ;;
      convert_cells c cset conv cells'
  end.

(** [exec_convert]: the netlist held by the optimizer is rewritten, the
    index is only read. *)
Definition exec_convert (self : Optimizer) (cset : ControlSet) (conv : Z) : result Optimizer :=
  cells <- cs_get (cset_map self) cset ;;
  c <- convert_cells (ctx self) cset conv cells ;;
  Ok (with_ctx self c).

(** ** Merge search *)

(** [ControlSet(None if rm_rs else cset.rs, None if rm_ena else cset.ena,
    cset.clk)] *)
Definition target_of (conv : Z) (cset : ControlSet) : ControlSet :=
  mkControlSet (if rm_rs_of conv then None else rs cset)
               (if rm_ena_of conv then None else ena cset)
               (clk cset).

(** An entry of [possible_tgt]:
    [(tgt, conv, cost, cell_in_group, cset_in_group)]. *)
Record Candidate : Type := mkCandidate {
  cand_tgt : ControlSet;
  cand_conv : Z;
  cand_cost : nat;
  cand_cells : nat;
  cand_csets : list ControlSet }.

(** The inner loop over the other control sets still to process. *)
Fixpoint scan_alts (self : Optimizer) (threshold : Z) (conv : Z) (tgt : ControlSet)
    (todo : list ControlSet) (cell_in_group : nat) (cset_in_group : list ControlSet)
    : result (nat * list ControlSet) :=
  match todo with
  | [] => Ok (cell_in_group, cset_in_group)
  | alt_cset :: todo' =>
      alt_cells <- cs_get (cset_map self) alt_cset ;;
      let alt_tgt := target_of conv alt_cset in
      if (threshold <=? Z.of_nat (List.length alt_cells))%Z then
        scan_alts self threshold conv tgt todo' cell_in_group cset_in_group
      else
        ok <- can_convert self alt_cset conv ;;
        if negb ok then
          scan_alts self threshold conv tgt todo' cell_in_group cset_in_group
        else if cset_eqb tgt alt_tgt then
          scan_alts self threshold conv tgt todo'
                    (cell_in_group + List.length alt_cells)
                    (cset_in_group ++ [alt_cset])
        else
          scan_alts self threshold conv tgt todo' cell_in_group cset_in_group
  end.

(** [sum([self.cost_convert(x, conv) for x in cset_in_group])] *)
Fixpoint group_cost (self : Optimizer) (conv : Z) (group : list ControlSet) : result nat :=
  match group with
  | [] => Ok 0
  | x :: group' =>
      k <- cost_convert self x conv ;;
      r <- group_cost self conv group' ;;
      Ok (k + r)
  end.

(** The projected group of one removal option: [cell_in_group] and
    [cset_in_group] as they stand before the threshold test. *)
Definition project (self : Optimizer) (threshold : Z) (to_process : list ControlSet)
    (cset : ControlSet) (cells : list string) (conv : Z)
    : result (nat * list ControlSet) :=
  let tgt := target_of conv cset in
  let cell_in_group := List.length cells in
  let cset_in_group := [cset] in
  let cell_in_group :=
    match cs_lookup tgt (cset_map self) with
    | Some l => cell_in_group + List.length l
    | None => cell_in_group
    end in
  if Py.truthy (rs tgt) || Py.truthy (ena tgt) then
    scan_alts self threshold conv tgt to_process cell_in_group cset_in_group
  else Ok (cell_in_group, cset_in_group).

(** One round of the loop over [conv]: the candidate recorded for this
    option, if any. *)
Definition evaluate (self : Optimizer) (threshold : Z) (to_process : list ControlSet)
    (cset : ControlSet) (cells : list string) (conv : Z) : result (option Candidate) :=
  ok <- can_convert self cset conv ;;
  if negb ok then Ok None
  else
    '(cell_in_group, cset_in_group) <- project self threshold to_process cset cells conv ;;
    if (Z.of_nat cell_in_group <? threshold)%Z then Ok None
    else
      cost <- group_cost self conv cset_in_group ;;
      Ok (Some (mkCandidate (target_of conv cset) conv cost cell_in_group cset_in_group)).

Fixpoint candidates (self : Optimizer) (threshold : Z) (to_process : list ControlSet)
    (cset : ControlSet) (cells : list string) (convs : list Z) : result (list Candidate) :=
  match convs with
  | [] => Ok []
  | conv :: convs' =>
      o <- evaluate self threshold to_process cset cells conv ;;
      r <- candidates self threshold to_process cset cells convs' ;;
      Ok (match o with Some c => c :: r | None => r end)
  end.

(** Order of the keys [(cost / len(cset_in_group), -cell_in_group)].  The
    quotients are compared exactly, by cross multiplication; the
    correctly rounded quotients that Python compares are in the same
    order as long as costs and group sizes stay below 2^26. *)
Definition cand_le (a b : Candidate) : bool :=
  let l := cand_cost a * List.length (cand_csets b) in
  let r := cand_cost b * List.length (cand_csets a) in
  if Nat.ltb l r then true
  else if Nat.ltb r l then false
  else Nat.leb (cand_cells b) (cand_cells a).

(** Order of the keys [(x[0] or '', x[1] or '', x[2] or '')]. *)
Definition cset_le (a b : ControlSet) : bool :=
  match String.compare (Py.or_empty (rs a)) (Py.or_empty (rs b)) with
  | Lt => true
  | Gt => false
  | Eq =>
      match String.compare (Py.or_empty (ena a)) (Py.or_empty (ena b)) with
      | Lt => true
      | Gt => false
      | Eq => String.leb (Py.or_empty (clk a)) (Py.or_empty (clk b))
      end
  end.

(** The loop that applies the winning candidate. *)
Fixpoint apply_group (self : Optimizer) (to_process : list ControlSet) (tgt : ControlSet)
    (conv : Z) (group : list ControlSet) : result (Optimizer * list ControlSet) :=
  match group with
  | [] => Ok (self, to_process)
  | cset_cur :: group' =>
      self <- exec_convert self cset_cur conv ;;
      let to_process :=
        if existsb (cset_eqb cset_cur) to_process
        then Py.remove_first cset_eqb cset_cur to_process
        else to_process in
      '(cells_cur, m) <- cs_pop cset_cur (cset_map self) ;;
      apply_group (with_map self (cs_extend tgt cells_cur m)) to_process tgt conv group'
  end.

(** Lines written to the console. *)
Inductive line : Type :=
| DebugCandidate (cost cell_in_group : nat) (tgt : ControlSet)
| DebugMember (n : nat) (cset : ControlSet)
| DebugRule
| Summary (total_cost cset_cnt_before cset_cnt_after : nat)
| StatsTotal (n : nat)
| StatsCount (k n : nat)
| StatsSet (n : nat) (cset : ControlSet).

Fixpoint debug_members (self : Optimizer) (group : list ControlSet) : result (list line) :=
  match group with
  | [] => Ok []
  | x :: group' =>
      cells <- cs_get (cset_map self) x ;;
      r <- debug_members self group' ;;
      Ok (DebugMember (List.length cells) x :: r)
  end.

Fixpoint debug_candidates (self : Optimizer) (possible_tgt : list Candidate) : result (list line) :=
  match possible_tgt with
  | [] => Ok [DebugRule]
  | c :: possible_tgt' =>
      ms <- debug_members self (cand_csets c) ;;
      r <- debug_candidates self possible_tgt' ;;
      Ok (DebugCandidate (cand_cost c) (cand_cells c) (cand_tgt c) :: ms ++ r)
  end.

(** The state of the loop of [optimize]. *)
Record Run : Type := mkRun {
  run_self : Optimizer;
  to_process : list ControlSet;
  total_cost : nat;
  output : list line }.

(** One round of the loop of [optimize], after [cset] has been popped. *)
Definition step (threshold : Z) (debug : bool) (st : Run) (cset : ControlSet)
    (to_process : list ControlSet) : result Run :=
  let self := run_self st in
  cells <- cs_get (cset_map self) cset ;;
  if (threshold <=? Z.of_nat (List.length cells))%Z then
    Ok (mkRun self to_process (total_cost st) (output st))
  else
    possible_tgt <- candidates self threshold to_process cset cells [1; 2; 3]%Z ;;
    match possible_tgt with
    | [] => Ok (mkRun self to_process (total_cost st) (output st))
    | _ :: _ =>
        let possible_tgt := Py.sorted cand_le possible_tgt in
        dbg <- (if debug then debug_candidates self possible_tgt else Ok []) ;;
        best <- from_option IndexError (hd_error possible_tgt) ;;
        '(self, to_process) <-
          apply_group self to_process (cand_tgt best) (cand_conv best) (cand_csets best) ;;
        Ok (mkRun self to_process (total_cost st + cand_cost best) (output st ++ dbg))
    end.

(** The loop of [optimize]; every round pops one element of the work
    list, [fuel] bounds the number of rounds and [None] means it ran out. *)
Fixpoint optimize_loop (fuel : nat) (threshold : Z) (debug : bool) (st : Run)
    : option (result Run) :=
  match Py.pop (to_process st) with
  | None => Some (Ok st)
  | Some (cset, rest) =>
      match fuel with
      | O => None
      | S fuel' =>
          match step threshold debug st cset rest with
          | Ok st' => optimize_loop fuel' threshold debug st'
          | Raise e => Some (Raise e)
          end
      end
  end.

(** [optimize]: the optimizer after the run and the lines printed. *)
Definition optimize (self : Optimizer) (threshold : Z) (debug : bool)
    : option (result (Optimizer * list line)) :=
  let to_process := Py.sorted cset_le (cs_keys (cset_map self)) in
  let cset_cnt_before := List.length (cset_map self) in
  match optimize_loop (List.length to_process) threshold debug (mkRun self to_process 0 []) with
  | None => None
  | Some (Raise e) => Some (Raise e)
  | Some (Ok st) =>
      let cset_cnt_after := List.length (cset_map (run_self st)) in
      Some (Ok (run_self st,
                output st ++ [Summary (total_cost st) cset_cnt_before cset_cnt_after]))
  end.

(** ** Statistics and entry point *)

(** [csl.setdefault(n, []).append(e)] *)
Fixpoint csl_add (n : nat) (e : ControlSet * list string)
    (csl : list (nat * list (ControlSet * list string)))
    : list (nat * list (ControlSet * list string)) :=
  match csl with
  | [] => [(n, [e])]
  | (k, v) :: csl' =>
      if Nat.eqb n k then (k, v ++ [e]) :: csl' else (k, v) :: csl_add n e csl'
  end.

(** [stats] *)
Definition stats (self : Optimizer) : list line :=
  let csl := fold_left (fun csl e => csl_add (List.length (snd e)) e csl) (cset_map self) [] in
  [StatsTotal (List.length (cset_map self))]
  ++ map (fun kv => StatsCount (fst kv) (List.length (snd kv)))
         (Py.sorted (fun a b : nat * list (ControlSet * list string) => Nat.leb (fst a) (fst b)) csl)
  ++ map (fun kv => StatsSet (List.length (snd kv)) (fst kv))
         (Py.sorted (fun a b : ControlSet * list string =>
                       Nat.leb (List.length (snd a)) (List.length (snd b)))
                    (cset_map self)).

(** [run_opt]: the netlist after the pass and the lines printed. *)
Definition run_opt (c : Context) (threshold : Z) (debug : bool)
    : option (result (Context * list line)) :=
  let debug := true in
  match init c with
  | Raise e => Some (Raise e)
  | Ok opt =>
      match optimize opt threshold debug with
      | None => None
      | Some (Raise e) => Some (Raise e)
      | Some (Ok (opt, out)) =>
          Some (Ok (ctx opt, if debug then out ++ stats opt else out))
      end
  end.

(** ** Example netlists *)

Module Examples.

Definition input (net : string) : PortInfo := mkPort (Some net) PORT_IN.
Definition output (net : string) : PortInfo := mkPort (Some net) PORT_OUT.

(** An I/O cell driving [net]. *)
Definition pad (name net : string) : string * CellInfo :=
  (name, mkCell "SB_IO" [("D_IN_0", output net)] []).

(** A plain flip-flop on clock [c]. *)
Definition dff (name d q : string) : string * CellInfo :=
  (name, mkCell "SB_DFF" [("C", input "c"); ("D", input d); ("Q", output q)] []).

(** A flip-flop with synchronous reset [r]. *)
Definition dffsr (name r d q : string) : string * CellInfo :=
  (name, mkCell "SB_DFFSR"
                [("C", input "c"); ("R", input r); ("D", input d); ("Q", output q)] []).

(** A flip-flop with synchronous set [s]. *)
Definition dffss (name s d q : string) : string * CellInfo :=
  (name, mkCell "SB_DFFSS"
                [("C", input "c"); ("S", input s); ("D", input d); ("Q", output q)] []).

Definition clock_buffer : string * CellInfo :=
  ("gb", mkCell "SB_GB" [("USER_SIGNAL_TO_GLOBAL_BUFFER", input "clk_pad");
                         ("GLOBAL_BUFFER_OUTPUT", output "c")] []).

Definition set_A : ControlSet := mkControlSet (Some "x") None (Some "c").
Definition set_B : ControlSet := mkControlSet None None (Some "c").

(** Two control sets: A = (x, -, c) with two members and B = (-, -, c)
    with [n] members taken from [b0 .. b4]; no flip-flop is fed by a
    lookup table. *)
Definition pads : Context :=
  [pad "io0" "d0"; pad "io1" "d1"; pad "io2" "d2"; pad "io3" "d3"; pad "io4" "d4";
   pad "io5" "d5"; pad "io6" "d6"; pad "iox" "x"].

Definition two_sets (n : nat) : Context :=
  clock_buffer :: pads
  ++ [dffsr "a0" "x" "d0" "qa0"; dffss "a1" "x" "d1" "qa1"]
  ++ firstn n [dff "b0" "d2" "qb0"; dff "b1" "d3" "qb1"; dff "b2" "d4" "qb2";
               dff "b3" "d5" "qb3"; dff "b4" "d6" "qb4"].

(** Two control sets that differ in their reset net only, two members
    each. *)
Definition set_Y : ControlSet := mkControlSet (Some "y") None (Some "c").

Definition two_resets : Context :=
  clock_buffer :: pads
  ++ [pad "ioy" "y";
      dffsr "a0" "x" "d0" "qa0"; dffsr "a1" "x" "d1" "qa1";
      dffsr "r0" "y" "d2" "qr0"; dffsr "r1" "y" "d3" "qr1"].

(** A flip-flop with enable [e] and a reset [r], synchronous for type
    [SB_DFFESR] and asynchronous for type [SB_DFFER]. *)
Definition dffe (t name r e d q : string) : string * CellInfo :=
  (name, mkCell t [("C", input "c"); ("R", input r); ("E", input e);
                   ("D", input d); ("Q", output q)] []).

Definition set_E : ControlSet := mkControlSet (Some "x") (Some "en") (Some "c").

Definition enabled : Context :=
  clock_buffer :: pads
  ++ [pad "ioe" "en";
      dffe "SB_DFFESR" "e0" "x" "en" "d0" "qe0";
      dffe "SB_DFFESR" "e1" "x" "en" "d1" "qe1"].

(** A flip-flop fed by a lookup table all of whose inputs are in use,
    and one fed by a lookup table with three free inputs. *)
Definition lut4 (name : string) (i0 i1 i2 i3 o : option string) (init : string)
    : string * CellInfo :=
  (name,
   mkCell "SB_LUT4"
          [("I0", mkPort i0 PORT_IN); ("I1", mkPort i1 PORT_IN);
           ("I2", mkPort i2 PORT_IN); ("I3", mkPort i3 PORT_IN);
           ("O", mkPort o PORT_OUT)]
          [("LUT_INIT", bits_of_string init)]).

Definition lut_fed : Context :=
  clock_buffer :: pads
  ++ [lut4 "l0" (Some "d2") (Some "d3") (Some "d4") (Some "d5") (Some "f0_d")
           "0110100110010110";
      lut4 "l1" (Some "d6") None None None (Some "f1_d") "1010101010101010";
      dffsr "f0" "x" "f0_d" "qf0"; dffsr "f1" "x" "f1_d" "qf1"].

(** Two control sets with the same enable net and different reset nets,
    two members each. *)
Definition set_F : ControlSet := mkControlSet (Some "y") (Some "en") (Some "c").
Definition set_G : ControlSet := mkControlSet None (Some "en") (Some "c").

Definition enabled_resets : Context :=
  enabled
  ++ [pad "ioy" "y";
      dffe "SB_DFFESR" "g0" "y" "en" "d2" "qg0";
      dffe "SB_DFFESR" "g1" "y" "en" "d3" "qg1"].

(** The optimizer built on a netlist. *)
Definition opt_of (c : Context) : Optimizer :=
  match init c with
  | Ok o => o
  | Raise _ => mkOptimizer c [] []
  end.

(** The optimizer after the netlist rewrite of [cset]. *)
Definition converted (self : Optimizer) (cset : ControlSet) (conv : Z) : Optimizer :=
  match exec_convert self cset conv with
  | Ok s => s
  | Raise _ => self
  end.

(** The optimizer after a run on netlist [c]. *)
Definition final (c : Context) (threshold : Z) : Optimizer :=
  match optimize (opt_of c) threshold false with
  | Some (Ok (s, _)) => s
  | _ => opt_of c
  end.

End Examples.

(** ** Vocabulary of the properties *)

(** Output bit of the table for input combination [i]: the digit [i]
    places from the right end of the binary string. *)
Definition table_bit (t : bits) (i : nat) : bool := nth i (rev t) false.

(** Logic level of input [p] in input combination [i]. *)
Definition input_bit (i p : nat) : bool := Z.testbit (Z.of_nat i) (Z.of_nat p).

(** What the two edits make of the output bit [b] of input combination
    [i]: first the reset/set force, then the enable hold. *)
Definition edited_bit (pn_rs : option nat) (rs_val : bool) (pn_ena : option nat) (po : nat)
    (i : nat) (b : bool) : bool :=
  let b1 :=
    match pn_rs with
    | Some p => if input_bit i p then rs_val else b
    | None => b
    end in
  match pn_ena with
  | Some pe => if input_bit i pe then b1 else input_bit i po
  | None => b1
  end.

Definition is_async (c : Context) (cell : string) : bool :=
  Py.mem (type_of c cell) async_types.

(** All the flip-flops of the index, bucket after bucket. *)
Definition all_cells (m : CsetMap) : list string := flat_map snd m.

(** Sum of the member counts of the buckets. *)
Definition cell_count (m : CsetMap) : nat :=
  list_sum (map (fun e : ControlSet * list string => List.length (snd e)) m).

(** The bucket of [x] exists and is below the threshold. *)
Definition below (m : CsetMap) (threshold : Z) (x : ControlSet) : Prop :=
  exists l, cs_lookup x m = Some l /\ (Z.of_nat (List.length l) < threshold)%Z.

(** An input of a lookup table is free when it is unconnected or driven
    by a constant-zero [GND] cell. *)
Definition free_input (c : Context) (lut p : string) : bool :=
  match net_name c lut p with
  | None => true
  | Some n =>
      match driver c n with
      | Some r => type_of c (ref_cell r) =? "GND"
      | None => false
      end
  end.

(** The name under which a net is compared: a net driven by a constant
    cell goes by the type of that cell, [GND] or [VCC]. *)
Definition simplified (c : Context) (net : option string) : option string :=
  match net with
  | None => None
  | Some n =>
      match driver c n with
      | Some r =>
          let t := type_of c (ref_cell r) in
          if Py.mem t ["GND"; "VCC"] then Some t else Some n
      | None => Some n
      end
  end.

(** The consumer [u] is a carry cell whose two inputs are on the same
    pair of nets as [I1] and [I2] of the lookup table. *)
Definition matched_carry (c : Context) (lut : string) (u : PortRef) : bool :=
  (type_of c (ref_cell u) =? "SB_CARRY")
  && opt_eqb (simplified c (net_name c (ref_cell u) "I0"))
             (simplified c (net_name c lut "I1"))
  && opt_eqb (simplified c (net_name c (ref_cell u) "I1"))
             (simplified c (net_name c lut "I2")).

(** A matched carry-chain pair consumes the nets of [I1] and [I2]. *)
Definition has_carry (c : Context) (lut : string) : bool :=
  existsb (matched_carry c lut)
          (users_of c (net_name c lut "I1") ++ users_of c (net_name c lut "I2")).

(** The free-input count: free inputs, without [I1] and [I2] when they
    are reserved for the carry chain. *)
Definition free_count (c : Context) (lut : string) : nat :=
  List.length
    (filter (fun p => free_input c lut p
                      && negb (has_carry c lut && Py.mem p ["I1"; "I2"]))
            ["I0"; "I1"; "I2"; "I3"]).

(** Number of consumers of the output of [lut], when it has an output net. *)
Definition consumers (c : Context) (lut : string) : option nat :=
  match net_name c lut "O" with
  | Some o => Some (List.length (users c o))
  | None => None
  end.

(** A member is charged when its data driver is a lookup table with
    exactly one consumer and fewer free inputs than required. *)
Definition charged (c : Context) (required : nat) (cell : string) : bool :=
  match d_driver c cell with
  | Ok d =>
      (type_of c d =? "SB_LUT4")
      && match consumers c d with Some k => Nat.eqb k 1 | None => false end
      && Nat.ltb (free_count c d) required
  | Raise _ => false
  end.

(** Netlist well-formedness: a flip-flop fed by a lookup table is itself
    among the consumers of the output net of that lookup table. *)
Definition feeds_from_output (c : Context) (cell : string) : Prop :=
  forall d o,
    d_driver c cell = Ok d -> type_of c d = "SB_LUT4" ->
    net_name c d "O" = Some o ->
    In (mkRef cell "D") (users c o).

(** Members of the bucket of [k]; none when there is no such bucket. *)
Definition members (m : CsetMap) (k : ControlSet) : list string :=
  match cs_lookup k m with
  | Some l => l
  | None => []
  end.

(** The removal passes the legality check on [k]. *)
Definition legal (self : Optimizer) (k : ControlSet) (conv : Z) : bool :=
  match can_convert self k conv with
  | Ok b => b
  | Raise _ => false
  end.

(** Another control set is pulled into the group of target [tgt]: it is
    below the threshold, the same removal yields the same target and it
    passes the legality check on its own. *)
Definition pulled_in (self : Optimizer) (threshold : Z) (conv : Z) (tgt alt : ControlSet) : bool :=
  (Z.of_nat (List.length (members (cset_map self) alt)) <? threshold)%Z
  && legal self alt conv
  && cset_eqb tgt (target_of conv alt).

Definition pulled_cells (self : Optimizer) (threshold : Z) (conv : Z) (tgt : ControlSet)
    (to_process : list ControlSet) : nat :=
  list_sum (map (fun alt => List.length (members (cset_map self) alt))
                (filter (pulled_in self threshold conv tgt) to_process)).

(** The projected group size as the specification words it: own
    members, members of the bucket of the target, members of every other
    set pulled in. *)
Definition stated_group_size (self : Optimizer) (threshold : Z)
    (to_process : list ControlSet) (cset : ControlSet) (conv : Z) : nat :=
  let tgt := target_of conv cset in
  List.length (members (cset_map self) cset)
  + List.length (members (cset_map self) tgt)
  + pulled_cells self threshold conv tgt to_process.

(** The same, with the other sets counted only when the target keeps a
    non-empty reset/set or enable net. *)
Definition guarded_group_size (self : Optimizer) (threshold : Z)
    (to_process : list ControlSet) (cset : ControlSet) (conv : Z) : nat :=
  let tgt := target_of conv cset in
  List.length (members (cset_map self) cset)
  + List.length (members (cset_map self) tgt)
  + (if Py.truthy (rs tgt) || Py.truthy (ena tgt)
     then pulled_cells self threshold conv tgt to_process
     else 0).

(** The optimizer with its global-net set replaced by [g]. *)
Definition set_globals (g : list string) (self : Optimizer) : Optimizer :=
  mkOptimizer (ctx self) g (cset_map self).

Definition map_result {A B : Type} (f : A -> B) (r : result A) : result B :=
  match r with
  | Ok a => Ok (f a)
  | Raise e => Raise e
  end.

Definition set_globals_run (g : list string) (st : Run) : Run :=
  mkRun (set_globals g (run_self st)) (to_process st) (total_cost st) (output st).

Definition on_fst {A B C : Type} (f : A -> C) (p : A * B) : C * B := (f (fst p), snd p).

(** The debug lines of the end-to-end scenario. *)
Definition scenario_debug (debug : bool) : list line :=
  if debug
  then [DebugCandidate 0 5 Examples.set_B; DebugMember 2 Examples.set_A; DebugRule]
  else [].

(** ** Vocabulary of the further properties *)

(** The cell is of the flip-flop family. *)
Definition is_ff (c : Context) (x : string) : bool :=
  String.prefix "SB_DFF" (type_of c x).

(** The wiring of cell [x] makes [k] its control set. *)
Definition files_under (c : Context) (k : ControlSet) (x : string) : bool :=
  match from_cell c x with
  | Ok k' => cset_eqb k' k
  | Raise _ => false
  end.

(** Every flip-flop of the index is filed under the control set that
    its wiring in the netlist gives. *)
Definition synced (c : Context) (m : CsetMap) : Prop :=
  forall k cells, In (k, cells) m -> forall x, In x cells -> from_cell c x = Ok k.

(** What [from_cell] reads of a cell: its type and the nets on its
    control inputs. *)
Definition wiring (c : Context) (x : string)
    : string * option string * option string * option string * option string :=
  (type_of c x, net_name c x "R", net_name c x "S", net_name c x "E", net_name c x "C").

(** The control inputs of a flip-flop. *)
Definition control_ports : list string := ["R"; "S"; "E"; "C"].

(** The type with the removed inputs edited out of its name, as
    [exec_convert] does. *)
Definition retype (conv : Z) (t : string) : string :=
  let t := if rm_rs_of conv then Py.replace "SS" "" (Py.replace "SR" "" t) else t in
  if rm_ena_of conv then Py.replace "E" "" t else t.

(** No flip-flop changes its type or the nets on its control inputs. *)
Definition keeps_wiring (c c' : Context) : Prop :=
  forall x, is_ff c x = true -> wiring c' x = wiring c x.

(** Rewiring port [p] of a cell: every cell keeps its type, and every
    port but [p] of that cell keeps its net. *)
Definition rewires (name p : string) (c c' : Context) : Prop :=
  (forall x, type_of c' x = type_of c x)
  /\ (forall x q, x <> name \/ q <> p -> net_name c' x q = net_name c x q).

(** Number of control sets of the index with [k] members. *)
Definition sets_of_size (m : CsetMap) (k : nat) : nat :=
  List.length (filter (fun e : ControlSet * list string => Nat.eqb (List.length (snd e)) k) m).

(** The buckets of the histogram of [stats] after the entries [p]. *)
Definition histogram (p : CsetMap) : list (nat * list (ControlSet * list string)) :=
  fold_left (fun csl e => csl_add (List.length (snd e)) e csl) p [].

(** The entries filed under size [k] in a histogram. *)
Fixpoint csl_find (k : nat) (csl : list (nat * list (ControlSet * list string)))
    : list (ControlSet * list string) :=
  match csl with
  | [] => []
  | (k', v) :: csl' => if Nat.eqb k k' then v else csl_find k csl'
  end.

(** The key by which [optimize] sorts the control sets. *)
Definition sort_key (k : ControlSet) : string * string * string :=
  (Py.or_empty (rs k), Py.or_empty (ena k), Py.or_empty (clk k)).

(** No net of the control set has the empty string as its name. *)
Definition named (k : ControlSet) : Prop :=
  rs k <> Some "" /\ ena k <> Some "" /\ clk k <> Some "".

(** The netlist [c'] lists the cells of [c] under the same names, in the
    same order and with the same types. *)
Definition same_cells (c c' : Context) : Prop :=
  map fst c' = map fst c /\ forall x, type_of c' x = type_of c x.

(** The netlist [c'] lists the cells of [c] in the same order, followed
    by the cells [added]; a cell of [c] has the type it had, edited by
    [retype] if it is one of [ex]. *)
Definition grows (conv : Z) (ex : list string) (c c' : Context) (added : list string) : Prop :=
  map fst c' = map fst c ++ added
  /\ forall x, In x (map fst c) ->
       exists k, type_of c' x = Nat.iter k (retype conv) (type_of c x)
                 /\ (~ In x ex -> k = 0).

(** The last part of the loop body of [exec_convert]: the nets of the
    removed inputs are wired to free inputs of the target lookup table
    and its truth table is rewritten. *)
Definition connect_target (c : Context) (cset : ControlSet) (conv : Z) (cell : string)
    (set_reset : bool) (tgt_lut : string) (free_ports : list string) : result Context :=
  '(c, free_ports, pn_rs) <-
    (if rm_rs_of conv then
       '(p_rs, pn_rs, free_ports) <- take_port free_ports ;;
       c <- disconnectPort c tgt_lut p_rs ;;
       net <- from_option TypeError (rs cset) ;;
       c <- connectPort c net tgt_lut p_rs ;;
       Ok (c, free_ports, Some pn_rs)
     else Ok (c, free_ports, None)) ;;
  '(c, pn_ena, pn_old) <-
    (if rm_ena_of conv then
       '(p_ena, pn_ena, free_ports) <- take_port free_ports ;;
       '(p_old, pn_old, free_ports) <- take_port free_ports ;;
       c <- disconnectPort c tgt_lut p_ena ;;
       c <- disconnectPort c tgt_lut p_old ;;
       net <- from_option TypeError (ena cset) ;;
       c <- connectPort c net tgt_lut p_ena ;;
       q <- port_net_of c cell "Q" ;;
       q_net <- from_option AttributeError q ;;
       c <- connectPort c q_net tgt_lut p_old ;;
       Ok (c, Some pn_ena, Some pn_old)
     else Ok (c, None, None)) ;;
  lut_init <- param_of c tgt_lut "LUT_INIT" ;;
  lut_init <- _update_lut_init lut_init pn_rs set_reset pn_ena pn_old ;;
  setParam c tgt_lut "LUT_INIT" lut_init.

(** Writing a port of a cell: the port is on [v] afterwards, every other
    port is on the net it was on and every parameter is as it was. *)
Definition writes_port (name p : string) (v : option string) (c c' : Context) : Prop :=
  net_name c' name p = v
  /\ (forall x q, x <> name \/ q <> p -> net_name c' x q = net_name c x q)
  /\ (forall x k, param_of c' x k = param_of c x k).

(** The netlist after the conversion of one flip-flop. *)
Definition converted_cell (c : Context) (cset : ControlSet) (conv : Z) (cell : string)
    : Context :=
  match convert_cell c cset conv cell with
  | Ok c' => c'
  | Raise _ => c
  end.

(** * Properties *)

(** ** The Python helpers on small inputs *)

Example replace_reset_variant :
  Py.replace "SS" "" (Py.replace "SR" "" "SB_DFFESR") = "SB_DFFE"
  /\ Py.replace "SS" "" (Py.replace "SR" "" "SB_DFFSS") = "SB_DFF".
Proof. split; reflexivity. Qed.

Example replace_enable_variant :
  Py.replace "E" "" "SB_DFFE" = "SB_DFF" /\ Py.replace "E" "" "SB_DFFNE" = "SB_DFFN".
Proof. split; reflexivity. Qed.

Example contains_set_variant :
  Py.contains "SS" "SB_DFFESS" = true /\ Py.contains "SS" "SB_DFFESR" = false.
Proof. split; reflexivity. Qed.

Example sorted_is_stable :
  Py.sorted (fun a b : nat * string => Nat.leb (fst a) (fst b))
            [(2, "a"); (1, "b"); (2, "c"); (1, "d")]
  = [(1, "b"); (1, "d"); (2, "a"); (2, "c")].
Proof. reflexivity. Qed.

Example pop_takes_last : Py.pop [1; 2; 3] = Some (3, [1; 2]).
Proof. reflexivity. Qed.

Example or_prefers_reset :
  Py.or_ (Some "r") (Some "s") = Some "r"
  /\ Py.or_ None (Some "s") = Some "s"
  /\ Py.or_ (Some "") None = None.
Proof. repeat split; reflexivity. Qed.

Example binary_string_round_trip :
  int_bits (bits_of_string "1111111100000000") = Ok 65280%Z
  /\ format_016b 65280 = bits_of_string "1111111100000000"
  /\ format_016b 5 = bits_of_string "0000000000000101".
Proof. repeat split; reflexivity. Qed.

Example take_port_takes_last :
  take_port ["I0"; "I1"; "I2"] = Ok ("I2", 2, ["I0"; "I1"]).
Proof. reflexivity. Qed.

(** ** Inversion of fallible computations *)

Lemma bind_Ok {A B : Type} (m : result A) (k : A -> result B) (b : B) :
  bind m k = Ok b -> exists a, m = Ok a /\ k a = Ok b.
Proof.
  destruct m as [a|e]; simpl; [|discriminate]. intros H. exists a. split; [reflexivity|assumption].
Qed.

Lemma from_option_Some {A : Type} (e : exn) (o : option A) (a : A) :
  from_option e o = Ok a -> o = Some a.
Proof. destruct o; simpl; congruence. Qed.

Tactic Notation "inv_bind" hyp(H) "as" simple_intropattern(a) ident(Ha) :=
  apply bind_Ok in H; destruct H as (a & Ha & H).

(** ** Truth-table rewrite *)

Lemma testbit_one_shl (i j : nat) :
  Z.testbit (Z.shiftl 1 (Z.of_nat i)) (Z.of_nat j) = Nat.eqb i j.
Proof.
  rewrite Z.shiftl_1_l, Z.pow2_bits_eqb by lia.
  destruct (Nat.eqb_spec i j) as [->|Hne].
  - apply Z.eqb_refl.
  - apply Z.eqb_neq. lia.
Qed.

Lemma bit_and_testbit (i p : nat) :
  bit_and (Z.of_nat i) p = input_bit i p.
Proof.
  unfold bit_and, input_bit.
  destruct (Z.testbit (Z.of_nat i) (Z.of_nat p)) eqn:Hb.
  - destruct (Z.eqb_spec (Z.land (Z.of_nat i) (Z.shiftl 1 (Z.of_nat p))) 0) as [H0|]; [|reflexivity].
    assert (Ht : Z.testbit (Z.land (Z.of_nat i) (Z.shiftl 1 (Z.of_nat p))) (Z.of_nat p) = true).
    { rewrite Z.land_spec, Hb, testbit_one_shl, Nat.eqb_refl. reflexivity. }
    rewrite H0, Z.bits_0 in Ht. discriminate.
  - replace (Z.land (Z.of_nat i) (Z.shiftl 1 (Z.of_nat p))) with 0%Z; [reflexivity|].
    symmetry. apply Z.bits_inj'. intros n Hn.
    rewrite Z.land_spec, Z.bits_0.
    rewrite <- (Z2Nat.id n Hn), testbit_one_shl.
    destruct (Nat.eqb_spec p (Z.to_nat n)) as [->|]; [|apply andb_false_r].
    rewrite Hb. reflexivity.
Qed.

Lemma set_or_clear_bit (val : Z) (i j : nat) (b : bool) :
  Z.testbit (set_or_clear val (Z.shiftl 1 (Z.of_nat i)) b) (Z.of_nat j)
  = if Nat.eqb i j then b else Z.testbit val (Z.of_nat j).
Proof.
  unfold set_or_clear. destruct b.
  - rewrite Z.lor_spec, testbit_one_shl.
    destruct (Nat.eqb i j); [apply orb_true_r | apply orb_false_r].
  - rewrite Z.land_spec, Z.lnot_spec, testbit_one_shl by lia.
    destruct (Nat.eqb i j); [apply andb_false_r | apply andb_true_r].
Qed.

(** One round of the loop rewrites output bit [i] and no other. *)
Lemma lut_step_bit pn_rs rs_val pn_ena po val i j :
  exists val',
    lut_step pn_rs rs_val pn_ena (Some po) val i = Ok val' /\
    Z.testbit val' (Z.of_nat j)
    = if Nat.eqb i j
      then edited_bit pn_rs rs_val pn_ena po i (Z.testbit val (Z.of_nat i))
      else Z.testbit val (Z.of_nat j).
Proof.
  unfold lut_step, edited_bit, bind, from_option.
  destruct pn_rs as [p|], pn_ena as [pe|];
    rewrite ?bit_and_testbit;
    repeat match goal with
           | |- context [input_bit i ?q] => destruct (input_bit i q)
           end;
    cbn [negb];
    (eexists; split; [reflexivity|]);
    rewrite ?set_or_clear_bit;
    destruct (Nat.eqb_spec i j) as [->|]; reflexivity.
Qed.

Lemma lut_step_nonneg pn_rs rs_val pn_ena pn_old val i val' :
  (0 <= val)%Z ->
  lut_step pn_rs rs_val pn_ena pn_old val i = Ok val' ->
  (0 <= val')%Z.
Proof.
  intros Hval.
  assert (Hs : forall v b, (0 <= v)%Z ->
                 (0 <= set_or_clear v (Z.shiftl 1 (Z.of_nat i)) b)%Z).
  { intros v b Hv. unfold set_or_clear. destruct b.
    - apply Z.lor_nonneg. split; [assumption|]. apply Z.shiftl_nonneg. lia.
    - apply Z.land_nonneg. left. assumption. }
  unfold lut_step, bind, from_option.
  destruct pn_rs as [p|], pn_ena as [pe|], pn_old as [po|];
    repeat match goal with
           | |- context [bit_and ?a ?q] => destruct (bit_and a q)
           end;
    cbn [negb];
    intros [= <-];
    repeat first [assumption | apply (Hs _ true) | apply (Hs _ false) | apply Hs].
Qed.

Lemma lut_loop_bit pn_rs rs_val pn_ena po idx :
  NoDup idx ->
  forall val j,
  exists val',
    lut_loop pn_rs rs_val pn_ena (Some po) val idx = Ok val' /\
    Z.testbit val' (Z.of_nat j)
    = if existsb (Nat.eqb j) idx
      then edited_bit pn_rs rs_val pn_ena po j (Z.testbit val (Z.of_nat j))
      else Z.testbit val (Z.of_nat j).
Proof.
  induction 1 as [|i idx Hi Hnd IH]; intros val j; simpl.
  - eexists. split; reflexivity.
  - destruct (lut_step_bit pn_rs rs_val pn_ena po val i j) as (v1 & Hstep & Hbit).
    rewrite Hstep. simpl.
    destruct (IH v1 j) as (v2 & Hloop & Hbit2).
    exists v2. split; [assumption|].
    rewrite Hbit2, Hbit, (Nat.eqb_sym j i).
    destruct (Nat.eqb_spec i j) as [->|Hne]; simpl; [|reflexivity].
    replace (existsb (Nat.eqb j) idx) with false; [reflexivity|].
    symmetry. apply not_true_is_false. intros Hex.
    apply existsb_exists in Hex. destruct Hex as (x & Hx & Hxj).
    apply Nat.eqb_eq in Hxj. subst. contradiction.
Qed.

Lemma lut_loop_nonneg pn_rs rs_val pn_ena pn_old idx :
  forall val val',
  (0 <= val)%Z ->
  lut_loop pn_rs rs_val pn_ena pn_old val idx = Ok val' ->
  (0 <= val')%Z.
Proof.
  induction idx as [|i idx IH]; simpl; intros val val' Hval H.
  - inversion H. subst. assumption.
  - destruct (lut_step pn_rs rs_val pn_ena pn_old val i) as [v1|] eqn:Hstep;
      simpl in H; [|discriminate].
    eapply IH; [|eassumption]. eapply lut_step_nonneg; eassumption.
Qed.

(** The value of a binary string has the digits of the string as bits. *)
Lemma int_bits_testbit (l : bits) (i : nat) :
  Z.testbit (fold_left (fun acc (b : bool) => 2 * acc + Z.b2z b)%Z l 0%Z) (Z.of_nat i)
  = table_bit l i.
Proof.
  unfold table_bit. revert i.
  induction l as [|b l IH] using rev_ind; intros i.
  - simpl. destruct i; reflexivity.
  - rewrite fold_left_app, rev_app_distr. cbn [fold_left rev app nth].
    destruct i as [|i].
    + apply Z.testbit_0_r.
    + rewrite Nat2Z.inj_succ, Z.testbit_succ_r by lia. apply IH.
Qed.

Lemma int_bits_nonneg (l : bits) :
  (0 <= fold_left (fun acc (b : bool) => 2 * acc + Z.b2z b)%Z l 0%Z)%Z.
Proof.
  assert (H : forall a, (0 <= a)%Z ->
            (0 <= fold_left (fun acc (b : bool) => 2 * acc + Z.b2z b)%Z l a)%Z).
  { induction l as [|b l IH]; cbn [fold_left]; intros a Ha; [assumption|].
    apply IH. destruct b; cbn [Z.b2z]; lia. }
  apply H. lia.
Qed.

Lemma format_016b_bit (val : Z) (i : nat) :
  i < 16 -> table_bit (format_016b val) i = Z.testbit val (Z.of_nat i).
Proof.
  intros Hi. unfold table_bit, format_016b.
  rewrite <- map_rev, rev_involutive.
  set (w := Nat.max 16 (Z.to_nat (Z.log2 val) + 1)).
  assert (Hw : i < w) by (unfold w; lia).
  rewrite (nth_indep _ false (Z.testbit val (Z.of_nat 0)))
    by (rewrite length_map, length_seq; assumption).
  rewrite (map_nth (fun k => Z.testbit val (Z.of_nat k))), seq_nth by assumption.
  reflexivity.
Qed.

(** The rewrite of a non-empty table succeeds and edits each of the
    sixteen output bits on its own. *)
Lemma update_lut_init_bits b tbl pn_rs rs_val pn_ena po :
  exists out,
    _update_lut_init (b :: tbl) pn_rs rs_val pn_ena (Some po) = Ok out /\
    forall i, i < 16 ->
      table_bit out i
      = edited_bit pn_rs rs_val pn_ena po i (table_bit (b :: tbl) i).
Proof.
  unfold _update_lut_init, int_bits.
  cbv beta iota delta [bind].
  set (v := fold_left _ (b :: tbl) 0%Z).
  assert (Hnd : NoDup (seq 0 16)) by apply seq_NoDup.
  destruct (lut_loop_bit pn_rs rs_val pn_ena po (seq 0 16) Hnd v 0) as (v' & Hloop & _).
  rewrite Hloop. eexists. split; [reflexivity|].
  intros i Hi. rewrite format_016b_bit by assumption.
  destruct (lut_loop_bit pn_rs rs_val pn_ena po (seq 0 16) Hnd v i) as (v2 & Hloop2 & Hbit).
  rewrite Hloop in Hloop2. inversion Hloop2; subst v2.
  rewrite Hbit.
  replace (existsb (Nat.eqb i) (seq 0 16)) with true.
  - unfold v. rewrite int_bits_testbit. reflexivity.
  - symmetry. apply existsb_exists. exists i. split; [|apply Nat.eqb_refl].
    apply in_seq. lia.
Qed.

Lemma Ok_inj {A : Type} (a b : A) : Ok a = Ok b -> a = b.
Proof. congruence. Qed.

(** A round that returns has left the other output bits alone, whatever
    the feedback position. *)
Lemma lut_step_frame pn_rs rs_val pn_ena pn_old val i val' j :
  lut_step pn_rs rs_val pn_ena pn_old val i = Ok val' ->
  i <> j ->
  Z.testbit val' (Z.of_nat j) = Z.testbit val (Z.of_nat j).
Proof.
  intros H Hij. apply Nat.eqb_neq in Hij.
  assert (Hsome : exists pe po, lut_step pn_rs rs_val pe (Some po) val i = Ok val').
  { destruct pn_old as [po|]; [exists pn_ena, po; assumption|].
    exists None, 0. revert H. unfold lut_step, bind, from_option.
    destruct pn_ena as [pe|]; [|trivial].
    destruct (negb (bit_and (Z.of_nat i) pe)); [discriminate|trivial]. }
  destruct Hsome as (pe & po & Hs).
  destruct (lut_step_bit pn_rs rs_val pe po val i j) as (v0 & Hv0 & Hbit).
  rewrite Hs in Hv0. apply Ok_inj in Hv0. subst v0.
  rewrite Hbit, Hij. reflexivity.
Qed.

Lemma lut_loop_frame pn_rs rs_val pn_ena pn_old idx j :
  ~ In j idx ->
  forall val val',
    lut_loop pn_rs rs_val pn_ena pn_old val idx = Ok val' ->
    Z.testbit val' (Z.of_nat j) = Z.testbit val (Z.of_nat j).
Proof.
  induction idx as [|i idx IH]; cbn [lut_loop]; intros Hj val val' H.
  - apply Ok_inj in H. subst. reflexivity.
  - inv_bind H as v1 Hstep.
    rewrite (IH (fun Hin => Hj (or_intror Hin)) _ _ H).
    eapply lut_step_frame; [eassumption|].
    intros ->. apply Hj. left. reflexivity.
Qed.

Lemma int_bits_bound (l : bits) :
  (fold_left (fun acc (b : bool) => 2 * acc + Z.b2z b)%Z l 0%Z
   < 2 ^ Z.of_nat (List.length l))%Z.
Proof.
  assert (H : forall a, (0 <= a)%Z ->
            (fold_left (fun acc (b : bool) => 2 * acc + Z.b2z b)%Z l a
             < (a + 1) * 2 ^ Z.of_nat (List.length l))%Z).
  { induction l as [|b l IH]; cbn [fold_left List.length]; intros a Ha.
    - rewrite Z.pow_0_r. lia.
    - rewrite Nat2Z.inj_succ, Z.pow_succ_r by lia.
      eapply Z.lt_le_trans; [apply IH; destruct b; cbn [Z.b2z]; lia|].
      assert (0 < 2 ^ Z.of_nat (List.length l))%Z by (apply Z.pow_pos_nonneg; lia).
      destruct b; cbn [Z.b2z]; nia. }
  specialize (H 0%Z ltac:(lia)). lia.
Qed.

Lemma format_016b_length (val : Z) :
  (0 <= val < 2 ^ 16)%Z -> List.length (format_016b val) = 16.
Proof.
  intros [H0 H1]. unfold format_016b. rewrite length_map, length_rev, length_seq.
  destruct (Z.eq_dec val 0) as [->|Hne]; [reflexivity|].
  assert (Z.log2 val < 16)%Z by (apply Z.log2_lt_pow2; lia).
  pose proof (Z.log2_nonneg val). lia.
Qed.

(** The rewrite of a table of at most sixteen digits returns a table of
    exactly sixteen digits. *)
Lemma update_lut_init_width tbl pn_rs rs_val pn_ena pn_old out :
  List.length tbl <= 16 ->
  _update_lut_init tbl pn_rs rs_val pn_ena pn_old = Ok out ->
  List.length out = 16.
Proof.
  intros Hlen H. unfold _update_lut_init in H.
  inv_bind H as v Hv. inv_bind H as v' Hloop. apply Ok_inj in H. subst out.
  unfold int_bits in Hv. destruct tbl as [|b tbl]; [discriminate|].
  apply Ok_inj in Hv.
  assert (Hv0 : (0 <= v)%Z) by (subst v; apply int_bits_nonneg).
  assert (Hv1 : (v < 2 ^ 16)%Z).
  { subst v. eapply Z.lt_le_trans; [apply int_bits_bound|].
    apply Z.pow_le_mono_r; lia. }
  assert (Hv'0 : (0 <= v')%Z) by (eapply lut_loop_nonneg; eassumption).
  apply format_016b_length. split; [assumption|].
  destruct (Z.eq_dec v' 0) as [->|Hne]; [lia|].
  apply Z.log2_lt_pow2; [lia|].
  destruct (Z.lt_ge_cases (Z.log2 v') 16) as [|Hge]; [assumption|exfalso].
  assert (Hbit : Z.testbit v' (Z.log2 v') = true) by (apply Z.bit_log2; lia).
  assert (Hout : ~ In (Z.to_nat (Z.log2 v')) (seq 0 16))
    by (intros Hin; apply in_seq in Hin; lia).
  rewrite <- (Z2Nat.id (Z.log2 v')) in Hbit by lia.
  rewrite (lut_loop_frame _ _ _ _ _ _ Hout _ _ Hloop) in Hbit.
  rewrite Z2Nat.id in Hbit by lia.
  destruct (Z.eq_dec v 0) as [Hz|Hnz].
  - rewrite Hz, Z.bits_0 in Hbit. discriminate.
  - rewrite Z.bits_above_log2 in Hbit; [discriminate|lia|].
    assert (Z.log2 v < 16)%Z by (apply Z.log2_lt_pow2; lia). lia.
Qed.

(** Without an enable edit the feedback position is never read. *)
Lemma lut_loop_no_enable pn_rs rs_val pn_old pn_old' idx :
  forall val,
    lut_loop pn_rs rs_val None pn_old val idx = lut_loop pn_rs rs_val None pn_old' val idx.
Proof.
  induction idx as [|i idx IH]; intros val; [reflexivity|].
  cbn [lut_loop]. unfold lut_step. cbn [bind]. apply IH.
Qed.

Lemma Forall_seq_lt (P : nat -> Prop) (n : nat) :
  (forall i, i < n -> P i) -> Forall P (seq 0 n).
Proof.
  intros H. apply Forall_forall. intros i Hi. apply in_seq in Hi. apply H. lia.
Qed.

(** C3: with a reset/set input allocated at bit position [p] and no
    enable edit, the rewrite of a table succeeds; for each of the sixteen
    input combinations [i], the output bit is the asserted level ([true]
    for set, [false] for reset) when bit [p] of [i] is set, whatever the
    other bits of [i], and is the original output bit when bit [p] is
    clear.  The table [1010101010101010] with reset semantics at
    position 0 becomes [0000000000000000]. *)
Theorem update_lut_init_reset_only :
  (forall (b : bool) (tbl : bits) (p : nat) (rs_val : bool),
      exists out,
        _update_lut_init (b :: tbl) (Some p) rs_val None None = Ok out /\
        Forall (fun i =>
                  table_bit out i
                  = if input_bit i p then rs_val else table_bit (b :: tbl) i)
               (seq 0 16))
  /\ _update_lut_init (bits_of_string "1010101010101010") (Some 0) false None None
     = Ok (bits_of_string "0000000000000000").
Proof.
  split; [|reflexivity].
  intros b tbl p rs_val.
  destruct (update_lut_init_bits b tbl (Some p) rs_val None 0) as (out & Hout & Hbits).
  exists out. split.
  - rewrite <- Hout. unfold _update_lut_init.
    destruct (int_bits (b :: tbl)) as [v|]; [|reflexivity].
    cbn [bind]. rewrite (lut_loop_no_enable (Some p) rs_val None (Some 0)). reflexivity.
  - apply Forall_seq_lt. intros i Hi. rewrite (Hbits i Hi). reflexivity.
Qed.

(** C4: with an enable input allocated at bit position [pe] and the
    self-feedback at [po], for every input combination [i] with bit [pe]
    clear the output bit is bit [po] of [i]; with bit [pe] set it is what
    the reset/set edit (if any) left: the asserted level when a reset/set
    input is allocated at [p] and bit [p] of [i] is set, the original
    output bit otherwise.  The enable edit comes after the reset/set
    edit, so where bit [p] is set and bit [pe] is clear the output bit is
    bit [po] of [i]. *)
Theorem update_lut_init_enable_hold :
  forall (b : bool) (tbl : bits) (pn_rs : option nat) (rs_val : bool) (pe po : nat),
    exists out,
      _update_lut_init (b :: tbl) pn_rs rs_val (Some pe) (Some po) = Ok out /\
      Forall (fun i =>
                table_bit out i
                = if input_bit i pe
                  then match pn_rs with
                       | Some p => if input_bit i p then rs_val else table_bit (b :: tbl) i
                       | None => table_bit (b :: tbl) i
                       end
                  else input_bit i po)
             (seq 0 16).
Proof.
  intros b tbl pn_rs rs_val pe po.
  destruct (update_lut_init_bits b tbl pn_rs rs_val (Some pe) po) as (out & Hout & Hbits).
  exists out. split; [assumption|].
  apply Forall_seq_lt. intros i Hi. rewrite (Hbits i Hi). reflexivity.
Qed.

(** ** Legality model *)

Lemma existsb_false_iff {A : Type} (f : A -> bool) (l : list A) :
  existsb f l = false <-> forall x, In x l -> f x = false.
Proof.
  induction l as [|a l IH]; simpl.
  - split; [intros _ x []|reflexivity].
  - rewrite orb_false_iff, IH. split.
    + intros [Ha Hl] x [<-|Hx]; auto.
    + intros H. split; [apply H; left; reflexivity|intros x Hx; apply H; right; assumption].
Qed.

(** C5: legality of the three removal options.  For a control set with
    an enable net and a reset/set net and no member of an asynchronous
    type, enable-only removal (2) is rejected, reset-only (1) and both
    (3) are accepted.  With a member of type SB_DFFR, SB_DFFS, SB_DFFER
    or SB_DFFES, reset-only and both are rejected.  Any removal that
    includes reset/set is rejected without a reset/set net, any removal
    that includes enable is rejected without an enable net. *)
Theorem can_convert_legality (self : Optimizer) (cset : ControlSet) (cells : list string) :
  cs_lookup cset (cset_map self) = Some cells ->
  (rs cset <> None -> ena cset <> None ->
   (forall c, In c cells -> is_async (ctx self) c = false) ->
   can_convert self cset 2 = Ok false /\
   can_convert self cset 1 = Ok true /\
   can_convert self cset 3 = Ok true)
  /\ ((exists c, In c cells /\ is_async (ctx self) c = true) ->
      can_convert self cset 1 = Ok false /\
      can_convert self cset 3 = Ok false)
  /\ (rs cset = None ->
      forall conv, rm_rs_of conv = true -> can_convert self cset conv = Ok false)
  /\ (ena cset = None ->
      forall conv, rm_ena_of conv = true -> can_convert self cset conv = Ok false).
Proof.
  intros Hget. unfold can_convert, cs_get. rewrite Hget. cbn [from_option bind].
  split; [|split; [|split]].
  - intros Hrs Hena Hsync.
    destruct (rs cset); [|congruence]. destruct (ena cset); [|congruence].
    apply existsb_false_iff in Hsync. unfold is_async in Hsync. rewrite Hsync.
    repeat split; reflexivity.
  - intros (c & Hc & Ha).
    destruct (rs cset); [|split; reflexivity].
    replace (existsb _ cells) with true; [split; reflexivity|].
    symmetry. apply existsb_exists. exists c. split; assumption.
  - intros Hrs conv Hrm. rewrite Hrs, Hrm. reflexivity.
  - intros Hena conv Hrm. rewrite Hena, Hrm.
    destruct (rs cset); cbn [bind];
      destruct (rm_rs_of conv); try reflexivity;
      destruct (negb _); reflexivity.
Qed.

(** ** The equivalence index *)

Lemma opt_eqb_eq (a b : option string) : opt_eqb a b = true <-> a = b.
Proof.
  destruct a as [x|], b as [y|]; simpl; try (split; congruence).
  rewrite String.eqb_eq. split; congruence.
Qed.

Lemma cset_eqb_eq (a b : ControlSet) : cset_eqb a b = true <-> a = b.
Proof.
  unfold cset_eqb. rewrite !andb_true_iff, !opt_eqb_eq.
  destruct a, b; simpl. split.
  - intros [[-> ->] ->]. reflexivity.
  - intros [= -> -> ->]. auto.
Qed.

Lemma cset_eqb_refl (a : ControlSet) : cset_eqb a a = true.
Proof. apply cset_eqb_eq. reflexivity. Qed.

Lemma cset_eqb_neq (a b : ControlSet) : cset_eqb a b = false <-> a <> b.
Proof.
  rewrite <- cset_eqb_eq. destruct (cset_eqb a b); split; congruence.
Qed.

Lemma cell_count_all_cells (m : CsetMap) : cell_count m = List.length (all_cells m).
Proof.
  unfold cell_count, all_cells.
  induction m as [|[k v] m IH]; simpl; [reflexivity|].
  rewrite length_app, IH. reflexivity.
Qed.

Lemma cs_remove_perm (k : ControlSet) (m : CsetMap) (cells : list string) :
  cs_lookup k m = Some cells ->
  Permutation (all_cells m) (cells ++ all_cells (cs_remove k m)).
Proof.
  unfold all_cells.
  induction m as [|[k' v] m IH]; simpl; [discriminate|].
  destruct (cset_eqb k k').
  - intros [= ->]. reflexivity.
  - intros H. simpl. rewrite (IH H).
    rewrite !app_assoc. apply Permutation_app_tail, Permutation_app_comm.
Qed.

Lemma cs_extend_perm (k : ControlSet) (cells : list string) (m : CsetMap) :
  Permutation (all_cells (cs_extend k cells m)) (all_cells m ++ cells).
Proof.
  unfold all_cells.
  induction m as [|[k' v] m IH]; simpl.
  - rewrite app_nil_r. reflexivity.
  - destruct (cset_eqb k k'); simpl.
    + rewrite <- !app_assoc. apply Permutation_app_head, Permutation_app_comm.
    + rewrite IH, app_assoc. reflexivity.
Qed.

(** Popping a bucket and filing its cells under another key relocates
    the cells and nothing else. *)
Lemma relocate_perm (k tgt : ControlSet) (m m' : CsetMap) (cells : list string) :
  cs_pop k m = Ok (cells, m') ->
  Permutation (all_cells (cs_extend tgt cells m')) (all_cells m).
Proof.
  unfold cs_pop, cs_get. destruct (cs_lookup k m) as [l|] eqn:Hl; simpl; [|discriminate].
  intros [= <- <-]. rewrite cs_extend_perm, (cs_remove_perm k m l Hl).
  apply Permutation_app_comm.
Qed.

Lemma cs_lookup_remove_other (k k' : ControlSet) (m : CsetMap) :
  k <> k' -> cs_lookup k (cs_remove k' m) = cs_lookup k m.
Proof.
  intros Hne. induction m as [|[k0 v] m IH]; simpl; [reflexivity|].
  destruct (cset_eqb k' k0) eqn:E'.
  - apply cset_eqb_eq in E'. subst k0.
    apply cset_eqb_neq in Hne. rewrite Hne. reflexivity.
  - simpl. rewrite IH. reflexivity.
Qed.

Lemma cs_lookup_extend_other (k tgt : ControlSet) (cells : list string) (m : CsetMap) :
  k <> tgt -> cs_lookup k (cs_extend tgt cells m) = cs_lookup k m.
Proof.
  intros Hne. apply cset_eqb_neq in Hne.
  induction m as [|[k0 v] m IH]; simpl.
  - rewrite Hne. reflexivity.
  - destruct (cset_eqb tgt k0) eqn:E; simpl.
    + apply cset_eqb_eq in E. subst k0. rewrite Hne. reflexivity.
    + rewrite IH. reflexivity.
Qed.

Lemma cs_lookup_extend_same (k : ControlSet) (cells v : list string) (m : CsetMap) :
  cs_lookup k m = Some v -> cs_lookup k (cs_extend k cells m) = Some (v ++ cells).
Proof.
  induction m as [|[k0 v0] m IH]; simpl; [discriminate|].
  destruct (cset_eqb k k0) eqn:E; simpl; rewrite E.
  - intros [= ->]. reflexivity.
  - assumption.
Qed.

(** A conversion rewrites the netlist and leaves the index alone. *)
Lemma exec_convert_frame (self self' : Optimizer) (cset : ControlSet) (conv : Z) :
  exec_convert self cset conv = Ok self' ->
  cset_map self' = cset_map self /\ global_nets self' = global_nets self.
Proof.
  unfold exec_convert. intros H. inv_bind H as cells Hcells. inv_bind H as c Hc.
  injection H as <-. split; reflexivity.
Qed.

(** ** The merge search: structure of a run *)

Lemma insert_sorted_perm {A : Type} (le : A -> A -> bool) (x : A) (l : list A) :
  Permutation (Py.insert_sorted le x l) (x :: l).
Proof.
  induction l as [|y l IH]; simpl; [reflexivity|].
  destruct (le y x); [|reflexivity].
  rewrite IH. apply perm_swap.
Qed.

Lemma sorted_perm {A : Type} (le : A -> A -> bool) (l : list A) :
  Permutation (Py.sorted le l) l.
Proof.
  unfold Py.sorted.
  assert (H : forall acc, Permutation (fold_left (fun acc x => Py.insert_sorted le x acc) l acc)
                                       (acc ++ l)).
  { induction l as [|x l IH]; intros acc; simpl.
    - rewrite app_nil_r. reflexivity.
    - rewrite IH, insert_sorted_perm. apply Permutation_middle. }
  apply (H []).
Qed.

Lemma pop_length {A : Type} (l : list A) (x : A) (r : list A) :
  Py.pop l = Some (x, r) -> List.length l = S (List.length r).
Proof.
  revert x r. induction l as [|y l IH]; simpl; intros x r; [discriminate|].
  destruct (Py.pop l) as [[z r']|] eqn:E.
  - intros [= <- <-]. simpl. f_equal. eapply IH. reflexivity.
  - intros [= <- <-]. destruct l; [reflexivity|].
    simpl in E. destruct (Py.pop l) as [[? ?]|]; discriminate.
Qed.

Lemma remove_first_length {A : Type} (eqb : A -> A -> bool) (x : A) (l : list A) :
  List.length (Py.remove_first eqb x l) <= List.length l.
Proof.
  induction l as [|y l IH]; simpl; [lia|]. destruct (eqb x y); simpl; lia.
Qed.

Lemma cs_get_Ok (m : CsetMap) (k : ControlSet) (l : list string) :
  cs_get m k = Ok l <-> cs_lookup k m = Some l.
Proof.
  unfold cs_get. destruct (cs_lookup k m); simpl; split; congruence.
Qed.

Lemma scan_alts_below self threshold conv tgt todo :
  forall n g n' g',
    Forall (below (cset_map self) threshold) g ->
    scan_alts self threshold conv tgt todo n g = Ok (n', g') ->
    Forall (below (cset_map self) threshold) g'.
Proof.
  induction todo as [|alt todo IH]; simpl; intros n g n' g' Hg H.
  - injection H as <- <-. assumption.
  - inv_bind H as alt_cells Halt. apply cs_get_Ok in Halt.
    destruct (threshold <=? Z.of_nat (List.length alt_cells))%Z eqn:Hth; [eauto|].
    inv_bind H as ok Hok.
    destruct (negb ok); [eauto|].
    destruct (cset_eqb tgt (target_of conv alt)); [|eauto].
    eapply IH; [|eassumption].
    apply Forall_app. split; [assumption|].
    constructor; [|constructor].
    exists alt_cells. split; [assumption|]. apply Z.leb_gt in Hth. assumption.
Qed.

Lemma project_below self threshold todo cset cells conv n g :
  cs_lookup cset (cset_map self) = Some cells ->
  (Z.of_nat (List.length cells) < threshold)%Z ->
  project self threshold todo cset cells conv = Ok (n, g) ->
  Forall (below (cset_map self) threshold) g.
Proof.
  intros Hget Hlt. unfold project.
  assert (H0 : Forall (below (cset_map self) threshold) [cset]).
  { constructor; [|constructor]. exists cells. split; assumption. }
  destruct (Py.truthy _ || Py.truthy _).
  - apply scan_alts_below. assumption.
  - intros [= <- <-]. assumption.
Qed.

Lemma candidates_below self threshold todo cset cells convs :
  cs_lookup cset (cset_map self) = Some cells ->
  (Z.of_nat (List.length cells) < threshold)%Z ->
  forall cands,
    candidates self threshold todo cset cells convs = Ok cands ->
    Forall (fun c => Forall (below (cset_map self) threshold) (cand_csets c)) cands.
Proof.
  intros Hget Hlt.
  induction convs as [|conv convs IH]; simpl; intros cands H.
  - injection H as <-. constructor.
  - inv_bind H as o Ho. inv_bind H as r Hr. injection H as <-.
    specialize (IH _ Hr).
    destruct o as [c|]; [|assumption].
    constructor; [|assumption].
    unfold evaluate in Ho. inv_bind Ho as ok Hok.
    destruct (negb ok); [discriminate|].
    inv_bind Ho as [n g] Hproj.
    destruct (Z.of_nat n <? threshold)%Z; [discriminate|].
    inv_bind Ho as cost Hcost. injection Ho as <-. simpl.
    eapply project_below; eassumption.
Qed.

(** What applying a group does to the index and to the work list. *)
Lemma apply_group_spec tgt conv group :
  forall self todo self' todo',
    apply_group self todo tgt conv group = Ok (self', todo') ->
    Permutation (all_cells (cset_map self')) (all_cells (cset_map self))
    /\ List.length todo' <= List.length todo
    /\ global_nets self' = global_nets self
    /\ forall k v, ~ In k group -> cs_lookup k (cset_map self) = Some v ->
         exists extra, cs_lookup k (cset_map self') = Some (v ++ extra).
Proof.
  induction group as [|cur group IH]; simpl; intros self todo self' todo' H.
  - injection H as <- <-. repeat split; auto.
    intros k v _ Hk. exists []. rewrite app_nil_r. assumption.
  - inv_bind H as self1 Hexec. apply exec_convert_frame in Hexec.
    destruct Hexec as [Hmap Hglob].
    inv_bind H as [cells_cur m] Hpop.
    apply IH in H. cbn [with_map cset_map global_nets] in H.
    destruct H as (Hperm & Hlen & Hg & Hlook).
    pose proof (relocate_perm cur tgt _ _ _ Hpop) as Hrel.
    rewrite Hmap in *.
    repeat split.
    + rewrite Hperm. assumption.
    + destruct (existsb (cset_eqb cur) todo);
        [pose proof (remove_first_length cset_eqb cur todo)|]; lia.
    + congruence.
    + intros k v Hnin Hk.
      assert (Hcur : k <> cur) by (intros ->; apply Hnin; left; reflexivity).
      assert (Hrest : ~ In k group) by (intros Hin; apply Hnin; right; assumption).
      unfold cs_pop in Hpop. inv_bind Hpop as cs Hcs. injection Hpop as <- <-.
      destruct (cset_eqb k tgt) eqn:Et.
      * apply cset_eqb_eq in Et. subst tgt.
        destruct (Hlook k (v ++ cs) Hrest) as (extra & Hex).
        { apply cs_lookup_extend_same. rewrite cs_lookup_remove_other; assumption. }
        exists (cs ++ extra). rewrite app_assoc. assumption.
      * apply cset_eqb_neq in Et.
        apply (Hlook k v Hrest).
        rewrite cs_lookup_extend_other, cs_lookup_remove_other; assumption.
Qed.

Lemma hd_error_In {A : Type} (l : list A) (x : A) : hd_error l = Some x -> In x l.
Proof. destruct l; simpl; [discriminate|]. intros [= ->]. left. reflexivity. Qed.

(** What one round of the loop does: either the index is left as it is,
    or the group of a candidate, all of whose control sets are below the
    threshold, is applied. *)
Lemma step_cases threshold debug st cset rest st' :
  step threshold debug st cset rest = Ok st' ->
  (run_self st' = run_self st /\ to_process st' = rest)
  \/ exists tgt conv group todo',
       Forall (below (cset_map (run_self st)) threshold) group /\
       apply_group (run_self st) rest tgt conv group = Ok (run_self st', todo') /\
       to_process st' = todo'.
Proof.
  unfold step. intros H. inv_bind H as cells Hcells. apply cs_get_Ok in Hcells.
  destruct (threshold <=? Z.of_nat (List.length cells))%Z eqn:Hth.
  { injection H as <-. left. split; reflexivity. }
  apply Z.leb_gt in Hth.
  inv_bind H as cands Hcands.
  pose proof (candidates_below _ _ _ _ _ _ Hcells Hth _ Hcands) as Hbelow.
  destruct cands as [|c0 cands'] eqn:Ec.
  { injection H as <-. left. split; reflexivity. }
  rewrite <- Ec in *. clear Ec.
  inv_bind H as dbg Hdbg. inv_bind H as best Hbest. inv_bind H as [self' todo'] Happ.
  injection H as <-. right.
  exists (cand_tgt best), (cand_conv best), (cand_csets best), todo'.
  repeat split; try assumption.
  apply from_option_Some in Hbest. apply hd_error_In in Hbest.
  eapply Permutation_in in Hbest; [|apply sorted_perm].
  rewrite Forall_forall in Hbelow. apply Hbelow. assumption.
Qed.

Lemma step_spec threshold debug st cset rest st' :
  step threshold debug st cset rest = Ok st' ->
  Permutation (all_cells (cset_map (run_self st'))) (all_cells (cset_map (run_self st)))
  /\ List.length (to_process st') <= List.length rest
  /\ global_nets (run_self st') = global_nets (run_self st)
  /\ forall k v, cs_lookup k (cset_map (run_self st)) = Some v ->
       (threshold <= Z.of_nat (List.length v))%Z ->
       exists extra, cs_lookup k (cset_map (run_self st')) = Some (v ++ extra).
Proof.
  intros H. apply step_cases in H.
  destruct H as [[Hself Htodo]|(tgt & conv & group & todo' & Hbelow & Happ & Htodo)].
  - rewrite Hself, Htodo. repeat split; auto.
    intros k v Hk _. exists []. rewrite app_nil_r. assumption.
  - apply apply_group_spec in Happ. destruct Happ as (Hperm & Hlen & Hg & Hlook).
    subst todo'. repeat split; try assumption.
    intros k v Hk Hth. apply Hlook; [|assumption].
    intros Hin. rewrite Forall_forall in Hbelow.
    destruct (Hbelow k Hin) as (l & Hl & Hlt).
    rewrite Hk in Hl. injection Hl as <-. lia.
Qed.

(** Invariants of the loop of [optimize]. *)
Lemma optimize_loop_inv (P : Run -> Prop) threshold debug :
  (forall st cset rest st',
      P st -> Py.pop (to_process st) = Some (cset, rest) ->
      step threshold debug st cset rest = Ok st' -> P st') ->
  forall fuel st res,
    P st -> optimize_loop fuel threshold debug st = Some (Ok res) -> P res.
Proof.
  intros Hstep. induction fuel as [|fuel IH]; intros st res HP H; simpl in H.
  - destruct (Py.pop (to_process st)) as [[cset rest]|]; [discriminate|].
    injection H as <-. assumption.
  - destruct (Py.pop (to_process st)) as [[cset rest]|] eqn:Hpop.
    + destruct (step threshold debug st cset rest) as [st'|e] eqn:Hs; [|discriminate].
      eapply IH; [|eassumption]. eapply Hstep; eassumption.
    + injection H as <-. assumption.
Qed.

(** The loop ends within as many rounds as the work list is long. *)
Lemma optimize_loop_terminates threshold debug :
  forall fuel st,
    List.length (to_process st) <= fuel ->
    exists r, optimize_loop fuel threshold debug st = Some r.
Proof.
  induction fuel as [|fuel IH]; intros st Hlen; simpl.
  - destruct (Py.pop (to_process st)) as [[cset rest]|] eqn:Hpop; [|eauto].
    apply pop_length in Hpop. lia.
  - destruct (Py.pop (to_process st)) as [[cset rest]|] eqn:Hpop; [|eauto].
    apply pop_length in Hpop.
    destruct (step threshold debug st cset rest) as [st'|e] eqn:Hs; [|eauto].
    apply IH. apply step_spec in Hs. lia.
Qed.

(** [optimize] always returns or raises. *)
Lemma optimize_terminates (self : Optimizer) (threshold : Z) (debug : bool) :
  exists r, optimize self threshold debug = Some r.
Proof.
  unfold optimize.
  destruct (optimize_loop_terminates threshold debug
              (List.length (Py.sorted cset_le (cs_keys (cset_map self))))
              (mkRun self (Py.sorted cset_le (cs_keys (cset_map self))) 0 []))
    as ([st|e] & Hr); [apply Nat.le_refl| |]; rewrite Hr; eauto.
Qed.

Lemma optimize_Ok (self self' : Optimizer) (threshold : Z) (debug : bool) (out : list line) :
  optimize self threshold debug = Some (Ok (self', out)) ->
  exists fuel todo st,
    optimize_loop fuel threshold debug (mkRun self todo 0 []) = Some (Ok st)
    /\ run_self st = self'.
Proof.
  unfold optimize. intros H.
  destruct (optimize_loop _ _ _ _) as [[st|e]|] eqn:Hl; try discriminate.
  injection H as <- <-. eauto.
Qed.

(** C8: a run that returns has only relocated flip-flops between
    buckets: the cells of the index after the run are the cells before
    the run, each as often as before, so the sum of the member counts is
    the same; and so it is for every single relocation, which pops a
    source bucket and extends the target bucket with its cells. *)
Theorem optimize_conserves_cells :
  (forall (self self' : Optimizer) (threshold : Z) (debug : bool) (out : list line),
      optimize self threshold debug = Some (Ok (self', out)) ->
      Permutation (all_cells (cset_map self')) (all_cells (cset_map self))
      /\ cell_count (cset_map self') = cell_count (cset_map self))
  /\ (forall (src tgt : ControlSet) (m m' : CsetMap) (cells : list string),
         cs_pop src m = Ok (cells, m') ->
         Permutation (all_cells (cs_extend tgt cells m')) (all_cells m)
         /\ cell_count (cs_extend tgt cells m') = cell_count m).
Proof.
  split.
  - intros self self' threshold debug out H.
    apply optimize_Ok in H. destruct H as (fuel & todo & st & Hloop & <-).
    assert (Hperm : Permutation (all_cells (cset_map (run_self st))) (all_cells (cset_map self))).
    { apply (optimize_loop_inv
               (fun st => Permutation (all_cells (cset_map (run_self st)))
                                      (all_cells (cset_map self)))
               threshold debug) with (3 := Hloop); [|reflexivity].
      intros st0 cset rest st1 HP _ Hs. apply step_spec in Hs.
      destruct Hs as (Hp & _). rewrite Hp. assumption. }
    split; [assumption|].
    rewrite !cell_count_all_cells. apply Permutation_length. assumption.
  - intros src tgt m m' cells H.
    pose proof (relocate_perm _ tgt _ _ _ H) as Hp.
    split; [assumption|].
    rewrite !cell_count_all_cells. apply Permutation_length. assumption.
Qed.

(** C2 (amended): a control set that has at least [threshold] members
    when the run starts is never converted or removed: after a run that
    returns its key is still in the index and its member list starts
    with the members it had, in their order; cells of sets merged into
    it come after them. *)
Theorem well_used_set_keeps_members
    (self self' : Optimizer) (threshold : Z) (debug : bool) (out : list line)
    (cset : ControlSet) (cells : list string) :
  optimize self threshold debug = Some (Ok (self', out)) ->
  cs_lookup cset (cset_map self) = Some cells ->
  (threshold <= Z.of_nat (List.length cells))%Z ->
  exists merged, cs_lookup cset (cset_map self') = Some (cells ++ merged).
Proof.
  intros H Hget Hth.
  apply optimize_Ok in H. destruct H as (fuel & todo & st & Hloop & <-).
  apply (optimize_loop_inv
           (fun st => exists merged,
                cs_lookup cset (cset_map (run_self st)) = Some (cells ++ merged))
           threshold debug) with (3 := Hloop).
  - intros st0 cs rest st1 (merged & Hm) _ Hs. apply step_spec in Hs.
    destruct Hs as (_ & _ & _ & Hlook).
    destruct (Hlook cset _ Hm) as (extra & Hex).
    + rewrite length_app. lia.
    + exists (merged ++ extra). rewrite app_assoc. assumption.
  - exists []. rewrite app_nil_r. assumption.
Qed.

(** ** Cost model *)

Lemma port_net_of_Ok (c : Context) (cell p : string) (n : option string) :
  port_net_of c cell p = Ok n -> net_name c cell p = n.
Proof.
  unfold port_net_of, net_name.
  destruct (assoc p (cell_ports (cell_of c cell))); simpl; congruence.
Qed.

Lemma unused_port_free (c : Context) (lut p : string) (b : bool) :
  _unused_port c lut p = Ok b -> free_input c lut p = b.
Proof.
  unfold _unused_port, free_input. intros H.
  inv_bind H as n Hn. rewrite (port_net_of_Ok _ _ _ _ Hn).
  destruct n as [n|]; [|congruence].
  unfold driver_cell in H. inv_bind H as d Hd. inv_bind Hd as r Hr.
  apply from_option_Some in Hr. rewrite Hr. injection Hd as <-.
  destruct (type_of c (ref_cell r) =? "GND"); congruence.
Qed.

Lemma unused_among_filter (c : Context) (lut : string) (ps l : list string) :
  unused_among c lut ps = Ok l -> l = filter (free_input c lut) ps.
Proof.
  revert l. induction ps as [|p ps IH]; simpl; intros l H.
  - congruence.
  - inv_bind H as u Hu. inv_bind H as r Hr. injection H as <-.
    rewrite (unused_port_free _ _ _ _ Hu), (IH _ Hr). reflexivity.
Qed.

Lemma net_name_simplify_Ok (c : Context) (net s : option string) :
  _net_name_simplify c net = Ok s -> simplified c net = s.
Proof.
  unfold _net_name_simplify, simplified. destruct net as [n|]; [|congruence].
  intros H. unfold driver_cell in H. inv_bind H as d Hd. inv_bind Hd as r Hr.
  apply from_option_Some in Hr. rewrite Hr. injection Hd as <-.
  cbv zeta. destruct (Py.mem _ _); congruence.
Qed.

Lemma carry_scan_matched (c : Context) (lut : string) (us : list PortRef) (b : bool) :
  carry_scan c (simplified c (net_name c lut "I1")) (simplified c (net_name c lut "I2")) us
  = Ok b ->
  existsb (matched_carry c lut) us = b.
Proof.
  induction us as [|u us IH]; cbn [carry_scan existsb]; [congruence|].
  unfold matched_carry at 1.
  destruct (type_of c (ref_cell u) =? "SB_CARRY"); cbn [negb andb orb]; [|exact IH].
  intros H. inv_bind H as i0 Hi0. apply port_net_of_Ok in Hi0.
  inv_bind H as s0 Hs0. apply net_name_simplify_Ok in Hs0. rewrite Hi0, Hs0.
  destruct (opt_eqb s0 _); cbn [negb andb orb] in *; [|apply IH; assumption].
  inv_bind H as i1 Hi1. apply port_net_of_Ok in Hi1.
  inv_bind H as s1 Hs1. apply net_name_simplify_Ok in Hs1. rewrite Hi1, Hs1.
  destruct (opt_eqb s1 _); cbn [negb andb orb] in *; [|apply IH; assumption].
  congruence.
Qed.

Lemma cell_has_carry_Ok (c : Context) (lut : string) (b : bool) :
  _cell_has_carry c lut = Ok b -> has_carry c lut = b.
Proof.
  unfold _cell_has_carry, has_carry. intros H.
  inv_bind H as n1 Hn1. apply port_net_of_Ok in Hn1.
  inv_bind H as n2 Hn2. apply port_net_of_Ok in Hn2.
  inv_bind H as nn1 Hnn1. apply net_name_simplify_Ok in Hnn1.
  inv_bind H as nn2 Hnn2. apply net_name_simplify_Ok in Hnn2.
  subst n1 n2 nn1 nn2. apply carry_scan_matched. assumption.
Qed.

Lemma lut_free_ports_count (c : Context) (lut : string) (fp : list string) :
  _lut_free_ports c lut = Ok fp -> List.length fp = free_count c lut.
Proof.
  unfold _lut_free_ports, free_count. intros H.
  inv_bind H as l0 Hl0. apply unused_among_filter in Hl0.
  inv_bind H as carry Hcarry. rewrite (cell_has_carry_Ok _ _ _ Hcarry). subst l0.
  cbn [filter] in *.
  destruct carry; injection H as <-;
    destruct (free_input c lut "I0"), (free_input c lut "I1"),
             (free_input c lut "I2"), (free_input c lut "I3"); reflexivity.
Qed.

Lemma cost_cell_charged (c : Context) (n_in : nat) (cell : string) (k : nat) :
  feeds_from_output c cell ->
  cost_cell c n_in cell = Ok k ->
  k = Nat.b2n (charged c n_in cell).
Proof.
  unfold cost_cell, charged. intros Hwf H.
  inv_bind H as d Hd. rewrite Hd.
  destruct (type_of c d =? "SB_LUT4") eqn:Ht; cbn [negb andb] in *;
    [|injection H as <-; reflexivity].
  apply String.eqb_eq in Ht.
  inv_bind H as fo Hfo. unfold fanout in Hfo. inv_bind Hfo as o Ho.
  apply port_net_of_Ok in Ho. inv_bind Hfo as n Hn. apply from_option_Some in Hn.
  rewrite Hn in Ho. clear Hn o. injection Hfo as <-.
  unfold consumers. rewrite Ho.
  pose proof (Hwf d n Hd Ht Ho) as Hin.
  assert (Hpos : 1 <= List.length (users c n)).
  { destruct (users c n); [contradiction|simpl; lia]. }
  destruct (Nat.ltb_spec 1 (List.length (users c n))) as [Hgt|Hle].
  - injection H as <-.
    replace (Nat.eqb (List.length (users c n)) 1) with false; [reflexivity|].
    symmetry. apply Nat.eqb_neq. lia.
  - replace (Nat.eqb (List.length (users c n)) 1) with true
      by (symmetry; apply Nat.eqb_eq; lia).
    inv_bind H as fp Hfp. rewrite <- (lut_free_ports_count _ _ _ Hfp).
    cbn [andb]. destruct (Nat.ltb (List.length fp) n_in); injection H as <-; reflexivity.
Qed.

Lemma cost_cells_count (c : Context) (n_in : nat) (cells : list string) :
  (forall cell, In cell cells -> feeds_from_output c cell) ->
  forall acc n,
    cost_cells c n_in cells acc = Ok n ->
    n = acc + List.length (filter (charged c n_in) cells).
Proof.
  induction cells as [|cell cells IH]; simpl; intros Hwf acc n H.
  - injection H as <-. lia.
  - inv_bind H as k Hk.
    apply cost_cell_charged in Hk; [|apply Hwf; left; reflexivity].
    apply IH in H; [|intros x Hx; apply Hwf; right; assumption].
    subst k n. destruct (charged c n_in cell); simpl; lia.
Qed.

Lemma cost_cells_free (c : Context) (n_in : nat) (cells : list string) :
  (forall cell, In cell cells ->
     exists d, d_driver c cell = Ok d /\ type_of c d <> "SB_LUT4") ->
  forall acc, cost_cells c n_in cells acc = Ok acc.
Proof.
  induction cells as [|cell cells IH]; simpl; intros H acc; [reflexivity|].
  destruct (H cell (or_introl eq_refl)) as (d & Hd & Ht).
  unfold cost_cell. rewrite Hd. cbn [bind].
  apply String.eqb_neq in Ht. rewrite Ht. cbn [negb bind].
  rewrite Nat.add_0_r. apply IH. intros x Hx. apply H. right. assumption.
Qed.

(** C6: the required spare inputs are 1 for reset-only, 2 for
    enable-only and 3 for both removals.  In a netlist where a flip-flop
    fed by a lookup table is a consumer of that table's output, the cost
    returned for a control set is the number of members whose data
    driver is a lookup table with exactly one consumer and with fewer
    free inputs than required; the other members contribute nothing.  A
    control set whose every member has a data driver that is not a lookup
    table costs 0 for any removal. *)
Theorem cost_convert_counts (self : Optimizer) (cset : ControlSet) (cells : list string) :
  cs_lookup cset (cset_map self) = Some cells ->
  (n_in_of 1 = 1 /\ n_in_of 2 = 2 /\ n_in_of 3 = 3)
  /\ (forall conv n,
         (forall cell, In cell cells -> feeds_from_output (ctx self) cell) ->
         cost_convert self cset conv = Ok n ->
         n = List.length (filter (charged (ctx self) (n_in_of conv)) cells))
  /\ (forall conv,
         (forall cell, In cell cells ->
            exists d, d_driver (ctx self) cell = Ok d
                      /\ type_of (ctx self) d <> "SB_LUT4") ->
         cost_convert self cset conv = Ok 0).
Proof.
  intros Hget. unfold cost_convert, cs_get. rewrite Hget. cbn [from_option bind].
  split; [repeat split|split].
  - intros conv n Hwf H. apply cost_cells_count in H; assumption.
  - intros conv H. apply cost_cells_free. assumption.
Qed.

(** ** Group-size projection *)

Lemma can_convert_total (self : Optimizer) (k : ControlSet) (conv : Z) :
  cs_lookup k (cset_map self) <> None ->
  can_convert self k conv = Ok (legal self k conv).
Proof.
  intros Hk. unfold legal.
  destruct (can_convert self k conv) as [b|e] eqn:E; [reflexivity|].
  exfalso. unfold can_convert, cs_get in E.
  destruct (cs_lookup k (cset_map self)); [|congruence].
  cbn [from_option bind] in E.
  destruct (rs k); cbn [bind] in E;
    repeat match type of E with
           | (if ?b then _ else _) = _ => destruct b
           end; discriminate.
Qed.

Lemma scan_alts_sum self threshold conv tgt todo :
  Forall (fun k => cs_lookup k (cset_map self) <> None) todo ->
  forall n g,
    scan_alts self threshold conv tgt todo n g
    = Ok (n + pulled_cells self threshold conv tgt todo,
          g ++ filter (pulled_in self threshold conv tgt) todo).
Proof.
  unfold pulled_cells.
  induction 1 as [|alt todo Halt Htodo IH]; intros n g.
  - simpl. rewrite Nat.add_0_r, app_nil_r. reflexivity.
  - destruct (cs_lookup alt (cset_map self)) as [alt_cells|] eqn:El; [|congruence].
    assert (Hm : members (cset_map self) alt = alt_cells)
      by (unfold members; rewrite El; reflexivity).
    assert (Hp : pulled_in self threshold conv tgt alt
                 = (Z.of_nat (List.length alt_cells) <? threshold)%Z
                   && legal self alt conv
                   && cset_eqb tgt (target_of conv alt))
      by (unfold pulled_in; rewrite Hm; reflexivity).
    cbn [scan_alts filter]. rewrite Hp. unfold cs_get. rewrite El.
    cbn [from_option bind].
    rewrite Z.leb_antisym.
    destruct (Z.of_nat (List.length alt_cells) <? threshold)%Z; cbn [negb andb]; [|apply IH].
    rewrite can_convert_total by congruence. cbn [bind].
    destruct (legal self alt conv); cbn [negb andb]; [|apply IH].
    destruct (cset_eqb tgt (target_of conv alt)); [|apply IH].
    rewrite IH. cbn [map list_sum]. rewrite Hm.
    rewrite <- app_assoc. unfold list_sum. cbn [fold_right app].
    rewrite Nat.add_assoc. reflexivity.
Qed.

(** C7 (amended): the projected group size of a removal option is the
    member count of the set being processed, plus the member count of the
    bucket filed under the target signature, if any, plus -- only when the
    target signature keeps a non-empty reset/set or enable net -- the
    member count of every other control set still to be processed that
    is below the threshold, yields the same target under the same removal
    and passes the legality check on its own.  When the target signature
    keeps neither net, no other control set is counted. *)
Theorem project_group_size
    (self : Optimizer) (threshold : Z) (to_process : list ControlSet)
    (cset : ControlSet) (cells : list string) (conv : Z) :
  cs_lookup cset (cset_map self) = Some cells ->
  Forall (fun k => cs_lookup k (cset_map self) <> None) to_process ->
  exists group,
    project self threshold to_process cset cells conv
    = Ok (guarded_group_size self threshold to_process cset conv, group).
Proof.
  intros Hget Htodo. unfold project, guarded_group_size, members.
  rewrite Hget.
  destruct (Py.truthy _ || Py.truthy _).
  - rewrite scan_alts_sum by assumption. eexists. f_equal. f_equal.
    destruct (cs_lookup (target_of conv cset) (cset_map self)); simpl; lia.
  - eexists. f_equal. f_equal.
    destruct (cs_lookup (target_of conv cset) (cset_map self)); simpl; lia.
Qed.

(** ** The global-net set and the debug flag *)

Ltac drop_globals g self :=
  change (cset_map (set_globals g self)) with (cset_map self) in *;
  change (ctx (set_globals g self)) with (ctx self) in *;
  change (can_convert (set_globals g self)) with (can_convert self) in *;
  change (cost_convert (set_globals g self)) with (cost_convert self) in *.

Lemma scan_alts_globals g self threshold conv tgt todo :
  forall n grp,
    scan_alts (set_globals g self) threshold conv tgt todo n grp
    = scan_alts self threshold conv tgt todo n grp.
Proof.
  induction todo as [|alt todo IH]; intros n grp; cbn [scan_alts]; [reflexivity|].
  drop_globals g self.
  destruct (cs_get (cset_map self) alt) as [alt_cells|]; cbn [bind]; [|reflexivity].
  destruct (threshold <=? _)%Z; [apply IH|].
  destruct (can_convert self alt conv) as [ok|]; cbn [bind]; [|reflexivity].
  destruct (negb ok); [apply IH|].
  destruct (cset_eqb tgt _); apply IH.
Qed.

Lemma group_cost_globals g self conv group :
  group_cost (set_globals g self) conv group = group_cost self conv group.
Proof.
  induction group as [|x group IH]; cbn [group_cost]; [reflexivity|].
  drop_globals g self. rewrite IH. reflexivity.
Qed.

Lemma evaluate_globals g self threshold todo cset cells conv :
  evaluate (set_globals g self) threshold todo cset cells conv
  = evaluate self threshold todo cset cells conv.
Proof.
  unfold evaluate, project. drop_globals g self.
  rewrite scan_alts_globals.
  destruct (can_convert self cset conv) as [ok|]; cbn [bind]; [|reflexivity].
  destruct (negb ok); [reflexivity|].
  match goal with |- bind ?m _ = _ => destruct m as [[n grp]|] end;
    cbn [bind]; [|reflexivity].
  rewrite group_cost_globals. reflexivity.
Qed.

Lemma candidates_globals g self threshold todo cset cells convs :
  candidates (set_globals g self) threshold todo cset cells convs
  = candidates self threshold todo cset cells convs.
Proof.
  induction convs as [|conv convs IH]; cbn [candidates]; [reflexivity|].
  rewrite evaluate_globals, IH. reflexivity.
Qed.

Lemma debug_members_globals g self group :
  debug_members (set_globals g self) group = debug_members self group.
Proof.
  induction group as [|x group IH]; cbn [debug_members]; [reflexivity|].
  drop_globals g self. rewrite IH. reflexivity.
Qed.

Lemma debug_candidates_globals g self cands :
  debug_candidates (set_globals g self) cands = debug_candidates self cands.
Proof.
  induction cands as [|c cands IH]; cbn [debug_candidates]; [reflexivity|].
  rewrite debug_members_globals, IH. reflexivity.
Qed.

Lemma exec_convert_globals g self cset conv :
  exec_convert (set_globals g self) cset conv
  = map_result (set_globals g) (exec_convert self cset conv).
Proof.
  unfold exec_convert. drop_globals g self.
  destruct (cs_get (cset_map self) cset) as [cells|]; cbn [bind]; [|reflexivity].
  destruct (convert_cells (ctx self) cset conv cells); reflexivity.
Qed.

Lemma apply_group_globals g tgt conv group :
  forall self todo,
    apply_group (set_globals g self) todo tgt conv group
    = map_result (on_fst (set_globals g)) (apply_group self todo tgt conv group).
Proof.
  induction group as [|cur group IH]; intros self todo; cbn [apply_group]; [reflexivity|].
  rewrite exec_convert_globals.
  destruct (exec_convert self cur conv) as [self1|]; cbn [bind map_result]; [|reflexivity].
  drop_globals g self1.
  destruct (cs_pop cur (cset_map self1)) as [[cells_cur m]|]; cbn [bind]; [|reflexivity].
  apply (IH (with_map self1 (cs_extend tgt cells_cur m))).
Qed.

Lemma step_globals g threshold debug st cset rest :
  step threshold debug (set_globals_run g st) cset rest
  = map_result (set_globals_run g) (step threshold debug st cset rest).
Proof.
  unfold step. cbn [set_globals_run run_self total_cost output].
  drop_globals g (run_self st).
  destruct (cs_get (cset_map (run_self st)) cset) as [cells|]; cbn [bind]; [|reflexivity].
  destruct (threshold <=? _)%Z; [reflexivity|].
  rewrite candidates_globals.
  destruct (candidates (run_self st) threshold rest cset cells [1; 2; 3]%Z) as [cands|];
    cbn [bind]; [|reflexivity].
  destruct cands as [|c0 cands]; [reflexivity|].
  rewrite debug_candidates_globals.
  match goal with |- bind ?m _ = _ => destruct m as [dbg|] end; cbn [bind]; [|reflexivity].
  match goal with |- bind ?m _ = _ => destruct m as [best|] end; cbn [bind]; [|reflexivity].
  rewrite apply_group_globals.
  destruct (apply_group _ _ _ _ _) as [[self' todo']|]; reflexivity.
Qed.

Lemma optimize_loop_globals g threshold debug :
  forall fuel st,
    optimize_loop fuel threshold debug (set_globals_run g st)
    = option_map (map_result (set_globals_run g)) (optimize_loop fuel threshold debug st).
Proof.
  induction fuel as [|fuel IH]; intros st; cbn [optimize_loop];
    change (to_process (set_globals_run g st)) with (to_process st);
    destruct (Py.pop (to_process st)) as [[cset rest]|]; try reflexivity.
  rewrite step_globals.
  destruct (step threshold debug st cset rest) as [st'|]; cbn [map_result]; [|reflexivity].
  apply IH.
Qed.

(** C9: the global-net set has no effect.  Whatever set of net names
    replaces the one computed by [find_global_nets], [can_convert]
    returns the same value for every control set and removal option, and
    a run makes the same decisions: it returns, raises or prints the
    same, and leaves the same netlist and index. *)
Theorem global_nets_unused :
  (forall (self : Optimizer) (g : list string) (cset : ControlSet) (conv : Z),
      can_convert (set_globals g self) cset conv = can_convert self cset conv)
  /\ (forall (self : Optimizer) (g : list string) (threshold : Z) (debug : bool),
         optimize (set_globals g self) threshold debug
         = option_map (map_result (on_fst (set_globals g))) (optimize self threshold debug)).
Proof.
  split; [reflexivity|].
  intros self g threshold debug. unfold optimize.
  drop_globals g self.
  change (mkRun (set_globals g self) ?t 0 [])
    with (set_globals_run g (mkRun self t 0 [])).
  rewrite optimize_loop_globals.
  destruct (optimize_loop _ _ _ _) as [[st|]|]; reflexivity.
Qed.

(** C10: [run_opt] does not depend on its [debug] argument: it runs
    [optimize] with the flag set and then prints the statistics. *)
Theorem run_opt_debug_overwritten :
  (forall (c : Context) (threshold : Z) (debug1 debug2 : bool),
      run_opt c threshold debug1 = run_opt c threshold debug2)
  /\ (forall (c : Context) (threshold : Z) (debug : bool),
         run_opt c threshold debug
         = match init c with
           | Raise e => Some (Raise e)
           | Ok opt =>
               option_map
                 (map_result (fun r : Optimizer * list line =>
                                (ctx (fst r), snd r ++ stats (fst r))))
                 (optimize opt threshold true)
           end).
Proof.
  split; [reflexivity|].
  intros c threshold debug. unfold run_opt.
  destruct (init c) as [opt|]; [|reflexivity].
  destruct (optimize opt threshold true) as [[[opt' out]|]|]; reflexivity.
Qed.

(** ** End-to-end scenario *)

Section Scenario.

Import Examples.

Variables (self : Optimizer) (a1 a2 b1 b2 b3 : string).

Hypothesis two_sets :
  cset_map self = [(set_A, [a1; a2]); (set_B, [b1; b2; b3])]
  \/ cset_map self = [(set_B, [b1; b2; b3]); (set_A, [a1; a2])].
Hypothesis synchronous :
  forall cell, In cell [a1; a2] -> is_async (ctx self) cell = false.
Hypothesis no_lut_driver :
  forall cell, In cell [a1; a2] ->
    exists d, d_driver (ctx self) cell = Ok d /\ type_of (ctx self) d <> "SB_LUT4".

Lemma scenario_get_A : cs_get (cset_map self) set_A = Ok [a1; a2].
Proof. destruct two_sets as [-> | ->]; reflexivity. Qed.

Lemma scenario_lookup_B : cs_lookup set_B (cset_map self) = Some [b1; b2; b3].
Proof. destruct two_sets as [-> | ->]; reflexivity. Qed.

Lemma scenario_can_convert :
  can_convert self set_A 1 = Ok true /\
  can_convert self set_A 2 = Ok false /\
  can_convert self set_A 3 = Ok false.
Proof.
  assert (Hs : existsb (fun c => Py.mem (type_of (ctx self) c) async_types) [a1; a2] = false).
  { apply existsb_false_iff. exact synchronous. }
  unfold can_convert. rewrite scenario_get_A. cbn [rs ena set_A bind]. rewrite Hs.
  repeat split; reflexivity.
Qed.

Lemma scenario_cost : cost_convert self set_A 1 = Ok 0.
Proof.
  unfold cost_convert. rewrite scenario_get_A. cbn [bind].
  apply cost_cells_free. exact no_lut_driver.
Qed.

Lemma scenario_candidates :
  candidates self 4 [set_B] set_A [a1; a2] [1; 2; 3]%Z
  = Ok [mkCandidate set_B 1 0 5 [set_A]].
Proof.
  destruct scenario_can_convert as (H1 & H2 & H3).
  cbn [candidates]. unfold evaluate. rewrite H1, H2, H3. cbn [bind negb].
  unfold project. change (target_of 1 set_A) with set_B.
  rewrite scenario_lookup_B. cbn [rs ena set_B Py.truthy orb bind List.length Nat.add].
  change (Z.of_nat 5 <? 4)%Z with false. cbn [group_cost].
  rewrite scenario_cost. reflexivity.
Qed.

(** The first round pops A and applies its only candidate; a fatal error
    of the netlist rewrite ends the run. *)
Lemma scenario_first_round (debug : bool) :
  step 4 debug (mkRun self [set_B; set_A] 0 []) set_A [set_B]
  = match exec_convert self set_A 1 with
    | Ok self1 =>
        Ok (mkRun (with_map self1 [(set_B, [b1; b2; b3; a1; a2])]) [set_B] 0
                  (scenario_debug debug))
    | Raise e => Raise e
    end.
Proof.
  unfold step. cbn [run_self total_cost output].
  rewrite scenario_get_A. cbn [bind List.length].
  change (4 <=? Z.of_nat 2)%Z with false. cbv iota.
  rewrite scenario_candidates. cbn [bind].
  change (Py.sorted cand_le [mkCandidate set_B 1 0 5 [set_A]])
    with [mkCandidate set_B 1 0 5 [set_A]].
  assert (Hdbg : (if debug then debug_candidates self [mkCandidate set_B 1 0 5 [set_A]]
                  else Ok [])
                 = Ok (scenario_debug debug)).
  { destruct debug; [|reflexivity].
    cbn [debug_candidates debug_members cand_csets cand_cost cand_cells cand_tgt].
    rewrite scenario_get_A. reflexivity. }
  rewrite Hdbg.
  cbn [bind hd_error from_option cand_tgt cand_conv cand_csets cand_cost apply_group].
  destruct (exec_convert self set_A 1) as [self1|e] eqn:Hexec; [|reflexivity].
  destruct (exec_convert_frame _ _ _ _ Hexec) as [Hmap _].
  cbn [bind].
  change (existsb (cset_eqb set_A) [set_B]) with false. cbv iota.
  unfold cs_pop. rewrite Hmap, scenario_get_A. cbn [bind].
  replace (cs_extend set_B [a1; a2] (cs_remove set_A (cset_map self)))
    with [(set_B, [b1; b2; b3; a1; a2])]
    by (destruct two_sets as [-> | ->]; reflexivity).
  reflexivity.
Qed.

(** The second round pops B, which is well used by now. *)
Lemma scenario_second_round (self1 : Optimizer) (debug : bool) :
  step 4 debug
       (mkRun (with_map self1 [(set_B, [b1; b2; b3; a1; a2])]) [set_B] 0
              (scenario_debug debug))
       set_B []
  = Ok (mkRun (with_map self1 [(set_B, [b1; b2; b3; a1; a2])]) [] 0
              (scenario_debug debug)).
Proof. reflexivity. Qed.

End Scenario.

(** C1: the end-to-end scenario.  The index holds exactly A = (x, -, c)
    with two members, none of an asynchronous type, and B = (-, -, c)
    with three members; no member of A is fed by a lookup table; the
    threshold is 4.  Then the only candidate for A is reset-only removal
    (1) with target B, cost 0 and projected group size 5, and the run
    applies it: when the netlist rewrite of A goes through, the run
    returns with the cells of A filed after those of B in the single
    remaining bucket, one control set less than before, and reports
    cost 0, two control sets before and one after; a fatal error of the
    netlist rewrite is the only other outcome and aborts the run. *)
Theorem scenario_merges_A_into_B
    (self : Optimizer) (a1 a2 b1 b2 b3 : string) (debug : bool) :
  (cset_map self = [(Examples.set_A, [a1; a2]); (Examples.set_B, [b1; b2; b3])]
   \/ cset_map self = [(Examples.set_B, [b1; b2; b3]); (Examples.set_A, [a1; a2])]) ->
  (forall cell, In cell [a1; a2] -> is_async (ctx self) cell = false) ->
  (forall cell, In cell [a1; a2] ->
     exists d, d_driver (ctx self) cell = Ok d /\ type_of (ctx self) d <> "SB_LUT4") ->
  candidates self 4 [Examples.set_B] Examples.set_A [a1; a2] [1; 2; 3]%Z
  = Ok [mkCandidate Examples.set_B 1 0 5 [Examples.set_A]]
  /\ optimize self 4 debug
     = match exec_convert self Examples.set_A 1 with
       | Ok self1 =>
           Some (Ok (with_map self1 [(Examples.set_B, [b1; b2; b3; a1; a2])],
                     scenario_debug debug ++ [Summary 0 2 1]))
       | Raise e => Some (Raise e)
       end
  /\ List.length (cset_map self) = 2.
Proof.
  intros Hsets Hsync Hdrv.
  split; [eapply scenario_candidates; eassumption|].
  split; [|destruct Hsets as [-> | ->]; reflexivity].
  unfold optimize.
  replace (Py.sorted cset_le (cs_keys (cset_map self)))
    with [Examples.set_B; Examples.set_A]
    by (destruct Hsets as [-> | ->]; reflexivity).
  replace (List.length (cset_map self)) with 2
    by (destruct Hsets as [-> | ->]; reflexivity).
  cbn [List.length optimize_loop to_process].
  change (Py.pop [Examples.set_B; Examples.set_A])
    with (Some (Examples.set_A, [Examples.set_B])).
  cbv iota.
  rewrite (scenario_first_round self a1 a2 b1 b2 b3 Hsets Hsync Hdrv debug).
  destruct (exec_convert self Examples.set_A 1) as [self1|e]; [|reflexivity].
  cbn [to_process].
  change (Py.pop [Examples.set_B]) with (Some (Examples.set_B, @nil ControlSet)).
  cbv iota.
  rewrite scenario_second_round.
  reflexivity.
Qed.

(** ** Instances on the example netlists *)

Module Instances.
Import Examples.

(** The scenario on the netlist [two_sets 3]: the rewrite of A goes
    through and the run merges A into B. *)
Lemma scenario_merges_A_into_B_witness :
  exec_convert (opt_of (two_sets 3)) set_A 1 = Ok (converted (opt_of (two_sets 3)) set_A 1)
  /\ optimize (opt_of (two_sets 3)) 4 true
     = Some (Ok (with_map (converted (opt_of (two_sets 3)) set_A 1)
                          [(set_B, ["b0"; "b1"; "b2"; "a0"; "a1"])],
                 scenario_debug true ++ [Summary 0 2 1])).
Proof.
  assert (He : exec_convert (opt_of (two_sets 3)) set_A 1
               = Ok (converted (opt_of (two_sets 3)) set_A 1))
    by (vm_compute; reflexivity).
  split; [exact He|].
  assert (Hsets : cset_map (opt_of (two_sets 3))
                  = [(set_A, ["a0"; "a1"]); (set_B, ["b0"; "b1"; "b2"])])
    by (vm_compute; reflexivity).
  assert (Hsync : forall cell, In cell ["a0"; "a1"] ->
                    is_async (ctx (opt_of (two_sets 3))) cell = false)
    by (intros cell [<-|[<-|[]]]; vm_compute; reflexivity).
  assert (Hdrv : forall cell, In cell ["a0"; "a1"] ->
                   exists d, d_driver (ctx (opt_of (two_sets 3))) cell = Ok d
                             /\ type_of (ctx (opt_of (two_sets 3))) d <> "SB_LUT4")
    by (intros cell [<-|[<-|[]]];
        [exists "io0" | exists "io1"];
        (split; [vm_compute; reflexivity | vm_compute; discriminate])).
  pose proof (proj1 (proj2 (scenario_merges_A_into_B
                              (opt_of (two_sets 3)) "a0" "a1" "b0" "b1" "b2" true
                              (or_introl Hsets) Hsync Hdrv))) as Hrun.
  rewrite He in Hrun. exact Hrun.
Defined.

(** With five members B is well used at threshold 4 when the run starts,
    and yet its member list is not the same after the run: the two
    cells of A have been added to it. *)
Lemma well_used_set_extended :
  optimize (opt_of (two_sets 5)) 4 false = Some (Ok (final (two_sets 5) 4, [Summary 0 2 1]))
  /\ cs_lookup set_B (cset_map (opt_of (two_sets 5))) = Some ["b0"; "b1"; "b2"; "b3"; "b4"]
  /\ (4 <= Z.of_nat (List.length ["b0"; "b1"; "b2"; "b3"; "b4"]))%Z
  /\ cs_lookup set_B (cset_map (final (two_sets 5) 4))
     = Some ["b0"; "b1"; "b2"; "b3"; "b4"; "a0"; "a1"]
  /\ cs_lookup set_B (cset_map (final (two_sets 5) 4))
     <> Some ["b0"; "b1"; "b2"; "b3"; "b4"].
Proof.
  split; [vm_compute; reflexivity|].
  split; [vm_compute; reflexivity|].
  split; [vm_compute; discriminate|].
  split; [vm_compute; reflexivity|].
  vm_compute. discriminate.
Qed.

(** On the same netlist the five members of B stay in front. *)
Lemma well_used_set_keeps_members_witness :
  exists merged,
    cs_lookup set_B (cset_map (final (two_sets 5) 4))
    = Some (["b0"; "b1"; "b2"; "b3"; "b4"] ++ merged).
Proof.
  apply (well_used_set_keeps_members
           (opt_of (two_sets 5)) (final (two_sets 5) 4) 4 false [Summary 0 2 1] set_B).
  - vm_compute. reflexivity.
  - vm_compute. reflexivity.
  - vm_compute. discriminate.
Defined.

(** A control set with enable and synchronous reset. *)
Lemma can_convert_legality_witness :
  can_convert (opt_of enabled) set_E 2 = Ok false
  /\ can_convert (opt_of enabled) set_E 1 = Ok true
  /\ can_convert (opt_of enabled) set_E 3 = Ok true.
Proof.
  assert (Hget : cs_lookup set_E (cset_map (opt_of enabled)) = Some ["e0"; "e1"])
    by (vm_compute; reflexivity).
  apply (proj1 (can_convert_legality (opt_of enabled) set_E ["e0"; "e1"] Hget)).
  - discriminate.
  - discriminate.
  - intros c [<-|[<-|[]]]; vm_compute; reflexivity.
Defined.

(** Of the two flip-flops of [lut_fed], the one behind the full lookup
    table is charged. *)
Lemma cost_convert_counts_witness :
  1 = List.length (filter (charged (ctx (opt_of lut_fed)) (n_in_of 1)) ["f0"; "f1"]).
Proof.
  assert (Hget : cs_lookup set_A (cset_map (opt_of lut_fed)) = Some ["f0"; "f1"])
    by (vm_compute; reflexivity).
  apply (proj1 (proj2 (cost_convert_counts (opt_of lut_fed) set_A ["f0"; "f1"] Hget))).
  - intros cell [<-|[<-|[]]] d o Hd _ Ho;
      vm_compute in Hd; injection Hd as <-;
      vm_compute in Ho; injection Ho as <-;
      vm_compute; auto.
  - vm_compute. reflexivity.
Defined.

(** Reset-only removal on (y, -, c) with (x, -, c) still to process,
    two members each, threshold 4: the removal is legal, the target
    (-, -, c) keeps neither net, and the projected group size is 2 where
    the count over both sets is 4. *)
Lemma other_sets_not_counted :
  cs_lookup set_Y (cset_map (opt_of two_resets)) = Some ["r0"; "r1"]
  /\ can_convert (opt_of two_resets) set_Y 1 = Ok true
  /\ project (opt_of two_resets) 4 [set_A] set_Y ["r0"; "r1"] 1 = Ok (2, [set_Y])
  /\ stated_group_size (opt_of two_resets) 4 [set_A] set_Y 1 = 4.
Proof.
  split; [vm_compute; reflexivity|].
  split; [vm_compute; reflexivity|].
  split; vm_compute; reflexivity.
Qed.

(** Reset-only removal on (y, en, c) with (x, en, c) still to process:
    the target keeps its enable net and the other set is counted. *)
Lemma project_group_size_witness :
  exists group,
    project (opt_of enabled_resets) 4 [set_E] set_F ["g0"; "g1"] 1
    = Ok (guarded_group_size (opt_of enabled_resets) 4 [set_E] set_F 1, group).
Proof.
  apply (project_group_size (opt_of enabled_resets) 4 [set_E] set_F ["g0"; "g1"] 1).
  - vm_compute. reflexivity.
  - repeat constructor. vm_compute. discriminate.
Defined.

(** The run on [two_sets 3] keeps the five flip-flops. *)
Lemma optimize_conserves_cells_witness :
  cell_count (cset_map (final (two_sets 3) 4)) = cell_count (cset_map (opt_of (two_sets 3))).
Proof.
  assert (Hrun : optimize (opt_of (two_sets 3)) 4 false
                 = Some (Ok (final (two_sets 3) 4, [Summary 0 2 1])))
    by (vm_compute; reflexivity).
  exact (proj2 (proj1 optimize_conserves_cells
                      (opt_of (two_sets 3)) (final (two_sets 3) 4) 4%Z false
                      [Summary 0 2 1] Hrun)).
Defined.

End Instances.

(** * Further properties *)

(** ** Building the index *)

Lemma from_cell_ff (c : Context) (x : string) :
  is_ff c x = true ->
  from_cell c x
  = Ok (mkControlSet (Py.or_ (net_name c x "R") (net_name c x "S"))
                     (net_name c x "E") (net_name c x "C")).
Proof. unfold is_ff, from_cell. intros ->. reflexivity. Qed.

Lemma from_cell_Ok_ff (c : Context) (x : string) (k : ControlSet) :
  from_cell c x = Ok k -> is_ff c x = true.
Proof.
  unfold is_ff, from_cell. destruct (String.prefix "SB_DFF" (type_of c x)); [reflexivity|discriminate].
Qed.

Lemma members_extend (k tgt : ControlSet) (cells : list string) (m : CsetMap) :
  members (cs_extend tgt cells m) k
  = if cset_eqb k tgt then members m k ++ cells else members m k.
Proof.
  unfold members. destruct (cset_eqb k tgt) eqn:E.
  - apply cset_eqb_eq in E. subst tgt.
    destruct (cs_lookup k m) as [v|] eqn:El.
    + rewrite (cs_lookup_extend_same _ _ _ _ El). reflexivity.
    + induction m as [|[k0 v0] m IH]; simpl.
      * rewrite cset_eqb_refl. reflexivity.
      * simpl in El. destruct (cset_eqb k k0) eqn:E0; [discriminate|].
        simpl. rewrite E0. apply IH. assumption.
  - apply cset_eqb_neq in E. rewrite cs_lookup_extend_other by assumption. reflexivity.
Qed.

Lemma cs_keys_extend (tgt : ControlSet) (cells : list string) (m : CsetMap) :
  cs_keys (cs_extend tgt cells m)
  = if existsb (cset_eqb tgt) (cs_keys m) then cs_keys m else cs_keys m ++ [tgt].
Proof.
  unfold cs_keys. induction m as [|[k v] m IH]; simpl; [reflexivity|].
  destruct (cset_eqb tgt k); simpl; [reflexivity|].
  rewrite IH. destruct (existsb _ _); reflexivity.
Qed.

Lemma existsb_cset_In (k : ControlSet) (l : list ControlSet) :
  existsb (cset_eqb k) l = true <-> In k l.
Proof.
  rewrite existsb_exists. split.
  - intros (x & Hx & E). apply cset_eqb_eq in E. subst. assumption.
  - intros H. exists k. split; [assumption|apply cset_eqb_refl].
Qed.

Lemma cs_extend_NoDup (tgt : ControlSet) (cells : list string) (m : CsetMap) :
  NoDup (cs_keys m) -> NoDup (cs_keys (cs_extend tgt cells m)).
Proof.
  intros H. rewrite cs_keys_extend.
  destruct (existsb (cset_eqb tgt) (cs_keys m)) eqn:E; [assumption|].
  apply NoDup_app; [assumption|repeat constructor; intros []| ].
  intros x Hx [<-|[]]. apply existsb_cset_In in Hx. congruence.
Qed.

Lemma cs_extend_In (tgt : ControlSet) (cs : list string) (m : CsetMap)
    (k : ControlSet) (cells : list string) :
  In (k, cells) (cs_extend tgt cs m) ->
  In (k, cells) m
  \/ (k = tgt /\ exists old, cells = old ++ cs /\ (old = [] \/ In (tgt, old) m)).
Proof.
  induction m as [|[k0 v0] m IH]; simpl.
  - intros [[= <- <-]|[]]. right. split; [reflexivity|]. exists []. auto.
  - destruct (cset_eqb tgt k0) eqn:E; simpl.
    + apply cset_eqb_eq in E. subst k0.
      intros [[= <- <-]|H]; [|auto].
      right. split; [reflexivity|]. exists v0. auto.
    + intros [H|H]; [auto|].
      destruct (IH H) as [H1|(-> & old & -> & [->|Ho])]; [auto| |].
      * right. split; [reflexivity|]. exists []. auto.
      * right. split; [reflexivity|]. exists old. auto.
Qed.

Lemma cs_extend_nonempty (tgt : ControlSet) (cs : list string) (m : CsetMap) :
  cs <> [] ->
  Forall (fun e => snd e <> []) m ->
  Forall (fun e : ControlSet * list string => snd e <> []) (cs_extend tgt cs m).
Proof.
  intros Hcs. induction 1 as [|[k0 v0] m H0 Hm IH]; simpl.
  - repeat constructor. assumption.
  - destruct (cset_eqb tgt k0); constructor; simpl in *; try assumption.
    intros E. apply app_eq_nil in E. tauto.
Qed.

(** The loop of [build_map] never raises; it keeps the keys distinct,
    appends each flip-flop to the bucket of its control set and leaves
    the other cells out. *)
Lemma build_map_from_spec (c : Context) (names : list string) :
  forall m,
    NoDup (cs_keys m) ->
    Forall (fun e => snd e <> []) m ->
    exists m',
      build_map_from c names m = Ok m'
      /\ NoDup (cs_keys m')
      /\ Forall (fun e => snd e <> []) m'
      /\ forall k, members m' k = members m k ++ filter (files_under c k) names.
Proof.
  induction names as [|n names IH]; intros m Hnd Hne; cbn [build_map_from].
  - exists m. repeat split; try assumption. intros k. rewrite app_nil_r. reflexivity.
  - destruct (String.prefix "SB_DFF" (type_of c n)) eqn:Hff; cbn [negb].
    + rewrite (from_cell_ff c n Hff). cbn [bind].
      set (cset := mkControlSet _ _ _).
      destruct (IH (cs_extend cset [n] m)) as (m' & Hb & Hnd' & Hne' & Hmem).
      * apply cs_extend_NoDup. assumption.
      * apply cs_extend_nonempty; [discriminate|assumption].
      * exists m'. repeat split; try assumption.
        intros k. rewrite Hmem, members_extend. cbn [filter].
        unfold files_under at 2. rewrite (from_cell_ff c n Hff). fold cset.
        rewrite (eq_true_iff_eq (cset_eqb k cset) (cset_eqb cset k))
          by (rewrite !cset_eqb_eq; split; congruence).
        destruct (cset_eqb cset k); [rewrite <- app_assoc|]; reflexivity.
    + destruct (IH m Hnd Hne) as (m' & Hb & Hnd' & Hne' & Hmem).
      exists m'. repeat split; try assumption.
      intros k. rewrite Hmem. cbn [filter].
      unfold files_under at 2. unfold from_cell. rewrite Hff. reflexivity.
Qed.

Lemma cs_lookup_In (k : ControlSet) (cells : list string) (m : CsetMap) :
  cs_lookup k m = Some cells -> In (k, cells) m.
Proof.
  induction m as [|[k0 v0] m IH]; simpl; [discriminate|].
  destruct (cset_eqb k k0) eqn:E.
  - apply cset_eqb_eq in E. subst k0. intros [= ->]. left. reflexivity.
  - intros H. right. apply IH. assumption.
Qed.

Lemma In_cs_lookup (k : ControlSet) (cells : list string) (m : CsetMap) :
  NoDup (cs_keys m) -> In (k, cells) m -> cs_lookup k m = Some cells.
Proof.
  unfold cs_keys. induction m as [|[k0 v0] m IH]; simpl; [tauto|].
  intros Hnd [[= -> ->]|H].
  - rewrite cset_eqb_refl. reflexivity.
  - inversion Hnd as [|? ? Hnin Hnd']; subst.
    destruct (cset_eqb k k0) eqn:E.
    + apply cset_eqb_eq in E. subst k0. exfalso. apply Hnin.
      apply (in_map fst) in H. exact H.
    + apply IH; assumption.
Qed.

Lemma build_map_spec (c : Context) :
  exists m,
    build_map c = Ok m
    /\ NoDup (cs_keys m)
    /\ Forall (fun e => snd e <> []) m
    /\ (forall k, members m k = filter (files_under c k) (map fst c))
    /\ synced c m.
Proof.
  destruct (build_map_from_spec c (map fst c) []) as (m & Hb & Hnd & Hne & Hmem).
  - constructor.
  - constructor.
  - exists m. repeat split; try assumption.
    intros k cells Hin x Hx.
    assert (Hk : members m k = cells)
      by (unfold members; rewrite (In_cs_lookup _ _ _ Hnd Hin); reflexivity).
    rewrite <- Hk, Hmem in Hx. apply filter_In in Hx. destruct Hx as [_ Hf].
    unfold files_under in Hf. destruct (from_cell c x) as [k'|]; [|discriminate].
    apply cset_eqb_eq in Hf. subst k'. reflexivity.
Qed.

(** X1: [build_map] never raises.  The index it returns has distinct
    keys and no empty bucket; the bucket of every control set lists, in
    discovery order, exactly the cells of the netlist that are
    flip-flops wired to that control set, and there is no bucket for a
    control set without such a cell; so every flip-flop of the index is
    filed under the control set that [from_cell] gives it. *)
Theorem build_map_files_every_flip_flop (c : Context) :
  exists m,
    build_map c = Ok m
    /\ NoDup (cs_keys m)
    /\ Forall (fun e => snd e <> []) m
    /\ (forall k, members m k = filter (files_under c k) (map fst c))
    /\ synced c m.
Proof. apply build_map_spec. Qed.

(** ** The netlist primitives and the wiring of the flip-flops *)

Lemma assoc_set_spec {V : Type} (k x : string) (v : V) (l : list (string * V)) :
  assoc x (assoc_set k v l) = if x =? k then Some v else assoc x l.
Proof.
  induction l as [|[k0 v0] l IH]; simpl.
  - destruct (x =? k); reflexivity.
  - destruct (String.eqb_spec k k0) as [->|Hk]; simpl.
    + destruct (x =? k0); reflexivity.
    + rewrite IH. destruct (String.eqb_spec x k0) as [->|]; [|reflexivity].
      apply String.eqb_neq in Hk. rewrite String.eqb_sym, Hk. reflexivity.
Qed.

Lemma update_cell_Ok (c c' : Context) (name : string) (f : CellInfo -> result CellInfo) :
  update_cell c name f = Ok c' ->
  exists cell cell',
    assoc name c = Some cell /\ f cell = Ok cell' /\ c' = assoc_set name cell' c.
Proof.
  unfold update_cell. intros H.
  inv_bind H as cell Hc. apply from_option_Some in Hc.
  inv_bind H as cell' Hf. apply Ok_inj in H. eauto.
Qed.

Lemma cell_of_assoc_set (c : Context) (name x : string) (cell' : CellInfo) :
  cell_of (assoc_set name cell' c) x = if x =? name then cell' else cell_of c x.
Proof.
  unfold cell_of. rewrite assoc_set_spec. destruct (x =? name); reflexivity.
Qed.

Lemma cell_of_present (c : Context) (x : string) (cell : CellInfo) :
  assoc x c = Some cell -> cell_of c x = cell.
Proof. unfold cell_of. intros ->. reflexivity. Qed.

Lemma is_ff_present (c : Context) (x : string) :
  is_ff c x = true -> assoc x c <> None.
Proof.
  unfold is_ff, type_of, cell_of. destruct (assoc x c); [discriminate|].
  simpl. discriminate.
Qed.

Lemma rewires_port (c c' : Context) (name p : string) (cell : CellInfo)
    (ports : list (string * PortInfo)) :
  assoc name c = Some cell ->
  (forall q, q <> p -> assoc q ports = assoc q (cell_ports cell)) ->
  c' = assoc_set name (mkCell (cell_type cell) ports (cell_params cell)) c ->
  rewires name p c c'.
Proof.
  intros Hc Hports ->. split.
  - intros x. unfold type_of. rewrite cell_of_assoc_set.
    destruct (String.eqb_spec x name) as [->|]; [|reflexivity].
    rewrite (cell_of_present _ _ _ Hc). reflexivity.
  - intros x q Hxq. unfold net_name. rewrite cell_of_assoc_set.
    destruct (String.eqb_spec x name) as [->|]; [|reflexivity].
    rewrite (cell_of_present _ _ _ Hc). cbn [cell_ports].
    rewrite Hports; [reflexivity|]. destruct Hxq; congruence.
Qed.

Lemma assoc_set_other {V : Type} (p q : string) (v : V) (l : list (string * V)) :
  q <> p -> assoc q (assoc_set p v l) = assoc q l.
Proof.
  intros H. rewrite assoc_set_spec. apply String.eqb_neq in H. rewrite H. reflexivity.
Qed.

Lemma disconnectPort_rewires (c c' : Context) (name p : string) :
  disconnectPort c name p = Ok c' -> rewires name p c c'.
Proof.
  unfold disconnectPort. intros H.
  apply update_cell_Ok in H. destruct H as (cell & cell' & Hc & Hf & ->).
  destruct (assoc p (cell_ports cell)) as [pi|] eqn:Hp; apply Ok_inj in Hf; subst cell'.
  - eapply rewires_port; [eassumption| |reflexivity].
    intros q Hq. apply assoc_set_other. assumption.
  - eapply rewires_port; [eassumption|reflexivity|]. destruct cell. reflexivity.
Qed.

(** After [disconnectPort] the port is on no net. *)
Lemma disconnectPort_net (c c' : Context) (name p : string) :
  disconnectPort c name p = Ok c' -> net_name c' name p = None.
Proof.
  unfold disconnectPort. intros H.
  apply update_cell_Ok in H. destruct H as (cell & cell' & Hc & Hf & ->).
  unfold net_name. rewrite cell_of_assoc_set, String.eqb_refl.
  destruct (assoc p (cell_ports cell)) as [pi|] eqn:Hp; apply Ok_inj in Hf; subst cell'.
  - cbn [cell_ports]. rewrite assoc_set_spec, String.eqb_refl. reflexivity.
  - rewrite Hp. reflexivity.
Qed.

Lemma connectPort_rewires (c c' : Context) (net name p : string) :
  connectPort c net name p = Ok c' -> rewires name p c c'.
Proof.
  unfold connectPort. intros H.
  apply update_cell_Ok in H. destruct H as (cell & cell' & Hc & Hf & ->).
  inv_bind Hf as pi Hpi. apply Ok_inj in Hf. subst cell'.
  eapply rewires_port; [eassumption| |reflexivity].
  intros q Hq. apply assoc_set_other. assumption.
Qed.

Lemma addPort_rewires (c c' : Context) (name p : string) (t : PortType) :
  addPort c name p t = Ok c' -> rewires name p c c'.
Proof.
  unfold addPort. intros H.
  apply update_cell_Ok in H. destruct H as (cell & cell' & Hc & Hf & ->).
  apply Ok_inj in Hf. subst cell'.
  eapply rewires_port; [eassumption| |reflexivity].
  intros q Hq. apply assoc_set_other. assumption.
Qed.

Lemma wiring_eq (c c' : Context) (x : string) :
  type_of c' x = type_of c x ->
  (forall q, In q control_ports -> net_name c' x q = net_name c x q) ->
  wiring c' x = wiring c x.
Proof.
  intros Ht Hq. unfold wiring. rewrite Ht.
  rewrite !Hq by (unfold control_ports; simpl; tauto). reflexivity.
Qed.

Lemma rewires_keeps (c c' : Context) (name p : string) :
  ~ In p control_ports -> rewires name p c c' -> keeps_wiring c c'.
Proof.
  intros Hp [Ht Hn] x _. apply wiring_eq; [apply Ht|].
  intros q Hq. apply Hn. right. intros ->. contradiction.
Qed.

Lemma keeps_wiring_refl (c : Context) : keeps_wiring c c.
Proof. intros x _. reflexivity. Qed.

Lemma keeps_wiring_ff (c c' : Context) (x : string) :
  keeps_wiring c c' -> is_ff c x = true -> is_ff c' x = true.
Proof.
  intros H Hx. specialize (H x Hx). unfold wiring in H. unfold is_ff in *.
  injection H as -> _ _ _ _. assumption.
Qed.

Lemma keeps_wiring_trans (c1 c2 c3 : Context) :
  keeps_wiring c1 c2 -> keeps_wiring c2 c3 -> keeps_wiring c1 c3.
Proof.
  intros H12 H23 x Hx. rewrite (H23 x (keeps_wiring_ff _ _ _ H12 Hx)). apply H12. assumption.
Qed.

Lemma setParam_keeps (c c' : Context) (name k : string) (v : bits) :
  setParam c name k v = Ok c' -> keeps_wiring c c'.
Proof.
  unfold setParam. intros H.
  apply update_cell_Ok in H. destruct H as (cell & cell' & Hc & Hf & ->).
  apply Ok_inj in Hf. subst cell'. intros x _.
  unfold wiring, type_of, net_name. rewrite !cell_of_assoc_set.
  destruct (String.eqb_spec x name) as [->|]; [|reflexivity].
  rewrite (cell_of_present _ _ _ Hc). reflexivity.
Qed.

Lemma assoc_app_present {V : Type} (x : string) (l l' : list (string * V)) :
  assoc x l <> None -> assoc x (l ++ l') = assoc x l.
Proof.
  induction l as [|[k v] l IH]; simpl; [congruence|].
  destruct (x =? k); [reflexivity|assumption].
Qed.

Lemma createCell_keeps (c c' : Context) (name t : string) :
  createCell c name t = Ok c' -> keeps_wiring c c'.
Proof.
  unfold createCell. destruct (assoc name c); [discriminate|].
  intros H. apply Ok_inj in H. subst c'. intros x Hx.
  apply is_ff_present in Hx.
  unfold wiring, type_of, net_name, cell_of.
  rewrite (assoc_app_present _ _ _ Hx). reflexivity.
Qed.

Lemma prefix_split (p t : string) :
  String.prefix p t = true -> exists rest, t = (p ++ rest)%string.
Proof.
  revert t. induction p as [|a p IH]; intros t H.
  - exists t. reflexivity.
  - destruct t as [|b t]; [discriminate|]. simpl in H.
    destruct (ascii_dec a b) as [->|]; [|discriminate].
    destruct (IH t H) as (rest & ->). exists rest. reflexivity.
Qed.

Lemma prefix_app (p rest : string) : String.prefix p (p ++ rest) = true.
Proof.
  induction p as [|a p IH]; simpl; [destruct rest; reflexivity|].
  destruct (ascii_dec a a); [assumption|congruence].
Qed.

Lemma replace_after_family (pat rest : string) :
  In pat ["SR"; "SS"; "E"] ->
  Py.replace pat "" ("SB_DFF" ++ rest) = ("SB_DFF" ++ Py.replace pat "" rest)%string.
Proof. intros [<-|[<-|[<-|[]]]]; reflexivity. Qed.

(** Editing the removed inputs out of the name of a flip-flop type
    leaves a flip-flop type. *)
Lemma retype_ff (conv : Z) (t : string) :
  String.prefix "SB_DFF" t = true -> String.prefix "SB_DFF" (retype conv t) = true.
Proof.
  intros H. apply prefix_split in H. destruct H as (rest & ->).
  unfold retype. destruct (rm_rs_of conv), (rm_ena_of conv);
    rewrite ?replace_after_family by (simpl; tauto); apply prefix_app.
Qed.

Lemma set_type_wiring (c : Context) (name t : string) :
  assoc name c <> None ->
  (forall x, type_of (set_type c name t) x = if x =? name then t else type_of c x)
  /\ (forall x q, net_name (set_type c name t) x q = net_name c x q).
Proof.
  intros Hp. unfold set_type. destruct (assoc name c) as [cell|] eqn:Hc; [|congruence].
  split.
  - intros x. unfold type_of. rewrite cell_of_assoc_set.
    destruct (x =? name); reflexivity.
  - intros x q. unfold net_name. rewrite cell_of_assoc_set.
    destruct (String.eqb_spec x name) as [->|]; [|reflexivity].
    rewrite (cell_of_present _ _ _ Hc). reflexivity.
Qed.

Lemma rewires_present (c c' : Context) (name p x : string) :
  rewires name p c c' -> is_ff c x = true -> is_ff c' x = true.
Proof. intros [Ht _] H. unfold is_ff in *. rewrite Ht. assumption. Qed.

Lemma pop_In {A : Type} (l r : list A) (x : A) :
  Py.pop l = Some (x, r) -> In x l /\ forall y, In y r -> In y l.
Proof.
  revert x r. induction l as [|a l IH]; simpl; intros x r H; [discriminate|].
  destruct (Py.pop l) as [[y r']|] eqn:E.
  - injection H as <- <-.
    destruct (IH _ _ eq_refl) as [Hy Hr]. split; [auto|].
    intros z [<-|Hz]; auto.
  - injection H as <- <-. split; [auto|intros y []].
Qed.

Lemma take_port_In (fp fp' : list string) (p : string) (pn : nat) :
  take_port fp = Ok (p, pn, fp') -> In p fp /\ forall q, In q fp' -> In q fp.
Proof.
  unfold take_port. intros H. inv_bind H as [p0 r] Hpop.
  apply from_option_Some in Hpop. inv_bind H as n Hn.
  apply Ok_inj in H. injection H as <- <- <-. apply pop_In. assumption.
Qed.

Lemma remove_first_In (x y : string) (l : list string) :
  In y (Py.remove_first String.eqb x l) -> In y l.
Proof.
  induction l as [|a l IH]; simpl; [tauto|].
  destruct (x =? a); simpl; [auto|]. intros [H|H]; auto.
Qed.

(** The ports returned by [_lut_free_ports] are inputs of the lookup
    table that are unconnected or tied to [GND], and neither [I1] nor
    [I2] when a carry cell is matched. *)
Lemma lut_free_ports_In (c : Context) (lut : string) (fp : list string) :
  _lut_free_ports c lut = Ok fp ->
  forall p, In p fp ->
    In p ["I0"; "I1"; "I2"; "I3"] /\ free_input c lut p = true.
Proof.
  unfold _lut_free_ports. intros H.
  inv_bind H as l0 Hl0. apply unused_among_filter in Hl0.
  inv_bind H as carry Hcarry.
  assert (Hsub : forall p, In p fp -> In p l0).
  { destruct carry; apply Ok_inj in H; subst fp; [|auto].
    intros p. cbn [fold_left].
    repeat match goal with
           | |- context [if ?b then _ else _] => destruct b
           end; intros Hp;
      repeat (apply remove_first_In in Hp); assumption. }
  intros p Hp. apply Hsub in Hp. subst l0. apply filter_In in Hp. assumption.
Qed.

Lemma not_control_port (p : string) :
  In p ["I0"; "I1"; "I2"; "I3"; "O"; "D"] -> ~ In p control_ports.
Proof.
  unfold control_ports.
  intros [<-|[<-|[<-|[<-|[<-|[<-|[]]]]]]] [H|[H|[H|[H|[]]]]]; discriminate.
Qed.

Lemma disconnectPort_keeps (c c' : Context) (name p : string) :
  In p ["I0"; "I1"; "I2"; "I3"; "O"; "D"] ->
  disconnectPort c name p = Ok c' -> keeps_wiring c c'.
Proof.
  intros Hp H. eapply rewires_keeps; [apply not_control_port; eassumption|].
  apply disconnectPort_rewires. eassumption.
Qed.

Lemma connectPort_keeps (c c' : Context) (net name p : string) :
  In p ["I0"; "I1"; "I2"; "I3"; "O"; "D"] ->
  connectPort c net name p = Ok c' -> keeps_wiring c c'.
Proof.
  intros Hp H. eapply rewires_keeps; [apply not_control_port; eassumption|].
  eapply connectPort_rewires. eassumption.
Qed.

Lemma addPort_keeps (c c' : Context) (name p : string) (t : PortType) :
  In p ["I0"; "I1"; "I2"; "I3"; "O"; "D"] ->
  addPort c name p t = Ok c' -> keeps_wiring c c'.
Proof.
  intros Hp H. eapply rewires_keeps; [apply not_control_port; eassumption|].
  eapply addPort_rewires. eassumption.
Qed.

Ltac keeps_step H :=
  match type of H with
  | disconnectPort _ _ _ = Ok _ => apply disconnectPort_keeps in H; [|simpl; tauto]
  | connectPort _ _ _ _ = Ok _ => apply connectPort_keeps in H; [|simpl; tauto]
  | addPort _ _ _ _ = Ok _ => apply addPort_keeps in H; [|simpl; tauto]
  | setParam _ _ _ _ = Ok _ => apply setParam_keeps in H
  | createCell _ _ _ = Ok _ => apply createCell_keeps in H
  end.

Lemma insert_lut_keeps (c c' : Context) (cell tgt : string) (fp : list string) :
  insert_lut c cell = Ok (c', tgt, fp) ->
  keeps_wiring c c' /\ fp = ["I0"; "I1"; "I2"].
Proof.
  unfold insert_lut, createNet. intros H.
  inv_bind H as c1 H1. inv_bind H as c2 H2. inv_bind H as c3 H3.
  inv_bind H as c4 H4. inv_bind H as c5 H5. inv_bind H as c6 H6.
  inv_bind H as c7 H7. inv_bind H as c8 H8. apply Ok_inj in H8. subst c8.
  inv_bind H as d Hd. inv_bind H as old_net Hold.
  inv_bind H as c9 H9. inv_bind H as c10 H10. inv_bind H as c11 H11.
  inv_bind H as c12 H12. apply Ok_inj in H. injection H as <- <- <-.
  keeps_step H1. keeps_step H2. keeps_step H3. keeps_step H4. keeps_step H5.
  keeps_step H6. keeps_step H7. keeps_step H9. keeps_step H10. keeps_step H11.
  keeps_step H12.
  split; [|reflexivity].
  repeat (eapply keeps_wiring_trans; [eassumption|]). apply keeps_wiring_refl.
Qed.

(** Taking a free input of the target lookup table and wiring a net to
    it. *)
Lemma bind_port_keeps (c c1 c2 : Context) (fp fp' : list string) (p : string) (pn : nat)
    (net tgt : string) :
  (forall q, In q fp -> In q ["I0"; "I1"; "I2"; "I3"]) ->
  take_port fp = Ok (p, pn, fp') ->
  disconnectPort c tgt p = Ok c1 ->
  connectPort c1 net tgt p = Ok c2 ->
  keeps_wiring c c2 /\ (forall q, In q fp' -> In q ["I0"; "I1"; "I2"; "I3"]).
Proof.
  intros Hfp Ht Hd Hc. apply take_port_In in Ht. destruct Ht as [Hp Hsub].
  assert (Hp' : In p ["I0"; "I1"; "I2"; "I3"; "O"; "D"]).
  { specialize (Hfp p Hp). simpl in *. tauto. }
  split; [|auto].
  eapply keeps_wiring_trans.
  - eapply disconnectPort_keeps; eassumption.
  - eapply connectPort_keeps; eassumption.
Qed.

Lemma bind_assoc_pair {A B C : Type} (m : result A) (f : A -> result B) (g : B -> result C) :
  bind (bind m f) g = bind m (fun a => bind (f a) g).
Proof. destruct m; reflexivity. Qed.

(** The first part of the loop body of [exec_convert]: the ports being
    removed are disconnected and the cell is retyped. *)
Lemma disconnect_controls (c c2 : Context) (conv : Z) (cell : string) (t t2 : string) :
  bind (if rm_rs_of conv
        then c1 <- disconnectPort c cell "R" ;;
             c1 <- disconnectPort c1 cell "S" ;;
             Ok (c1, Py.replace "SS" "" (Py.replace "SR" "" t))
        else Ok (c, t))
       (fun p => let '(c1, t1) := p in
                 if rm_ena_of conv
                 then c1 <- disconnectPort c1 cell "E" ;; Ok (c1, Py.replace "E" "" t1)
                 else Ok (c1, t1))
  = Ok (c2, t2) ->
  t2 = retype conv t
  /\ (forall x, type_of c2 x = type_of c x)
  /\ (forall x q, x <> cell -> net_name c2 x q = net_name c x q)
  /\ net_name c2 cell "R" = (if rm_rs_of conv then None else net_name c cell "R")
  /\ net_name c2 cell "S" = (if rm_rs_of conv then None else net_name c cell "S")
  /\ net_name c2 cell "E" = (if rm_ena_of conv then None else net_name c cell "E")
  /\ net_name c2 cell "C" = net_name c cell "C".
Proof.
  unfold retype. intros H. inv_bind H as [c1 t1] H1.
  assert (Hrs : t1 = (if rm_rs_of conv then Py.replace "SS" "" (Py.replace "SR" "" t) else t)
                /\ (forall x, type_of c1 x = type_of c x)
                /\ (forall x q, x <> cell -> net_name c1 x q = net_name c x q)
                /\ net_name c1 cell "R" = (if rm_rs_of conv then None else net_name c cell "R")
                /\ net_name c1 cell "S" = (if rm_rs_of conv then None else net_name c cell "S")
                /\ net_name c1 cell "E" = net_name c cell "E"
                /\ net_name c1 cell "C" = net_name c cell "C").
  { destruct (rm_rs_of conv).
    - inv_bind H1 as ca Ha. inv_bind H1 as cb Hb. apply Ok_inj in H1. injection H1 as <- <-.
      pose proof (disconnectPort_net _ _ _ _ Ha) as HR.
      pose proof (disconnectPort_net _ _ _ _ Hb) as HS.
      apply disconnectPort_rewires in Ha. apply disconnectPort_rewires in Hb.
      destruct Ha as [Hat Han], Hb as [Hbt Hbn].
      repeat split.
      + intros x. rewrite Hbt. apply Hat.
      + intros x q Hx. rewrite Hbn, Han by auto. reflexivity.
      + rewrite Hbn by (right; discriminate). assumption.
      + assumption.
      + rewrite Hbn, Han by (right; discriminate). reflexivity.
      + rewrite Hbn, Han by (right; discriminate). reflexivity.
    - apply Ok_inj in H1. injection H1 as <- <-. repeat split; reflexivity. }
  destruct Hrs as (-> & Ht1 & Hn1 & HR & HS & HE & HC).
  destruct (rm_ena_of conv).
  - inv_bind H as ca Ha. apply Ok_inj in H. injection H as <- <-.
    pose proof (disconnectPort_net _ _ _ _ Ha) as HE'.
    apply disconnectPort_rewires in Ha. destruct Ha as [Hat Han].
    repeat split.
    + intros x. rewrite Hat. apply Ht1.
    + intros x q Hx. rewrite Han, Hn1 by auto. reflexivity.
    + rewrite Han by (right; discriminate). assumption.
    + rewrite Han by (right; discriminate). assumption.
    + assumption.
    + rewrite Han by (right; discriminate). assumption.
  - apply Ok_inj in H. injection H as <- <-. repeat split; assumption.
Qed.

(** What converting one flip-flop does to the wiring that [from_cell]
    reads: the cell gets the edited type and loses the nets on the
    removed inputs; every other flip-flop is as before. *)
Lemma convert_cell_wiring (c c' : Context) (cset : ControlSet) (conv : Z) (cell : string) :
  convert_cell c cset conv cell = Ok c' ->
  is_ff c cell = true ->
  wiring c' cell
  = (retype conv (type_of c cell),
     if rm_rs_of conv then None else net_name c cell "R",
     if rm_rs_of conv then None else net_name c cell "S",
     if rm_ena_of conv then None else net_name c cell "E",
     net_name c cell "C")
  /\ forall x, is_ff c x = true -> x <> cell -> wiring c' x = wiring c x.
Proof.
  unfold convert_cell. intros H Hff.
  inv_bind H as [c1 t1] H1. inv_bind H as [c2 t2] H2.
  assert (Hdis : bind (if rm_rs_of conv
                       then c1 <- disconnectPort c cell "R" ;;
                            c1 <- disconnectPort c1 cell "S" ;;
                            Ok (c1, Py.replace "SS" "" (Py.replace "SR" "" (type_of c cell)))
                       else Ok (c, type_of c cell))
                      (fun p => let '(c1, t1) := p in
                                if rm_ena_of conv
                                then c1 <- disconnectPort c1 cell "E" ;;
                                     Ok (c1, Py.replace "E" "" t1)
                                else Ok (c1, t1))
                 = Ok (c2, t2))
    by (rewrite H1; exact H2).
  clear H1 H2 c1 t1.
  apply disconnect_controls in Hdis.
  destruct Hdis as (-> & Ht2 & Hn2 & HR & HS & HE & HC).
  assert (Hpres : assoc cell c2 <> None).
  { apply is_ff_present. unfold is_ff. rewrite Ht2. exact Hff. }
  destruct (set_type_wiring c2 cell (retype conv (type_of c cell)) Hpres) as [HtA HnA].
  set (cA := set_type c2 cell (retype conv (type_of c cell))) in *.
  assert (HwA : wiring cA cell
                = (retype conv (type_of c cell),
                   if rm_rs_of conv then None else net_name c cell "R",
                   if rm_rs_of conv then None else net_name c cell "S",
                   if rm_ena_of conv then None else net_name c cell "E",
                   net_name c cell "C")).
  { unfold wiring. rewrite HtA, String.eqb_refl, !HnA, HR, HS, HE, HC. reflexivity. }
  assert (HwO : forall x, x <> cell -> wiring cA x = wiring c x).
  { intros x Hx. unfold wiring. rewrite HtA, !HnA, Ht2, !Hn2 by assumption.
    apply String.eqb_neq in Hx. rewrite Hx. reflexivity. }
  assert (HffA : forall x, is_ff c x = true -> is_ff cA x = true).
  { intros x Hx. unfold is_ff. rewrite HtA.
    destruct (String.eqb_spec x cell) as [->|]; [apply retype_ff; exact Hff|].
    rewrite Ht2. exact Hx. }
  assert (Hkeep : keeps_wiring cA c').
  { inv_bind H as driver Hd. inv_bind H as fp Hfp.
    assert (Hfp_in : forall q, In q fp -> In q ["I0"; "I1"; "I2"; "I3"]).
    { destruct (type_of cA driver =? "SB_LUT4").
      - inv_bind Hfp as k Hk. destruct (Nat.eqb k 1).
        + intros q Hq. eapply lut_free_ports_In; eassumption.
        + apply Ok_inj in Hfp. subst fp. intros q [].
      - apply Ok_inj in Hfp. subst fp. intros q []. }
    inv_bind H as [[c3 tgt] fp3] Hins.
    assert (H3 : keeps_wiring cA c3 /\ forall q, In q fp3 -> In q ["I0"; "I1"; "I2"; "I3"]).
    { destruct (Nat.ltb (List.length fp) (n_in_of conv)).
      - apply insert_lut_keeps in Hins. destruct Hins as [Hk ->].
        split; [assumption|]. simpl. tauto.
      - apply Ok_inj in Hins. injection Hins as <- <- <-.
        split; [apply keeps_wiring_refl|assumption]. }
    destruct H3 as [Hk3 Hfp3].
    inv_bind H as [[c4 fp4] pn_rs] Hrs.
    assert (H4 : keeps_wiring c3 c4 /\ forall q, In q fp4 -> In q ["I0"; "I1"; "I2"; "I3"]).
    { destruct (rm_rs_of conv).
      - inv_bind Hrs as [[p_rs pn] fpr] Htake. inv_bind Hrs as ca Ha.
        inv_bind Hrs as net Hnet. inv_bind Hrs as cb Hb.
        apply Ok_inj in Hrs. injection Hrs as <- <- <-.
        eapply bind_port_keeps; eassumption.
      - apply Ok_inj in Hrs. injection Hrs as <- <- <-.
        split; [apply keeps_wiring_refl|assumption]. }
    destruct H4 as [Hk4 Hfp4].
    inv_bind H as [[c5 pn_ena] pn_old] Hena.
    assert (H5 : keeps_wiring c4 c5).
    { destruct (rm_ena_of conv).
      - inv_bind Hena as [[p_ena pne] fpe] Htake1.
        inv_bind Hena as [[p_old pno] fpo] Htake2.
        inv_bind Hena as ca Ha. inv_bind Hena as cb Hb.
        inv_bind Hena as net Hnet. inv_bind Hena as cc Hc.
        inv_bind Hena as q Hq. inv_bind Hena as q_net Hqn. inv_bind Hena as cd Hdd.
        apply Ok_inj in Hena. injection Hena as <- <- <-.
        apply take_port_In in Htake1. destruct Htake1 as [Hpe Hsub1].
        apply take_port_In in Htake2. destruct Htake2 as [Hpo _].
        assert (He : In p_ena ["I0"; "I1"; "I2"; "I3"; "O"; "D"]).
        { specialize (Hfp4 _ Hpe). simpl in *. tauto. }
        assert (Ho : In p_old ["I0"; "I1"; "I2"; "I3"; "O"; "D"]).
        { specialize (Hfp4 _ (Hsub1 _ Hpo)). simpl in *. tauto. }
        apply (disconnectPort_keeps _ _ _ _ He) in Ha.
        apply (disconnectPort_keeps _ _ _ _ Ho) in Hb.
        apply (connectPort_keeps _ _ _ _ _ He) in Hc.
        apply (connectPort_keeps _ _ _ _ _ Ho) in Hdd.
        repeat (eapply keeps_wiring_trans; [eassumption|]). apply keeps_wiring_refl.
      - apply Ok_inj in Hena. injection Hena as <- <- <-. apply keeps_wiring_refl. }
    inv_bind H as lut_init Hinit. inv_bind H as lut_init' Hupd.
    apply setParam_keeps in H.
    repeat (eapply keeps_wiring_trans; [eassumption|]). apply keeps_wiring_refl. }
  split.
  - rewrite (Hkeep cell (HffA cell Hff)). exact HwA.
  - intros x Hx Hne. rewrite (Hkeep x (HffA x Hx)). apply HwO. assumption.
Qed.

Lemma from_cell_wiring (c c' : Context) (x : string) :
  wiring c' x = wiring c x -> from_cell c' x = from_cell c x.
Proof.
  unfold wiring, from_cell. intros [= -> -> -> -> ->]. reflexivity.
Qed.

Lemma target_of_idem (conv : Z) (k : ControlSet) :
  target_of conv (target_of conv k) = target_of conv k.
Proof.
  unfold target_of. cbn [rs ena clk].
  destruct (rm_rs_of conv), (rm_ena_of conv); reflexivity.
Qed.

Lemma convert_cell_from_cell (c c' : Context) (cset : ControlSet) (conv : Z) (cell : string) :
  convert_cell c cset conv cell = Ok c' ->
  is_ff c cell = true ->
  forall x k,
    from_cell c x = Ok k ->
    from_cell c' x = Ok (if x =? cell then target_of conv k else k).
Proof.
  intros H Hff x k Hk.
  destruct (convert_cell_wiring _ _ _ _ _ H Hff) as [Hcell Hother].
  destruct (String.eqb_spec x cell) as [->|Hne].
  - rewrite (from_cell_ff c cell Hff) in Hk. apply Ok_inj in Hk. subst k.
    unfold from_cell. unfold wiring in Hcell. injection Hcell as -> -> -> -> ->.
    rewrite (retype_ff conv _ Hff). cbn [negb]. unfold target_of. cbn [rs ena clk].
    destruct (rm_rs_of conv), (rm_ena_of conv); reflexivity.
  - rewrite (from_cell_wiring c c' x); [assumption|].
    apply Hother; [|assumption]. eapply from_cell_Ok_ff. eassumption.
Qed.

Lemma convert_cells_from_cell (cset : ControlSet) (conv : Z) (cells : list string) :
  forall c c',
    convert_cells c cset conv cells = Ok c' ->
    (forall cell, In cell cells -> is_ff c cell = true) ->
    forall x k,
      from_cell c x = Ok k ->
      from_cell c' x = Ok (if Py.mem x cells then target_of conv k else k).
Proof.
  induction cells as [|cell cells IH]; cbn [convert_cells]; intros c c' H Hff x k Hk.
  - apply Ok_inj in H. subst c'. assumption.
  - inv_bind H as c1 H1.
    assert (Hff0 : is_ff c cell = true) by (apply Hff; left; reflexivity).
    pose proof (convert_cell_from_cell _ _ _ _ _ H1 Hff0) as Hstep.
    assert (Hff1 : forall y, In y cells -> is_ff c1 y = true).
    { intros y Hy. assert (Hy0 : is_ff c y = true) by (apply Hff; right; assumption).
      eapply from_cell_Ok_ff. apply Hstep. apply from_cell_ff. assumption. }
    rewrite (IH _ _ H Hff1 x _ (Hstep x k Hk)).
    unfold Py.mem. cbn [existsb].
    destruct (x =? cell), (existsb (String.eqb x) cells); cbn [orb];
      rewrite ?target_of_idem; reflexivity.
Qed.

Lemma exec_convert_from_cell
    (self self' : Optimizer) (cset : ControlSet) (conv : Z) :
  exec_convert self cset conv = Ok self' ->
  (forall cell, In cell (members (cset_map self) cset) -> is_ff (ctx self) cell = true) ->
  forall x k,
    from_cell (ctx self) x = Ok k ->
    from_cell (ctx self') x
    = Ok (if Py.mem x (members (cset_map self) cset) then target_of conv k else k).
Proof.
  unfold exec_convert. intros H Hff x k Hk.
  inv_bind H as cells Hcells. apply cs_get_Ok in Hcells.
  inv_bind H as c' Hc. apply Ok_inj in H. subst self'.
  unfold members in *. rewrite Hcells in *. cbn [ctx with_ctx].
  eapply convert_cells_from_cell; eassumption.
Qed.

(** X2: what [exec_convert] does to the control sets that the wiring of
    the netlist gives.  When the members of the converted set are
    flip-flops, a conversion that returns has turned the control set of
    each of them into the target signature of the removal, and has left
    the control set of every other flip-flop of the netlist as it was. *)
Theorem exec_convert_control_sets
    (self self' : Optimizer) (cset : ControlSet) (conv : Z) :
  exec_convert self cset conv = Ok self' ->
  (forall cell, In cell (members (cset_map self) cset) -> is_ff (ctx self) cell = true) ->
  forall x k,
    from_cell (ctx self) x = Ok k ->
    from_cell (ctx self') x
    = Ok (if Py.mem x (members (cset_map self) cset) then target_of conv k else k).
Proof. apply exec_convert_from_cell. Qed.

(** ** The index and the netlist stay in step *)

Lemma cs_remove_In (cur k : ControlSet) (cells : list string) (m : CsetMap) :
  In (k, cells) (cs_remove cur m) -> In (k, cells) m.
Proof.
  induction m as [|[k0 v0] m IH]; simpl; [tauto|].
  destruct (cset_eqb cur k0); simpl; [auto|]. intros [H|H]; auto.
Qed.

Lemma cs_remove_NoDup (cur : ControlSet) (m : CsetMap) :
  NoDup (cs_keys m) ->
  NoDup (cs_keys (cs_remove cur m)) /\ ~ In cur (cs_keys (cs_remove cur m)).
Proof.
  unfold cs_keys. induction m as [|[k0 v0] m IH]; simpl; intros Hnd.
  - split; [constructor|tauto].
  - inversion Hnd as [|? ? Hnin Hnd']; subst.
    destruct (cset_eqb cur k0) eqn:E.
    + apply cset_eqb_eq in E. subst k0. split; assumption.
    + apply cset_eqb_neq in E. destruct (IH Hnd') as [IH1 IH2]. simpl. split.
      * constructor; [|assumption]. intros Hin. apply Hnin.
        apply in_map_iff in Hin. destruct Hin as ([k v] & <- & Hin).
        apply cs_remove_In in Hin. apply (in_map fst) in Hin. exact Hin.
      * intros [H|H]; [congruence|contradiction].
Qed.

Lemma mem_In (x : string) (l : list string) : Py.mem x l = true <-> In x l.
Proof.
  unfold Py.mem. rewrite existsb_exists. split.
  - intros (y & Hy & E). apply String.eqb_eq in E. subst. assumption.
  - intros H. exists x. split; [assumption|apply String.eqb_refl].
Qed.

Lemma synced_ff (c : Context) (m : CsetMap) (k : ControlSet) :
  synced c m -> forall x, In x (members m k) -> is_ff c x = true.
Proof.
  intros Hs x Hx. unfold members in Hx.
  destruct (cs_lookup k m) as [cells|] eqn:El; [|contradiction].
  eapply from_cell_Ok_ff. eapply Hs; [apply cs_lookup_In; eassumption|assumption].
Qed.

(** Converting one control set and filing its cells under the target
    signature keeps the index in step with the netlist. *)
Lemma relocate_synced (self self1 : Optimizer) (cur tgt : ControlSet) (conv : Z)
    (cells_cur : list string) (m1 : CsetMap) :
  NoDup (cs_keys (cset_map self)) ->
  synced (ctx self) (cset_map self) ->
  target_of conv cur = tgt ->
  exec_convert self cur conv = Ok self1 ->
  cs_pop cur (cset_map self1) = Ok (cells_cur, m1) ->
  NoDup (cs_keys (cs_extend tgt cells_cur m1))
  /\ synced (ctx self1) (cs_extend tgt cells_cur m1).
Proof.
  intros Hnd Hs Htgt Hexec Hpop.
  pose proof (exec_convert_from_cell _ _ _ _ Hexec (synced_ff _ _ _ Hs)) as Hafter.
  destruct (exec_convert_frame _ _ _ _ Hexec) as [Hmap _]. rewrite Hmap in Hpop.
  unfold cs_pop in Hpop. inv_bind Hpop as cells Hcells. apply cs_get_Ok in Hcells.
  apply Ok_inj in Hpop. injection Hpop as <- <-.
  assert (Hmem : members (cset_map self) cur = cells)
    by (unfold members; rewrite Hcells; reflexivity).
  rewrite Hmem in Hafter.
  destruct (cs_remove_NoDup cur _ Hnd) as [Hnd1 Hnin].
  split; [apply cs_extend_NoDup; assumption|].
  assert (Hold : forall k v x, In (k, v) (cs_remove cur (cset_map self)) -> In x v ->
                   from_cell (ctx self1) x = Ok k).
  { intros k v x Hkv Hx.
    assert (Hk : from_cell (ctx self) x = Ok k).
    { eapply Hs; [eapply cs_remove_In; eassumption|assumption]. }
    rewrite (Hafter x k Hk).
    destruct (Py.mem x cells) eqn:Em; [|reflexivity].
    exfalso. apply mem_In in Em.
    assert (Hc : from_cell (ctx self) x = Ok cur).
    { eapply Hs; [apply cs_lookup_In; eassumption|assumption]. }
    rewrite Hk in Hc. apply Ok_inj in Hc. subst k.
    apply Hnin. apply (in_map fst) in Hkv. exact Hkv. }
  intros k v Hkv x Hx.
  apply cs_extend_In in Hkv.
  destruct Hkv as [Hkv|(-> & old & -> & Hold')]; [eapply Hold; eassumption|].
  apply in_app_or in Hx. destruct Hx as [Hx|Hx].
  - destruct Hold' as [->|Hin]; [contradiction|]. eapply Hold; eassumption.
  - assert (Hc : from_cell (ctx self) x = Ok cur).
    { eapply Hs; [apply cs_lookup_In; eassumption|assumption]. }
    rewrite (Hafter x cur Hc).
    apply mem_In in Hx. rewrite Hx, Htgt. reflexivity.
Qed.

Lemma apply_group_synced (tgt : ControlSet) (conv : Z) (group : list ControlSet) :
  forall self todo self' todo',
    apply_group self todo tgt conv group = Ok (self', todo') ->
    Forall (fun g => target_of conv g = tgt) group ->
    NoDup (cs_keys (cset_map self)) ->
    synced (ctx self) (cset_map self) ->
    NoDup (cs_keys (cset_map self')) /\ synced (ctx self') (cset_map self').
Proof.
  induction group as [|cur group IH]; cbn [apply_group];
    intros self todo self' todo' H Htgt Hnd Hs.
  - apply Ok_inj in H. injection H as <- <-. split; assumption.
  - apply Forall_cons_iff in Htgt. destruct Htgt as [Hcur Hrest].
    inv_bind H as self1 Hexec. inv_bind H as [cells_cur m1] Hpop.
    destruct (relocate_synced _ _ _ _ _ _ _ Hnd Hs Hcur Hexec Hpop) as [Hnd2 Hs2].
    eapply IH; [eassumption|assumption| |]; cbn [with_map cset_map ctx]; assumption.
Qed.

Lemma scan_alts_target self threshold conv tgt todo :
  forall n g n' g',
    Forall (fun x => target_of conv x = tgt) g ->
    scan_alts self threshold conv tgt todo n g = Ok (n', g') ->
    Forall (fun x => target_of conv x = tgt) g'.
Proof.
  induction todo as [|alt todo IH]; cbn [scan_alts]; intros n g n' g' Hg H.
  - apply Ok_inj in H. injection H as <- <-. assumption.
  - inv_bind H as alt_cells Halt.
    destruct (threshold <=? Z.of_nat (List.length alt_cells))%Z; [eauto|].
    inv_bind H as ok Hok.
    destruct (negb ok); [eauto|].
    destruct (cset_eqb tgt (target_of conv alt)) eqn:E; [|eauto].
    apply cset_eqb_eq in E.
    eapply IH; [|eassumption].
    apply Forall_app. split; [assumption|]. constructor; [congruence|constructor].
Qed.

(** Every control set of a candidate has the target of the candidate as
    its own target under the removal of the candidate. *)
Lemma candidates_target self threshold todo cset cells convs :
  forall cands,
    candidates self threshold todo cset cells convs = Ok cands ->
    Forall (fun c => Forall (fun x => target_of (cand_conv c) x = cand_tgt c) (cand_csets c))
           cands.
Proof.
  induction convs as [|conv convs IH]; cbn [candidates]; intros cands H.
  - apply Ok_inj in H. subst. constructor.
  - inv_bind H as o Ho. inv_bind H as r Hr. apply Ok_inj in H. subst cands.
    specialize (IH _ Hr).
    destruct o as [c|]; [|assumption].
    constructor; [|assumption].
    unfold evaluate in Ho. inv_bind Ho as ok Hok.
    destruct (negb ok); [discriminate|].
    inv_bind Ho as [n g] Hproj.
    destruct (Z.of_nat n <? threshold)%Z; [discriminate|].
    inv_bind Ho as cost Hcost. apply Ok_inj in Ho. injection Ho as <-.
    cbn [cand_conv cand_tgt cand_csets].
    unfold project in Hproj.
    assert (H0 : Forall (fun x => target_of conv x = target_of conv cset) [cset])
      by (repeat constructor).
    destruct (Py.truthy _ || Py.truthy _).
    + eapply scan_alts_target; eassumption.
    + apply Ok_inj in Hproj. injection Hproj as <- <-. assumption.
Qed.

Lemma step_synced threshold debug st cset rest st' :
  step threshold debug st cset rest = Ok st' ->
  NoDup (cs_keys (cset_map (run_self st))) ->
  synced (ctx (run_self st)) (cset_map (run_self st)) ->
  NoDup (cs_keys (cset_map (run_self st')))
  /\ synced (ctx (run_self st')) (cset_map (run_self st')).
Proof.
  unfold step. intros H Hnd Hs. inv_bind H as cells Hcells.
  destruct (threshold <=? Z.of_nat (List.length cells))%Z.
  { apply Ok_inj in H. subst st'. split; assumption. }
  inv_bind H as cands Hcands.
  pose proof (candidates_target _ _ _ _ _ _ _ Hcands) as Htgt.
  destruct cands as [|c0 cands'] eqn:Ec.
  { apply Ok_inj in H. subst st'. split; assumption. }
  rewrite <- Ec in *. clear Ec.
  inv_bind H as dbg Hdbg. inv_bind H as best Hbest. inv_bind H as [self' todo'] Happ.
  apply Ok_inj in H. subst st'. cbn [run_self].
  apply from_option_Some in Hbest. apply hd_error_In in Hbest.
  eapply Permutation_in in Hbest; [|apply sorted_perm].
  rewrite Forall_forall in Htgt.
  eapply apply_group_synced; [eassumption|apply Htgt; assumption|assumption|assumption].
Qed.

(** X3: the index stays in step with the netlist.  When the keys of the
    index are distinct and every flip-flop is filed under the control
    set that its wiring gives, as after [build_map], the same holds after
    a run of [optimize] that returns: each flip-flop that was converted
    is wired to, and filed under, the target signature of its group. *)
Theorem optimize_keeps_index_in_step
    (self self' : Optimizer) (threshold : Z) (debug : bool) (out : list line) :
  NoDup (cs_keys (cset_map self)) ->
  synced (ctx self) (cset_map self) ->
  optimize self threshold debug = Some (Ok (self', out)) ->
  NoDup (cs_keys (cset_map self')) /\ synced (ctx self') (cset_map self').
Proof.
  intros Hnd Hs H.
  apply optimize_Ok in H. destruct H as (fuel & todo & st & Hloop & <-).
  apply (optimize_loop_inv
           (fun st => NoDup (cs_keys (cset_map (run_self st)))
                      /\ synced (ctx (run_self st)) (cset_map (run_self st)))
           threshold debug) with (3 := Hloop).
  - intros st0 cs rest st1 [Hnd0 Hs0] _ Hstep. eapply step_synced; eassumption.
  - split; assumption.
Qed.

(** ** The number of control sets *)

Lemma cs_remove_length (k : ControlSet) (m : CsetMap) (cells : list string) :
  cs_lookup k m = Some cells -> S (List.length (cs_remove k m)) = List.length m.
Proof.
  induction m as [|[k0 v0] m IH]; simpl; [discriminate|].
  destruct (cset_eqb k k0); [reflexivity|]. intros H. simpl. f_equal. apply IH. assumption.
Qed.

Lemma cs_extend_length (tgt : ControlSet) (cells : list string) (m : CsetMap) :
  List.length (cs_extend tgt cells m)
  = List.length m + (match cs_lookup tgt m with Some _ => 0 | None => 1 end).
Proof.
  induction m as [|[k0 v0] m IH]; simpl; [reflexivity|].
  destruct (cset_eqb tgt k0); simpl; [lia|]. rewrite IH. lia.
Qed.

Lemma cs_extend_present (tgt : ControlSet) (cells : list string) (m : CsetMap) :
  cs_lookup tgt (cs_extend tgt cells m) <> None.
Proof.
  induction m as [|[k0 v0] m IH]; simpl.
  - rewrite cset_eqb_refl. discriminate.
  - destruct (cset_eqb tgt k0) eqn:E; simpl; rewrite E; [discriminate|assumption].
Qed.

(** Applying a group none of whose control sets is the target removes
    the control sets of the group and adds the target if it is new. *)
Lemma apply_group_count (tgt : ControlSet) (conv : Z) (group : list ControlSet) :
  forall self todo self' todo',
    apply_group self todo tgt conv group = Ok (self', todo') ->
    (forall g, In g group -> g <> tgt) ->
    List.length (cset_map self') + List.length group
    = List.length (cset_map self)
      + (match group, cs_lookup tgt (cset_map self) with
         | _ :: _, None => 1
         | _, _ => 0
         end).
Proof.
  induction group as [|cur group IH]; cbn [apply_group];
    intros self todo self' todo' H Hne.
  - apply Ok_inj in H. injection H as <- <-. simpl. lia.
  - inv_bind H as self1 Hexec.
    destruct (exec_convert_frame _ _ _ _ Hexec) as [Hmap _].
    inv_bind H as [cells_cur m1] Hpop.
    unfold cs_pop in Hpop. inv_bind Hpop as cells Hcells. apply cs_get_Ok in Hcells.
    apply Ok_inj in Hpop. injection Hpop as <- <-. rewrite Hmap in *.
    apply IH in H; [|intros g Hg; apply Hne; right; assumption].
    cbn [with_map cset_map] in H.
    assert (Hcur : tgt <> cur) by (intros ->; apply (Hne cur); [left|]; reflexivity).
    rewrite cs_extend_length, (cs_lookup_remove_other _ _ _ Hcur) in H.
    pose proof (cs_remove_length _ _ _ Hcells) as Hlen.
    pose proof (cs_extend_present tgt cells (cs_remove cur (cset_map self))) as Hpres.
    cbn [List.length].
    destruct (cs_lookup tgt (cs_extend tgt cells (cs_remove cur (cset_map self))));
      [|congruence].
    destruct group; destruct (cs_lookup tgt (cset_map self)); lia.
Qed.

(** A removal that is legal and removes something changes the
    signature. *)
Lemma legal_changes_signature (self : Optimizer) (k : ControlSet) (conv : Z) :
  can_convert self k conv = Ok true ->
  rm_rs_of conv || rm_ena_of conv = true ->
  target_of conv k <> k.
Proof.
  unfold can_convert, target_of. intros H Hrm.
  destruct k as [r e cl]. cbn [rs ena clk] in *.
  destruct r as [r|]; cbn [bind] in H.
  - destruct (rm_rs_of conv); [discriminate|]. cbn [orb] in Hrm. rewrite Hrm in *.
    inv_bind H as has_rs Hh. destruct e as [e|]; [discriminate|].
    destruct has_rs; discriminate.
  - destruct (rm_rs_of conv); [discriminate|]. cbn [orb] in Hrm. rewrite Hrm in *.
    cbn [andb negb] in H. destruct e as [e|]; [discriminate|discriminate].
Qed.

Lemma scan_alts_grows self threshold conv tgt todo :
  forall n g n' g',
    scan_alts self threshold conv tgt todo n g = Ok (n', g') ->
    (n' = n /\ g' = g) \/ List.length g < List.length g'.
Proof.
  induction todo as [|alt todo IH]; cbn [scan_alts]; intros n g n' g' H.
  - apply Ok_inj in H. injection H as <- <-. left. split; reflexivity.
  - inv_bind H as alt_cells Halt.
    destruct (threshold <=? Z.of_nat (List.length alt_cells))%Z; [eauto|].
    inv_bind H as ok Hok.
    destruct (negb ok); [eauto|].
    destruct (cset_eqb tgt (target_of conv alt)); [|eauto].
    right. apply IH in H. rewrite length_app in H. simpl in H.
    destruct H as [[_ ->]|H]; rewrite ?length_app; simpl; lia.
Qed.

Lemma scan_alts_legal self threshold conv tgt todo :
  forall n g n' g',
    Forall (fun x => can_convert self x conv = Ok true) g ->
    scan_alts self threshold conv tgt todo n g = Ok (n', g') ->
    Forall (fun x => can_convert self x conv = Ok true) g'.
Proof.
  induction todo as [|alt todo IH]; cbn [scan_alts]; intros n g n' g' Hg H.
  - apply Ok_inj in H. injection H as <- <-. assumption.
  - inv_bind H as alt_cells Halt.
    destruct (threshold <=? Z.of_nat (List.length alt_cells))%Z; [eauto|].
    inv_bind H as ok Hok.
    destruct ok; cbn [negb] in H; [|eauto].
    destruct (cset_eqb tgt (target_of conv alt)); [|eauto].
    eapply IH; [|eassumption].
    apply Forall_app. split; [assumption|]. repeat constructor. assumption.
Qed.

(** The candidates of a control set below the threshold: no control
    set of a group is the target of the group, and a group of one goes
    to a target that has a bucket already. *)
Lemma candidates_shrink self threshold todo cset cells convs :
  (Z.of_nat (List.length cells) < threshold)%Z ->
  Forall (fun conv => rm_rs_of conv || rm_ena_of conv = true) convs ->
  forall cands,
    candidates self threshold todo cset cells convs = Ok cands ->
    Forall (fun c =>
              (forall g, In g (cand_csets c) -> g <> cand_tgt c)
              /\ (cs_lookup (cand_tgt c) (cset_map self) <> None
                  \/ 2 <= List.length (cand_csets c))
              /\ cand_csets c <> [])
           cands.
Proof.
  intros Hlt. induction 1 as [|conv convs Hconv Hconvs IH]; cbn [candidates]; intros cands H.
  - apply Ok_inj in H. subst. constructor.
  - inv_bind H as o Ho. inv_bind H as r Hr. apply Ok_inj in H. subst cands.
    specialize (IH _ Hr).
    destruct o as [c|]; [|assumption].
    constructor; [|assumption].
    unfold evaluate in Ho. inv_bind Ho as ok Hok.
    destruct ok; cbn [negb] in Ho; [|discriminate].
    inv_bind Ho as [n g] Hproj.
    destruct (Z.of_nat n <? threshold)%Z eqn:Hn; [discriminate|].
    apply Z.ltb_ge in Hn.
    inv_bind Ho as cost Hcost. apply Ok_inj in Ho. injection Ho as <-.
    cbn [cand_conv cand_tgt cand_csets].
    unfold project in Hproj.
    assert (Hleg0 : Forall (fun x => can_convert self x conv = Ok true) [cset])
      by (repeat constructor; assumption).
    assert (Htgt0 : Forall (fun x => target_of conv x = target_of conv cset) [cset])
      by (repeat constructor).
    assert (Hfacts : Forall (fun x => can_convert self x conv = Ok true) g
                     /\ Forall (fun x => target_of conv x = target_of conv cset) g
                     /\ ((n = List.length cells
                              + match cs_lookup (target_of conv cset) (cset_map self) with
                                | Some l => List.length l
                                | None => 0
                                end
                          /\ g = [cset])
                         \/ 2 <= List.length g)).
    { destruct (Py.truthy _ || Py.truthy _).
      - split; [eapply scan_alts_legal; eassumption|].
        split; [eapply scan_alts_target; eassumption|].
        apply scan_alts_grows in Hproj. destruct Hproj as [[-> ->]|Hl].
        + left. split; [|reflexivity].
          destruct (cs_lookup _ _); lia.
        + right. simpl in Hl. lia.
      - apply Ok_inj in Hproj. injection Hproj as <- <-.
        split; [assumption|]. split; [assumption|].
        left. split; [|reflexivity]. destruct (cs_lookup _ _); lia. }
    destruct Hfacts as (Hleg & Htgt & Hsize).
    rewrite Forall_forall in Hleg, Htgt.
    split; [|split].
    + intros x Hx Heq. apply (legal_changes_signature self x conv (Hleg x Hx) Hconv).
      rewrite (Htgt x Hx). symmetry. assumption.
    + destruct Hsize as [[-> ->]|Hl]; [|right; assumption].
      left. destruct (cs_lookup _ _); [discriminate|]. lia.
    + destruct Hsize as [[_ ->]|Hl]; [discriminate|].
      intros ->. simpl in Hl. lia.
Qed.

(** One round of the loop either leaves the optimizer as it is or
    leaves fewer control sets. *)
Lemma step_shrinks threshold debug st cset rest st' :
  step threshold debug st cset rest = Ok st' ->
  (run_self st' = run_self st /\ total_cost st' = total_cost st)
  \/ List.length (cset_map (run_self st')) < List.length (cset_map (run_self st)).
Proof.
  unfold step. intros H. inv_bind H as cells Hcells.
  destruct (threshold <=? Z.of_nat (List.length cells))%Z eqn:Hth.
  { apply Ok_inj in H. subst st'. left. split; reflexivity. }
  apply Z.leb_gt in Hth.
  inv_bind H as cands Hcands.
  assert (Hconvs : Forall (fun conv => rm_rs_of conv || rm_ena_of conv = true) [1; 2; 3]%Z)
    by (repeat constructor).
  pose proof (candidates_shrink _ _ _ _ _ _ Hth Hconvs _ Hcands) as Hfacts.
  destruct cands as [|c0 cands'] eqn:Ec.
  { apply Ok_inj in H. subst st'. left. split; reflexivity. }
  rewrite <- Ec in *. clear Ec.
  inv_bind H as dbg Hdbg. inv_bind H as best Hbest. inv_bind H as [self' todo'] Happ.
  apply Ok_inj in H. subst st'. cbn [run_self]. right.
  apply from_option_Some in Hbest. apply hd_error_In in Hbest.
  eapply Permutation_in in Hbest; [|apply sorted_perm].
  rewrite Forall_forall in Hfacts. destruct (Hfacts best Hbest) as (Hne & Hsize & Hnil).
  apply apply_group_count in Happ; [|assumption].
  destruct (cand_csets best) as [|g0 grp]; [congruence|].
  cbn [List.length] in *.
  destruct Hsize as [Hp|Hl].
  - destruct (cs_lookup (cand_tgt best) (cset_map (run_self st))); [lia|congruence].
  - destruct (cs_lookup (cand_tgt best) (cset_map (run_self st))); lia.
Qed.

(** X4: a run of [optimize] that returns has not increased the number of
    control sets, and when the number is the same as before, the run has
    changed nothing: netlist and index are as they were. *)
Theorem optimize_merges_or_leaves_alone
    (self self' : Optimizer) (threshold : Z) (debug : bool) (out : list line) :
  optimize self threshold debug = Some (Ok (self', out)) ->
  List.length (cset_map self') <= List.length (cset_map self)
  /\ (List.length (cset_map self') = List.length (cset_map self) -> self' = self).
Proof.
  intros H. apply optimize_Ok in H. destruct H as (fuel & todo & st & Hloop & <-).
  assert (Hinv : run_self st = self
                 \/ List.length (cset_map (run_self st)) < List.length (cset_map self)).
  { apply (optimize_loop_inv
             (fun st => run_self st = self
                        \/ List.length (cset_map (run_self st)) < List.length (cset_map self))
             threshold debug) with (3 := Hloop); [|left; reflexivity].
    intros st0 cs rest st1 Hst0 _ Hstep. cbv beta in *. apply step_shrinks in Hstep.
    destruct Hstep as [[Hsame _]|Hless]; destruct Hst0 as [H0|H0].
    - left. congruence.
    - right. rewrite Hsame. assumption.
    - right. rewrite H0 in Hless. assumption.
    - right. lia. }
  destruct Hinv as [->|Hlt].
  - split; [lia|reflexivity].
  - split; [lia|]. intros Heq. lia.
Qed.

(** ** Runs that have nothing to do *)

Lemma pop_Forall {A : Type} (P : A -> Prop) (l r : list A) (x : A) :
  Py.pop l = Some (x, r) -> Forall P l -> P x /\ Forall P r.
Proof.
  intros Hpop Hl. apply pop_In in Hpop. destruct Hpop as [Hx Hr].
  rewrite Forall_forall in Hl. split; [auto|]. apply Forall_forall. auto.
Qed.

Lemma pop_nil {A : Type} (l : list A) : Py.pop l = None -> l = [].
Proof.
  destruct l as [|a l]; [reflexivity|]. simpl.
  destruct (Py.pop l) as [[? ?]|]; discriminate.
Qed.

(** A work list of well-used control sets is popped to the end without
    anything else happening. *)
Lemma optimize_loop_well_used threshold debug self cost out :
  forall fuel todo,
    List.length todo <= fuel ->
    Forall (fun k => exists l, cs_lookup k (cset_map self) = Some l
                               /\ (threshold <= Z.of_nat (List.length l))%Z) todo ->
    optimize_loop fuel threshold debug (mkRun self todo cost out)
    = Some (Ok (mkRun self [] cost out)).
Proof.
  induction fuel as [|fuel IH]; intros todo Hlen Hall; cbn [optimize_loop to_process].
  - destruct todo; [reflexivity|simpl in Hlen; lia].
  - destruct (Py.pop todo) as [[cset rest]|] eqn:Hpop.
    + destruct (pop_Forall _ _ _ _ Hpop Hall) as [(l & Hl & Hth) Hrest].
      apply pop_length in Hpop.
      unfold step. cbn [run_self total_cost output]. unfold cs_get. rewrite Hl.
      cbn [from_option bind]. apply Z.leb_le in Hth. rewrite Hth.
      apply IH; [lia|assumption].
    + apply pop_nil in Hpop. subst. reflexivity.
Qed.

Lemma cs_keys_present (k : ControlSet) (m : CsetMap) :
  In k (cs_keys m) -> exists l, cs_lookup k m = Some l.
Proof.
  unfold cs_keys. induction m as [|[k0 v0] m IH]; simpl; [tauto|].
  intros H. destruct (cset_eqb k k0) eqn:E; [eauto|].
  apply cset_eqb_neq in E. destruct H as [H|H]; [congruence|auto].
Qed.

(** X5: when every bucket of the index has at least [threshold] members
    (as whenever the threshold is 0 or negative, or the index is
    empty), [optimize] returns without changing netlist
    or index and reports cost 0 and the same count before and after. *)
Theorem optimize_leaves_well_used_index
    (self : Optimizer) (threshold : Z) (debug : bool) :
  (forall k l, cs_lookup k (cset_map self) = Some l ->
               (threshold <= Z.of_nat (List.length l))%Z) ->
  optimize self threshold debug
  = Some (Ok (self, [Summary 0 (List.length (cset_map self))
                             (List.length (cset_map self))])).
Proof.
  intros Hall. unfold optimize.
  rewrite optimize_loop_well_used; [reflexivity|apply Nat.le_refl|].
  apply Forall_forall. intros k Hk.
  eapply Permutation_in in Hk; [|apply sorted_perm].
  destruct (cs_keys_present _ _ Hk) as (l & Hl). eauto.
Qed.

(** ** Legality, cost and free inputs *)

(** X6: the outcome of [can_convert] on a control set.  For a set that
    is not in the index, the call raises [KeyError] as soon as the set
    has a reset/set net.  For a set in the index, with [pinned] telling
    whether a member has an asynchronous type: reset-only removal is
    accepted exactly when a reset/set net is connected and no member is
    pinned; both-removal exactly when moreover an enable net is
    connected; enable-only removal exactly when an enable net is
    connected and the reset/set is absent or pinned (so it is accepted on
    a set with an asynchronous reset). *)
Theorem can_convert_decision_table (self : Optimizer) (cset : ControlSet) :
  (cs_lookup cset (cset_map self) = None -> rs cset <> None ->
   forall conv, can_convert self cset conv = Raise KeyError)
  /\ (forall cells,
         cs_lookup cset (cset_map self) = Some cells ->
         let pinned := existsb (is_async (ctx self)) cells in
         (can_convert self cset 1 = Ok true <-> rs cset <> None /\ pinned = false)
         /\ (can_convert self cset 2 = Ok true
             <-> ena cset <> None /\ (rs cset = None \/ pinned = true))
         /\ (can_convert self cset 3 = Ok true
             <-> rs cset <> None /\ ena cset <> None /\ pinned = false)).
Proof.
  split.
  - intros Hnone Hrs conv. unfold can_convert, cs_get. rewrite Hnone.
    destruct (rs cset); [reflexivity|congruence].
  - intros cells Hget pinned. unfold can_convert, cs_get. rewrite Hget.
    cbn [from_option bind]. fold (is_async (ctx self)). fold pinned.
    change (rm_rs_of 1) with true. change (rm_ena_of 1) with false.
    change (rm_rs_of 2) with false. change (rm_ena_of 2) with true.
    change (rm_rs_of 3) with true. change (rm_ena_of 3) with true.
    destruct (rs cset) as [r|], (ena cset) as [e|], pinned; cbn;
      repeat split; try congruence; try tauto;
      try (intros (H1 & H2); congruence);
      try (intros (H1 & H2 & H3); congruence);
      try (intros (H1 & [H2|H2]); congruence);
      try (split; [discriminate|auto]);
      try (repeat split; discriminate).
Qed.

Lemma cost_cell_bounds (c : Context) (n_in : nat) (cell : string) (k : nat) :
  cost_cell c n_in cell = Ok k ->
  k <= 1
  /\ (n_in = 0 -> k = 0)
  /\ forall n_in', exists k', cost_cell c n_in' cell = Ok k' /\ (n_in <= n_in' -> k <= k').
Proof.
  unfold cost_cell. intros H. inv_bind H as d Hd. rewrite Hd. cbn [bind].
  destruct (negb (type_of c d =? "SB_LUT4")).
  { apply Ok_inj in H. subst k. split; [lia|]. split; [reflexivity|].
    intros n'. exists 0. split; [reflexivity|lia]. }
  inv_bind H as fo Hfo. rewrite Hfo. cbn [bind].
  destruct (Nat.ltb 1 fo).
  { apply Ok_inj in H. subst k. split; [lia|]. split; [reflexivity|].
    intros n'. exists 0. split; [reflexivity|lia]. }
  inv_bind H as fp Hfp. rewrite Hfp. cbn [bind].
  destruct (Nat.ltb_spec (List.length fp) n_in) as [Hlt|Hge]; apply Ok_inj in H; subst k.
  - split; [lia|]. split; [lia|]. intros n'.
    destruct (Nat.ltb_spec (List.length fp) n') as [Hlt'|Hge'];
      eexists; (split; [reflexivity|lia]).
  - split; [lia|]. split; [reflexivity|]. intros n'.
    destruct (Nat.ltb (List.length fp) n'); eexists; (split; [reflexivity|lia]).
Qed.

Lemma cost_cells_bounds (c : Context) (n_in : nat) (cells : list string) :
  forall acc n,
    cost_cells c n_in cells acc = Ok n ->
    acc <= n <= acc + List.length cells
    /\ (n_in = 0 -> n = acc)
    /\ forall n_in' acc',
         exists n', cost_cells c n_in' cells acc' = Ok n'
                    /\ (n_in <= n_in' -> n - acc <= n' - acc') /\ acc' <= n'.
Proof.
  induction cells as [|cell cells IH]; cbn [cost_cells]; intros acc n H.
  - apply Ok_inj in H. subst n. simpl. split; [lia|]. split; [reflexivity|].
    intros n' acc'. exists acc'. split; [reflexivity|]. split; lia.
  - inv_bind H as k Hk.
    destruct (cost_cell_bounds _ _ _ _ Hk) as (Hk1 & Hk0 & Hkm).
    destruct (IH _ _ H) as (Hb & H0 & Hm).
    cbn [List.length]. split; [lia|]. split.
    + intros Hz. rewrite (H0 Hz), (Hk0 Hz). lia.
    + intros n' acc'. destruct (Hkm n') as (k' & Hk' & Hkk).
      destruct (Hm n' (acc' + k')) as (r & Hr & Hrr & Hacc).
      exists r. rewrite Hk'. cbn [bind]. split; [assumption|]. split; [|lia].
      intros Hle. specialize (Hkk Hle). specialize (Hrr Hle). lia.
Qed.

(** X7: bounds on the cost.  A cost returned for a control set is at
    most the number of its members and is 0 when nothing is removed;
    when [cost_convert] returns for one removal option it returns for
    every option, with a cost that is at least as large for an option
    that needs at least as many spare inputs: reset-only costs at most
    as much as enable-only, which costs at most as much as both. *)
Theorem cost_convert_bounds (self : Optimizer) (cset : ControlSet) (conv : Z) (n : nat) :
  cost_convert self cset conv = Ok n ->
  n <= List.length (members (cset_map self) cset)
  /\ (n_in_of conv = 0 -> n = 0)
  /\ (forall conv',
         exists n', cost_convert self cset conv' = Ok n'
                    /\ (n_in_of conv <= n_in_of conv' -> n <= n'))
  /\ (n_in_of 1 <= n_in_of 2 /\ n_in_of 2 <= n_in_of 3).
Proof.
  unfold cost_convert, members, cs_get. intros H.
  destruct (cs_lookup cset (cset_map self)) as [cells|]; [|discriminate].
  cbn [from_option bind] in *.
  destruct (cost_cells_bounds _ _ _ _ _ H) as (Hb & H0 & Hm).
  split; [lia|]. split; [assumption|]. split.
  - intros conv'. destruct (Hm (n_in_of conv') 0) as (n' & Hn' & Hle & _).
    exists n'. split; [assumption|]. intros Hc. specialize (Hle Hc). lia.
  - split; cbv; lia.
Qed.

(** X8: the list returned by [_lut_free_ports] is, in the order [I0],
    [I1], [I2], [I3], exactly the inputs of the lookup table that are
    unconnected or tied to a [GND] cell, without [I1] and [I2] when a
    carry cell is matched on their nets: no input that carries a signal
    is ever offered for rewiring. *)
Theorem lut_free_ports_are_the_unused_inputs (c : Context) (lut : string) (fp : list string) :
  _lut_free_ports c lut = Ok fp ->
  fp = filter (fun p => free_input c lut p
                        && negb (has_carry c lut && Py.mem p ["I1"; "I2"]))
              ["I0"; "I1"; "I2"; "I3"].
Proof.
  unfold _lut_free_ports. intros H.
  inv_bind H as l0 Hl0. apply unused_among_filter in Hl0.
  inv_bind H as carry Hcarry. rewrite (cell_has_carry_Ok _ _ _ Hcarry). subst l0.
  cbn [filter] in *.
  destruct carry; apply Ok_inj in H; subst fp;
    destruct (free_input c lut "I0"), (free_input c lut "I1"),
             (free_input c lut "I2"), (free_input c lut "I3"); reflexivity.
Qed.

(** ** The truth-table rewrite: failures, width and repetition *)

Lemma lut_loop_no_feedback pn_rs rs_val pe val idx :
  lut_loop pn_rs rs_val (Some pe) None val (0 :: idx) = Raise TypeError.
Proof.
  cbn [lut_loop]. unfold lut_step.
  assert (H0 : forall p, bit_and (Z.of_nat 0) p = false).
  { intros p. rewrite bit_and_testbit. unfold input_bit. apply Z.bits_0. }
  rewrite H0. destruct pn_rs as [p|]; [rewrite H0|]; reflexivity.
Qed.

Lemma format_016b_min (val : Z) : 16 <= List.length (format_016b val).
Proof.
  unfold format_016b. rewrite length_map, length_rev, length_seq. lia.
Qed.

Lemma format_016b_testbit (val : Z) (i : nat) :
  (0 <= val)%Z -> table_bit (format_016b val) i = Z.testbit val (Z.of_nat i).
Proof.
  intros Hval. unfold table_bit, format_016b.
  rewrite <- map_rev, rev_involutive.
  set (w := Nat.max 16 (Z.to_nat (Z.log2 val) + 1)).
  destruct (Nat.lt_ge_cases i w) as [Hw|Hw].
  - rewrite (nth_indep _ false (Z.testbit val (Z.of_nat 0)))
      by (rewrite length_map, length_seq; assumption).
    rewrite (map_nth (fun k => Z.testbit val (Z.of_nat k))), seq_nth by assumption.
    reflexivity.
  - rewrite nth_overflow by (rewrite length_map, length_seq; assumption).
    symmetry. destruct (Z.eq_dec val 0) as [->|Hne]; [apply Z.bits_0|].
    apply Z.bits_above_log2; [assumption|].
    pose proof (Z.log2_nonneg val). unfold w in Hw. lia.
Qed.

(** Reading back a printed value gives the value. *)
Lemma int_bits_format (val : Z) : (0 <= val)%Z -> int_bits (format_016b val) = Ok val.
Proof.
  intros Hval. unfold int_bits.
  destruct (format_016b val) as [|b l] eqn:E.
  { pose proof (format_016b_min val) as H. rewrite E in H. simpl in H. lia. }
  f_equal. apply Z.bits_inj'. intros n Hn.
  rewrite <- (Z2Nat.id n Hn), int_bits_testbit, <- E.
  apply format_016b_testbit. assumption.
Qed.

Lemma edited_bit_idem pn_rs rs_val pn_ena po i b :
  edited_bit pn_rs rs_val pn_ena po i (edited_bit pn_rs rs_val pn_ena po i b)
  = edited_bit pn_rs rs_val pn_ena po i b.
Proof.
  unfold edited_bit.
  destruct pn_rs as [p|], pn_ena as [pe|];
    repeat match goal with
           | |- context [input_bit i ?q] => destruct (input_bit i q)
           end; reflexivity.
Qed.

Lemma lut_loop_idem pn_rs rs_val pn_ena pn_old val val' :
  lut_loop pn_rs rs_val pn_ena pn_old val (seq 0 16) = Ok val' ->
  lut_loop pn_rs rs_val pn_ena pn_old val' (seq 0 16) = Ok val'.
Proof.
  assert (Hsome : forall pe po,
             lut_loop pn_rs rs_val pe (Some po) val (seq 0 16) = Ok val' ->
             lut_loop pn_rs rs_val pe (Some po) val' (seq 0 16) = Ok val').
  { intros pe po H.
    assert (Hnd : NoDup (seq 0 16)) by apply seq_NoDup.
    destruct (lut_loop_bit pn_rs rs_val pe po (seq 0 16) Hnd val' 0) as (v2 & Hv2 & _).
    rewrite Hv2. f_equal. apply Z.bits_inj'. intros n Hn.
    rewrite <- (Z2Nat.id n Hn). set (j := Z.to_nat n).
    destruct (lut_loop_bit pn_rs rs_val pe po (seq 0 16) Hnd val' j) as (w2 & Hw2 & Hb2).
    rewrite Hv2 in Hw2. apply Ok_inj in Hw2. subst w2.
    destruct (lut_loop_bit pn_rs rs_val pe po (seq 0 16) Hnd val j) as (w1 & Hw1 & Hb1).
    rewrite H in Hw1. apply Ok_inj in Hw1. subst w1.
    rewrite Hb2. destruct (existsb (Nat.eqb j) (seq 0 16)); [|reflexivity].
    rewrite Hb1. apply edited_bit_idem. }
  destruct pn_old as [po|]; [apply Hsome|].
  destruct pn_ena as [pe|].
  - change (seq 0 16) with (0 :: seq 1 15). rewrite lut_loop_no_feedback. discriminate.
  - rewrite !(lut_loop_no_enable pn_rs rs_val None (Some 0)). apply Hsome.
Qed.

Lemma lut_loop_no_edit rs_val pn_old idx :
  forall val, lut_loop None rs_val None pn_old val idx = Ok val.
Proof.
  induction idx as [|i idx IH]; intros val; [reflexivity|].
  cbn [lut_loop]. unfold lut_step. cbn [bind]. apply IH.
Qed.

Lemma table_bit_ext (a b : bits) :
  List.length a = List.length b ->
  (forall i, table_bit a i = table_bit b i) ->
  a = b.
Proof.
  intros Hlen H. rewrite <- (rev_involutive a), <- (rev_involutive b). f_equal.
  apply (nth_ext _ _ false false); [rewrite !length_rev; assumption|].
  intros i _. apply H.
Qed.

Lemma table_bit_pad (k : nat) (tbl : bits) (i : nat) :
  table_bit (repeat false k ++ tbl) i = table_bit tbl i.
Proof.
  unfold table_bit. rewrite rev_app_distr.
  destruct (Nat.lt_ge_cases i (List.length (rev tbl))) as [Hi|Hi].
  - apply app_nth1. assumption.
  - rewrite app_nth2 by assumption. rewrite (nth_overflow (rev tbl)) by assumption.
    generalize (i - List.length (rev tbl)) as n. intros n.
    destruct (Nat.lt_ge_cases n (List.length (rev (repeat false k)))) as [Hn|Hn].
    + assert (Hin : In (nth n (rev (repeat false k)) false) (repeat false k))
        by (apply in_rev, nth_In; assumption).
      apply repeat_spec in Hin. assumption.
    + apply nth_overflow. assumption.
Qed.

(** X9: how [_update_lut_init] ends.  On the empty string it raises
    [ValueError].  On a non-empty table it raises [TypeError] when an
    enable position is given without a feedback position, whatever the
    table and the positions, and returns in every other case.  What it
    returns has at least sixteen digits, and exactly sixteen when the
    table had at most sixteen. *)
Theorem update_lut_init_outcome
    (pn_rs : option nat) (rs_val : bool) (pn_ena pn_old : option nat) :
  _update_lut_init [] pn_rs rs_val pn_ena pn_old = Raise ValueError
  /\ (forall b tbl pe,
         _update_lut_init (b :: tbl) pn_rs rs_val (Some pe) None = Raise TypeError)
  /\ (forall b tbl,
         pn_ena = None \/ pn_old <> None ->
         exists out,
           _update_lut_init (b :: tbl) pn_rs rs_val pn_ena pn_old = Ok out
           /\ 16 <= List.length out
           /\ (List.length (b :: tbl) <= 16 -> List.length out = 16)).
Proof.
  split; [reflexivity|]. split.
  - intros b tbl pe. unfold _update_lut_init, int_bits. cbn [bind].
    change (seq 0 16) with (0 :: seq 1 15). rewrite lut_loop_no_feedback. reflexivity.
  - intros b tbl Hpos.
    assert (Hex : exists out, _update_lut_init (b :: tbl) pn_rs rs_val pn_ena pn_old = Ok out).
    { destruct pn_old as [po|].
      - destruct (update_lut_init_bits b tbl pn_rs rs_val pn_ena po) as (out & Hout & _).
        exists out. assumption.
      - destruct Hpos as [->|Hpos]; [|congruence].
        destruct (update_lut_init_bits b tbl pn_rs rs_val None 0) as (out & Hout & _).
        exists out. rewrite <- Hout. unfold _update_lut_init, int_bits. cbn [bind].
        rewrite (lut_loop_no_enable pn_rs rs_val None (Some 0)). reflexivity. }
    destruct Hex as (out & Hout). exists out. split; [assumption|]. split.
    + unfold _update_lut_init in Hout. inv_bind Hout as v Hv. inv_bind Hout as v' Hv'.
      apply Ok_inj in Hout. subst out. apply format_016b_min.
    + intros Hlen. eapply update_lut_init_width; eassumption.
Qed.

(** X10: the rewrite can be repeated and read back.  Applying
    [_update_lut_init] with the same positions to a table it returned
    gives that table again.  With no position at all it returns a table
    of at most sixteen digits unchanged but for the zeros that pad it on
    the left to sixteen digits. *)
Theorem update_lut_init_repeatable
    (tbl : bits) (pn_rs : option nat) (rs_val : bool) (pn_ena pn_old : option nat) :
  (forall out,
      _update_lut_init tbl pn_rs rs_val pn_ena pn_old = Ok out ->
      _update_lut_init out pn_rs rs_val pn_ena pn_old = Ok out)
  /\ (tbl <> [] -> List.length tbl <= 16 ->
      _update_lut_init tbl None rs_val None pn_old
      = Ok (repeat false (16 - List.length tbl) ++ tbl)).
Proof.
  split.
  - intros out H. unfold _update_lut_init in *.
    inv_bind H as v Hv. inv_bind H as v' Hv'. apply Ok_inj in H. subst out.
    assert (Hv0 : (0 <= v)%Z).
    { unfold int_bits in Hv. destruct tbl; [discriminate|].
      apply Ok_inj in Hv. subst v. apply int_bits_nonneg. }
    assert (Hv'0 : (0 <= v')%Z) by (eapply lut_loop_nonneg; eassumption).
    rewrite (int_bits_format _ Hv'0). cbn [bind].
    rewrite (lut_loop_idem _ _ _ _ _ _ Hv'). reflexivity.
  - intros Hne Hlen. unfold _update_lut_init, int_bits.
    destruct tbl as [|b tbl]; [congruence|]. cbn [bind].
    rewrite lut_loop_no_edit. cbn [bind]. f_equal.
    set (v := fold_left _ (b :: tbl) 0%Z).
    assert (Hv0 : (0 <= v)%Z) by apply int_bits_nonneg.
    assert (Hv1 : (v < 2 ^ 16)%Z).
    { eapply Z.lt_le_trans; [apply int_bits_bound|]. apply Z.pow_le_mono_r; lia. }
    apply table_bit_ext.
    + rewrite format_016b_length by lia. rewrite length_app, repeat_length. lia.
    + intros i. rewrite format_016b_testbit by assumption.
      rewrite table_bit_pad. apply int_bits_testbit.
Qed.

(** ** The debug flag of the optimization *)

Lemma debug_members_Ok (self : Optimizer) (threshold : Z) (group : list ControlSet) :
  Forall (below (cset_map self) threshold) group ->
  exists ls, debug_members self group = Ok ls.
Proof.
  induction 1 as [|x group (l & Hl & _) _ (ls & IH)]; cbn [debug_members]; [eauto|].
  apply cs_get_Ok in Hl. rewrite Hl, IH. cbn [bind]. eauto.
Qed.

Lemma debug_candidates_Ok (self : Optimizer) (threshold : Z) (cands : list Candidate) :
  Forall (fun c => Forall (below (cset_map self) threshold) (cand_csets c)) cands ->
  exists ls, debug_candidates self cands = Ok ls.
Proof.
  induction 1 as [|c cands Hc _ (ls & IH)]; cbn [debug_candidates]; [eauto|].
  destruct (debug_members_Ok _ _ _ Hc) as (ms & Hms).
  rewrite Hms, IH. cbn [bind]. eauto.
Qed.

(** One round with and without the flag: the same exception, or the
    same state but for the lines printed. *)
Lemma step_debug threshold self todo cost out1 out2 cset rest :
  match step threshold true (mkRun self todo cost out1) cset rest,
        step threshold false (mkRun self todo cost out2) cset rest with
  | Ok a, Ok b =>
      run_self a = run_self b /\ to_process a = to_process b
      /\ total_cost a = total_cost b
      /\ output b = out2 /\ exists dbg, output a = out1 ++ dbg
  | Raise e1, Raise e2 => e1 = e2
  | _, _ => False
  end.
Proof.
  unfold step. cbn [run_self total_cost output].
  destruct (cs_get (cset_map self) cset) as [cells|e] eqn:Hcells; cbn [bind]; [|reflexivity].
  apply cs_get_Ok in Hcells.
  destruct (threshold <=? Z.of_nat (List.length cells))%Z eqn:Hth.
  { cbn. repeat split. exists []. symmetry. apply app_nil_r. }
  apply Z.leb_gt in Hth.
  destruct (candidates self threshold rest cset cells [1; 2; 3]%Z) as [cands|e] eqn:Hcands;
    cbn [bind]; [|reflexivity].
  pose proof (candidates_below _ _ _ _ _ _ Hcells Hth _ Hcands) as Hbelow.
  destruct cands as [|c0 cands'] eqn:Ec.
  { cbn. repeat split. exists []. symmetry. apply app_nil_r. }
  cbv iota. rewrite <- Ec in *. clear Ec.
  assert (Hsorted : Forall (fun c => Forall (below (cset_map self) threshold) (cand_csets c))
                           (Py.sorted cand_le cands)).
  { rewrite Forall_forall in *. intros c Hc. apply Hbelow.
    eapply Permutation_in; [apply sorted_perm|eassumption]. }
  destruct (debug_candidates_Ok _ _ _ Hsorted) as (dbg & Hdbg). rewrite Hdbg. cbn [bind].
  destruct (from_option IndexError (hd_error (Py.sorted cand_le cands))) as [best|e];
    cbn [bind]; [|reflexivity].
  destruct (apply_group self rest (cand_tgt best) (cand_conv best) (cand_csets best))
    as [[self' todo']|e]; cbn [bind]; [|reflexivity].
  cbn. repeat split; [apply app_nil_r|]. exists dbg. reflexivity.
Qed.

Lemma optimize_loop_debug threshold :
  forall fuel self todo cost out1 out2,
    match optimize_loop fuel threshold true (mkRun self todo cost out1),
          optimize_loop fuel threshold false (mkRun self todo cost out2) with
    | Some (Ok a), Some (Ok b) =>
        run_self a = run_self b /\ total_cost a = total_cost b
        /\ output b = out2 /\ exists dbg, output a = out1 ++ dbg
    | Some (Raise e1), Some (Raise e2) => e1 = e2
    | None, None => True
    | _, _ => False
    end.
Proof.
  induction fuel as [|fuel IH]; intros self todo cost out1 out2;
    cbn [optimize_loop to_process];
    destruct (Py.pop todo) as [[cset rest]|];
    try exact I;
    try (cbn; repeat split; exists []; symmetry; apply app_nil_r).
  pose proof (step_debug threshold self todo cost out1 out2 cset rest) as Hs.
  destruct (step threshold true (mkRun self todo cost out1) cset rest) as [a|e1],
           (step threshold false (mkRun self todo cost out2) cset rest) as [b|e2];
    try contradiction; [|assumption].
  destruct a as [s1 t1 c1 o1], b as [s2 t2 c2 o2]. cbn in Hs.
  destruct Hs as (<- & <- & <- & -> & dbg & ->).
  specialize (IH s1 t1 c1 (out1 ++ dbg) out2).
  destruct (optimize_loop fuel threshold true _) as [[a|e1]|],
           (optimize_loop fuel threshold false _) as [[b|e2]|];
    try contradiction; try assumption.
  destruct IH as (Hs & Hc & Ho & dbg' & Hd).
  repeat split; try assumption.
  exists (dbg ++ dbg'). rewrite Hd. symmetry. apply app_assoc.
Qed.

(** X11: the debug flag of [optimize] only adds printed lines.  With
    and without the flag the run ends the same way: the same exception,
    or the same optimizer (netlist and index).  Without the flag the
    summary line is the only line printed; with the flag the same
    summary line comes last, after the debug lines. *)
Theorem optimize_debug_only_prints (self : Optimizer) (threshold : Z) :
  option_map (map_result fst) (optimize self threshold true)
  = option_map (map_result fst) (optimize self threshold false)
  /\ forall self' out,
       optimize self threshold true = Some (Ok (self', out)) ->
       exists dbg summary,
         out = dbg ++ [summary]
         /\ optimize self threshold false = Some (Ok (self', [summary])).
Proof.
  unfold optimize.
  pose proof (optimize_loop_debug threshold
                (List.length (Py.sorted cset_le (cs_keys (cset_map self))))
                self (Py.sorted cset_le (cs_keys (cset_map self))) 0 [] []) as H.
  destruct (optimize_loop _ threshold true _) as [[a|e1]|],
           (optimize_loop _ threshold false _) as [[b|e2]|];
    try contradiction.
  - destruct H as (Hs & Hc & Ho & dbg & Hd). split.
    + cbn. rewrite Hs. reflexivity.
    + intros self' out [= <- <-]. rewrite Hd, Ho, Hs, Hc. cbn [app].
      eexists dbg, _. split; reflexivity.
  - subst e2. split; [reflexivity|]. intros self' out [=].
  - split; [reflexivity|]. intros self' out [=].
Qed.

(** ** The statistics *)

Lemma insert_sorted_key {A : Type} (key : A -> nat) (x : A) (l : list A) :
  StronglySorted le (map key l) ->
  StronglySorted le (map key (Py.insert_sorted (fun a b => Nat.leb (key a) (key b)) x l)).
Proof.
  induction l as [|y l IH]; cbn [Py.insert_sorted map]; intros Hs.
  - constructor; constructor.
  - apply StronglySorted_inv in Hs. destruct Hs as [Hl Hy].
    destruct (Nat.leb_spec (key y) (key x)) as [Hle|Hgt]; cbn [map].
    + constructor; [apply IH; assumption|].
      apply Forall_forall. intros k Hk. apply in_map_iff in Hk.
      destruct Hk as (z & <- & Hz).
      eapply Permutation_in in Hz; [|apply insert_sorted_perm].
      destruct Hz as [<-|Hz]; [assumption|].
      rewrite Forall_forall in Hy. apply Hy. apply in_map. assumption.
    + constructor; [constructor; assumption|].
      constructor; [lia|].
      eapply Forall_impl; [|eassumption]. cbv beta. intros; lia.
Qed.

Lemma sorted_key {A : Type} (key : A -> nat) (l : list A) :
  StronglySorted le (map key (Py.sorted (fun a b => Nat.leb (key a) (key b)) l)).
Proof.
  unfold Py.sorted.
  assert (H : forall acc,
             StronglySorted le (map key acc) ->
             StronglySorted le
               (map key (fold_left
                           (fun acc x =>
                              Py.insert_sorted (fun a b => Nat.leb (key a) (key b)) x acc)
                           l acc))).
  { induction l as [|x l IH]; intros acc Hacc; cbn [fold_left]; [assumption|].
    apply IH. apply insert_sorted_key. assumption. }
  apply H. constructor.
Qed.

Lemma sorted_strict (l : list nat) :
  StronglySorted le l -> NoDup l -> StronglySorted lt l.
Proof.
  induction 1 as [|a l Hs IH Ha]; intros Hnd; [constructor|].
  apply NoDup_cons_iff in Hnd. destruct Hnd as [Hnin Hnd].
  constructor; [auto|].
  rewrite Forall_forall in *. intros x Hx.
  specialize (Ha x Hx). assert (x <> a) by (intros ->; contradiction). lia.
Qed.

Lemma csl_add_keys n e csl :
  map fst (csl_add n e csl)
  = if existsb (Nat.eqb n) (map fst csl) then map fst csl else map fst csl ++ [n].
Proof.
  induction csl as [|[k v] csl IH]; cbn [csl_add map fst existsb]; [reflexivity|].
  destruct (Nat.eqb n k); cbn [map fst orb]; [reflexivity|].
  rewrite IH. destruct (existsb (Nat.eqb n) (map fst csl)); reflexivity.
Qed.

Lemma csl_add_find k n e csl :
  csl_find k (csl_add n e csl)
  = if Nat.eqb k n then csl_find k csl ++ [e] else csl_find k csl.
Proof.
  induction csl as [|[k' v] csl IH]; cbn [csl_add csl_find].
  - destruct (Nat.eqb k n); reflexivity.
  - destruct (Nat.eqb_spec n k') as [->|Hn]; cbn [csl_find].
    + destruct (Nat.eqb_spec k k') as [->|Hk]; reflexivity.
    + destruct (Nat.eqb_spec k k') as [->|Hk]; [|assumption].
      destruct (Nat.eqb_spec k' n) as [->|_]; [congruence|reflexivity].
Qed.

Lemma csl_add_sum n e csl :
  list_sum (map (fun kv : nat * list (ControlSet * list string) => List.length (snd kv))
                (csl_add n e csl))
  = S (list_sum (map (fun kv : nat * list (ControlSet * list string) => List.length (snd kv))
                     csl)).
Proof.
  induction csl as [|[k v] csl IH]; cbn [csl_add map list_sum fold_right snd List.length];
    [reflexivity|].
  destruct (Nat.eqb n k); cbn [map snd].
  - change (list_sum ?l) with (fold_right Nat.add 0 l). cbn [fold_right].
    rewrite length_app. simpl. lia.
  - change (list_sum ?l) with (fold_right Nat.add 0 l) in *. cbn [fold_right].
    rewrite IH. lia.
Qed.

Lemma existsb_eqb_In (n : nat) (l : list nat) :
  existsb (Nat.eqb n) l = true <-> In n l.
Proof.
  rewrite existsb_exists. split.
  - intros (x & Hx & Hnx). apply Nat.eqb_eq in Hnx. subst. assumption.
  - intros H. exists n. split; [assumption|apply Nat.eqb_refl].
Qed.

Lemma csl_find_In k v csl :
  NoDup (map fst csl) -> (In (k, v) csl <-> In k (map fst csl) /\ csl_find k csl = v).
Proof.
  induction csl as [|[k' v'] csl IH]; cbn [map fst csl_find]; intros Hnd.
  - simpl. tauto.
  - apply NoDup_cons_iff in Hnd. destruct Hnd as [Hnin Hnd]. specialize (IH Hnd).
    destruct (Nat.eqb_spec k k') as [->|Hk]; split.
    + intros [[= <-]|Hin]; [split; [left|]; reflexivity|].
      exfalso. apply Hnin. apply (in_map fst) in Hin. assumption.
    + intros [_ <-]. left. reflexivity.
    + intros [[= ]|Hin]; [congruence|]. apply IH in Hin. destruct Hin as [Hin Hf].
      split; [right|]; assumption.
    + intros [[Hin|Hin] Hf]; [congruence|]. right. apply IH. split; assumption.
Qed.

(** The histogram files every entry under its size, in index order. *)
Lemma histogram_spec (p : CsetMap) :
  NoDup (map fst (histogram p))
  /\ (forall k, In k (map fst (histogram p)) <-> 0 < sets_of_size p k)
  /\ (forall k, List.length (csl_find k (histogram p)) = sets_of_size p k)
  /\ list_sum (map (fun kv : nat * list (ControlSet * list string) => List.length (snd kv))
                   (histogram p))
     = List.length p.
Proof.
  unfold histogram, sets_of_size.
  induction p as [|e p IH] using rev_ind.
  - cbn. split; [constructor|]. split; [intros k; split; [intros []|lia]|].
    split; reflexivity.
  - rewrite fold_left_app. cbn [fold_left].
    destruct IH as (Hnd & Hkeys & Hfind & Hsum).
    set (csl := fold_left _ p []) in *.
    split; [|split; [|split]].
    + rewrite csl_add_keys.
      destruct (existsb (Nat.eqb _) (map fst csl)) eqn:Ex; [assumption|].
      apply NoDup_app; [assumption|constructor; [intros []|constructor]|].
      intros x Hx [<-|[]].
      apply existsb_eqb_In in Hx. congruence.
    + intros k. rewrite csl_add_keys, filter_app, length_app. cbn [filter].
      destruct (Nat.eqb_spec (List.length (snd e)) k) as [<-|Hne].
      * cbn [List.length].
        destruct (existsb (Nat.eqb _) (map fst csl)) eqn:Ex.
        -- apply existsb_eqb_In in Ex. split; [lia|intros _; assumption].
        -- split; [lia|]. intros _. apply in_or_app. right. left. reflexivity.
      * cbn [List.length]. rewrite Nat.add_0_r, <- Hkeys.
        destruct (existsb (Nat.eqb _) (map fst csl)); [tauto|].
        rewrite in_app_iff. simpl. tauto.
    + intros k. rewrite csl_add_find, filter_app, length_app. cbn [filter].
      rewrite (Nat.eqb_sym k).
      destruct (Nat.eqb (List.length (snd e)) k); [rewrite length_app|];
        rewrite Hfind; cbn [List.length]; lia.
    + rewrite csl_add_sum, Hsum, length_app. simpl. lia.
Qed.

(** X12: what [stats] prints.  After the total, which is the number of
    control sets, comes one line per bucket size that occurs, in
    strictly ascending order of the size, with the number of control
    sets of that size; these numbers add up to the total.  Then comes one
    line per control set with its member count, every control set of the
    index once, in ascending order of the member count. *)
Theorem stats_accounts_for_every_control_set (self : Optimizer) :
  exists (counts : list (nat * nat)) (sets : CsetMap),
    stats self
    = StatsTotal (List.length (cset_map self))
      :: map (fun kn => StatsCount (fst kn) (snd kn)) counts
      ++ map (fun e => StatsSet (List.length (snd e)) (fst e)) sets
    /\ StronglySorted lt (map fst counts)
    /\ (forall k n, In (k, n) counts <-> 0 < n /\ n = sets_of_size (cset_map self) k)
    /\ list_sum (map snd counts) = List.length (cset_map self)
    /\ Permutation sets (cset_map self)
    /\ StronglySorted le (map (fun e => List.length (snd e)) sets).
Proof.
  destruct (histogram_spec (cset_map self)) as (Hnd & Hkeys & Hfind & Hsum).
  set (by_size := fun a b : nat * list (ControlSet * list string) => Nat.leb (fst a) (fst b)).
  set (by_count := fun a b : ControlSet * list string =>
                     Nat.leb (List.length (snd a)) (List.length (snd b))).
  assert (Hperm : Permutation (Py.sorted by_size (histogram (cset_map self)))
                              (histogram (cset_map self))) by apply sorted_perm.
  exists (map (fun kv : nat * list (ControlSet * list string) =>
                 (fst kv, List.length (snd kv)))
              (Py.sorted by_size (histogram (cset_map self)))),
         (Py.sorted by_count (cset_map self)).
  split; [|split; [|split; [|split; [|split]]]].
  - unfold stats. fold (histogram (cset_map self)). fold by_size. fold by_count.
    cbn [app]. rewrite map_map. reflexivity.
  - rewrite map_map. cbn [fst]. apply sorted_strict.
    + apply (sorted_key fst).
    + eapply Permutation_NoDup; [|exact Hnd].
      apply Permutation_map. symmetry. assumption.
  - intros k n. rewrite in_map_iff. split.
    + intros ([k' v] & [= -> <-] & Hin).
      eapply Permutation_in in Hin; [|exact Hperm].
      apply (csl_find_In _ _ _ Hnd) in Hin. destruct Hin as [Hk <-].
      rewrite Hfind. apply Hkeys in Hk. split; [assumption|reflexivity].
    + intros [Hpos ->]. apply Hkeys in Hpos.
      exists (k, csl_find k (histogram (cset_map self))). split.
      * cbn [fst snd]. rewrite Hfind. reflexivity.
      * eapply Permutation_in; [symmetry; exact Hperm|].
        apply (csl_find_In _ _ _ Hnd). split; [assumption|reflexivity].
  - rewrite map_map. cbn [snd]. rewrite <- Hsum.
    apply Permutation_list_sum. apply Permutation_map. assumption.
  - apply sorted_perm.
  - apply (sorted_key (fun e : ControlSet * list string => List.length (snd e))).
Qed.

(** ** Building the optimizer *)

Lemma global_output_net (c : Context) (cell : string) :
  bind (port_net_of c cell "GLOBAL_BUFFER_OUTPUT") (from_option AttributeError)
  = match net_name c cell "GLOBAL_BUFFER_OUTPUT" with
    | Some n => Ok n
    | None =>
        if has_port c cell "GLOBAL_BUFFER_OUTPUT" then Raise AttributeError
        else Raise KeyError
    end.
Proof.
  unfold port_net_of, net_name, has_port.
  destruct (assoc "GLOBAL_BUFFER_OUTPUT" (cell_ports (cell_of c cell))) as [pi|];
    cbn [from_option bind]; [|reflexivity].
  destruct (port_net pi); reflexivity.
Qed.

Lemma global_outputs_In (c : Context) (names : list string) :
  forall l,
    global_outputs c names = Ok l ->
    forall n,
      In n l <-> exists cell, In cell names /\ type_of c cell = "SB_GB"
                              /\ net_name c cell "GLOBAL_BUFFER_OUTPUT" = Some n.
Proof.
  induction names as [|x names IH]; cbn [global_outputs]; intros l H n.
  - apply Ok_inj in H. subst l. split; [intros []|intros (cell & [] & _)].
  - destruct (String.eqb_spec (type_of c x) "SB_GB") as [Ht|Ht].
    + inv_bind H as o Ho. inv_bind H as net Hnet. inv_bind H as r Hr.
      apply Ok_inj in H. subst l.
      apply port_net_of_Ok in Ho. apply from_option_Some in Hnet. subst o.
      specialize (IH _ Hr n). cbn [In]. rewrite IH. split.
      * intros [<-|(cell & Hin & Hc)].
        -- exists x. split; [left; reflexivity|split; assumption].
        -- exists cell. split; [right|]; assumption.
      * intros (cell & [<-|Hin] & Hty & Hn).
        -- left. congruence.
        -- right. exists cell. split; [assumption|split; assumption].
    + rewrite (IH _ H n). split.
      * intros (cell & Hin & Hc). exists cell. split; [right|]; assumption.
      * intros (cell & [<-|Hin] & Hty & Hn); [congruence|].
        exists cell. split; [assumption|split; assumption].
Qed.

Lemma global_outputs_Ok (c : Context) (names : list string) :
  (exists l, global_outputs c names = Ok l)
  <-> forall cell, In cell names -> type_of c cell = "SB_GB" ->
                   net_name c cell "GLOBAL_BUFFER_OUTPUT" <> None.
Proof.
  induction names as [|x names IH]; cbn [global_outputs].
  - split; [intros _ cell []|eauto].
  - destruct (String.eqb_spec (type_of c x) "SB_GB") as [Ht|Ht].
    + change (o <- port_net_of c x "GLOBAL_BUFFER_OUTPUT" ;;
              net <- from_option AttributeError o ;;
              r <- global_outputs c names ;; Ok (net :: r))
        with (bind (port_net_of c x "GLOBAL_BUFFER_OUTPUT")
                   (fun o => bind (from_option AttributeError o)
                                  (fun net => r <- global_outputs c names ;; Ok (net :: r)))).
      assert (Hassoc : forall (k : string -> result (list string)),
                 bind (port_net_of c x "GLOBAL_BUFFER_OUTPUT")
                      (fun o => bind (from_option AttributeError o) k)
                 = bind (bind (port_net_of c x "GLOBAL_BUFFER_OUTPUT")
                              (from_option AttributeError)) k).
      { intros k. destruct (port_net_of c x "GLOBAL_BUFFER_OUTPUT"); reflexivity. }
      rewrite Hassoc, global_output_net.
      destruct (net_name c x "GLOBAL_BUFFER_OUTPUT") as [n|] eqn:Hn; cbn [bind].
      * split.
        -- intros (l & Hl). inv_bind Hl as r Hr.
           assert (Hex : exists l, global_outputs c names = Ok l) by eauto.
           intros cell [<-|Hin] Hty; [congruence|]. apply IH; assumption.
        -- intros Hall.
           destruct (proj2 IH (fun cell Hin => Hall cell (or_intror Hin))) as (r & Hr).
           rewrite Hr. cbn [bind]. eauto.
      * split.
        -- intros (l & Hl). destruct (has_port c x "GLOBAL_BUFFER_OUTPUT"); discriminate.
        -- intros Hall. exfalso. apply (Hall x); [left; reflexivity|assumption|assumption].
    + rewrite IH. split.
      * intros Hall cell [<-|Hin] Hty; [congruence|]. apply Hall; assumption.
      * intros Hall cell Hin. apply Hall. right. assumption.
Qed.

(** X13: when the constructor fails and what it builds.  [__init__]
    returns exactly when every cell of type [SB_GB] has a net on its
    [GLOBAL_BUFFER_OUTPUT] port; a flip-flop never makes it fail.  The
    optimizer it returns holds the netlist it was given and the index of
    [build_map], and its global nets are, without repetition, the nets on
    the [GLOBAL_BUFFER_OUTPUT] port of the [SB_GB] cells. *)
Theorem init_outcome (c : Context) :
  ((exists self, init c = Ok self)
   <-> forall cell, In cell (map fst c) -> type_of c cell = "SB_GB" ->
                    net_name c cell "GLOBAL_BUFFER_OUTPUT" <> None)
  /\ forall self,
       init c = Ok self ->
       ctx self = c
       /\ build_map c = Ok (cset_map self)
       /\ NoDup (global_nets self)
       /\ forall n,
            In n (global_nets self)
            <-> exists cell, In cell (map fst c) /\ type_of c cell = "SB_GB"
                             /\ net_name c cell "GLOBAL_BUFFER_OUTPUT" = Some n.
Proof.
  destruct (build_map_spec c) as (m & Hm & _).
  unfold init, find_global_nets. rewrite Hm. split.
  - rewrite <- global_outputs_Ok. split.
    + intros (self & H). inv_bind H as g Hg. inv_bind Hg as l Hl. eauto.
    + intros (l & Hl). rewrite Hl. cbn [bind]. eauto.
  - intros self H. inv_bind H as g Hg. inv_bind Hg as l Hl.
    apply Ok_inj in Hg. subst g. cbn [bind] in H. apply Ok_inj in H. subst self.
    cbn [ctx cset_map global_nets].
    split; [reflexivity|]. split; [reflexivity|]. split; [apply NoDup_nodup|].
    intros n. rewrite nodup_In. apply global_outputs_In. assumption.
Qed.

(** ** The order of the work list *)

Lemma ascii_compare_refl (a : ascii) : Ascii.compare a a = Eq.
Proof. unfold Ascii.compare. apply N.compare_refl. Qed.

Lemma ascii_compare_trans (a b c : ascii) :
  Ascii.compare a b = Lt -> Ascii.compare b c = Lt -> Ascii.compare a c = Lt.
Proof.
  unfold Ascii.compare. rewrite !N.compare_lt_iff. apply N.lt_trans.
Qed.

Lemma string_compare_refl (s : string) : String.compare s s = Eq.
Proof.
  induction s as [|a s IH]; cbn [String.compare]; [reflexivity|].
  rewrite ascii_compare_refl. assumption.
Qed.

Lemma string_compare_trans (a b c : string) :
  String.compare a b = Lt -> String.compare b c = Lt -> String.compare a c = Lt.
Proof.
  revert b c. induction a as [|x a IH]; intros [|y b] [|z c]; cbn [String.compare];
    try discriminate; try reflexivity.
  destruct (Ascii.compare x y) eqn:Exy; try discriminate;
    destruct (Ascii.compare y z) eqn:Eyz; try discriminate; intros Hab Hbc.
  - apply Ascii.compare_eq_iff in Exy, Eyz. subst. rewrite ascii_compare_refl. eauto.
  - apply Ascii.compare_eq_iff in Exy. subst. rewrite Eyz. reflexivity.
  - apply Ascii.compare_eq_iff in Eyz. subst. rewrite Exy. reflexivity.
  - rewrite (ascii_compare_trans _ _ _ Exy Eyz). reflexivity.
Qed.

Lemma string_compare_Gt (a b : string) :
  String.compare a b = Gt <-> String.compare b a = Lt.
Proof.
  rewrite (String.compare_antisym b a). destruct (String.compare a b); cbn; split; congruence.
Qed.

Lemma string_leb_trans (a b c : string) :
  String.leb a b = true -> String.leb b c = true -> String.leb a c = true.
Proof.
  unfold String.leb.
  destruct (String.compare a b) eqn:Eab; try discriminate;
    destruct (String.compare b c) eqn:Ebc; try discriminate; intros _ _.
  - apply String.compare_eq_iff in Eab, Ebc. subst. rewrite string_compare_refl. reflexivity.
  - apply String.compare_eq_iff in Eab. subst. rewrite Ebc. reflexivity.
  - apply String.compare_eq_iff in Ebc. subst. rewrite Eab. reflexivity.
  - rewrite (string_compare_trans _ _ _ Eab Ebc). reflexivity.
Qed.

(** The order of the sort keys, field by field. *)
Lemma cset_le_cases (a b : ControlSet) :
  cset_le a b = true
  <-> String.compare (Py.or_empty (rs a)) (Py.or_empty (rs b)) = Lt
      \/ (Py.or_empty (rs a) = Py.or_empty (rs b)
          /\ (String.compare (Py.or_empty (ena a)) (Py.or_empty (ena b)) = Lt
              \/ (Py.or_empty (ena a) = Py.or_empty (ena b)
                  /\ String.leb (Py.or_empty (clk a)) (Py.or_empty (clk b)) = true))).
Proof.
  unfold cset_le.
  destruct (String.compare (Py.or_empty (rs a)) (Py.or_empty (rs b))) eqn:E1.
  - apply String.compare_eq_iff in E1. rewrite E1.
    destruct (String.compare (Py.or_empty (ena a)) (Py.or_empty (ena b))) eqn:E2.
    + apply String.compare_eq_iff in E2. rewrite E2. split.
      * intros H. right. split; [reflexivity|]. right. split; [reflexivity|assumption].
      * intros [H|[_ [H|[_ H]]]]; try discriminate; assumption.
    + split; [|reflexivity]. intros _. right. split; [reflexivity|]. left. reflexivity.
    + split; [discriminate|].
      intros [H|[_ [H|[H _]]]]; try discriminate.
      rewrite H, string_compare_refl in E2. discriminate.
  - split; [|reflexivity]. intros _. left. reflexivity.
  - split; [discriminate|].
    intros [H|[H _]]; [discriminate|].
    rewrite H, string_compare_refl in E1. discriminate.
Qed.

Lemma string_compare_total (a b : string) :
  String.compare a b = Lt \/ a = b \/ String.compare b a = Lt.
Proof.
  destruct (String.compare a b) eqn:E.
  - right. left. apply String.compare_eq_iff. assumption.
  - left. reflexivity.
  - right. right. apply string_compare_Gt. assumption.
Qed.

Lemma string_compare_irrefl (a b : string) :
  String.compare a b = Lt -> String.compare b a = Lt -> False.
Proof.
  intros H1 H2. apply string_compare_Gt in H2. congruence.
Qed.

Lemma string_compare_neq (a : string) : String.compare a a = Lt -> False.
Proof. rewrite string_compare_refl. discriminate. Qed.

Lemma cset_le_total (a b : ControlSet) : cset_le a b = true \/ cset_le b a = true.
Proof.
  rewrite !cset_le_cases.
  destruct (string_compare_total (Py.or_empty (rs a)) (Py.or_empty (rs b))) as [H|[H|H]];
    [left; left; assumption| |right; left; assumption].
  destruct (string_compare_total (Py.or_empty (ena a)) (Py.or_empty (ena b))) as [G|[G|G]];
    [left; right; split; [assumption|left; assumption]|
    |right; right; split; [symmetry; assumption|left; assumption]].
  destruct (String.leb_total (Py.or_empty (clk a)) (Py.or_empty (clk b))) as [L|L].
  - left. right. split; [assumption|]. right. split; assumption.
  - right. right. split; [symmetry; assumption|]. right. split; [symmetry|]; assumption.
Qed.

Lemma cset_le_trans (a b c : ControlSet) :
  cset_le a b = true -> cset_le b c = true -> cset_le a c = true.
Proof.
  rewrite !cset_le_cases.
  intros [H1|[H1 H2]] [G1|[G1 G2]].
  - left. eapply string_compare_trans; eassumption.
  - left. rewrite <- G1. assumption.
  - left. rewrite H1. assumption.
  - right. split; [congruence|].
    destruct H2 as [H2|[H2 H3]], G2 as [G2|[G2 G3]].
    + left. eapply string_compare_trans; eassumption.
    + left. rewrite <- G2. assumption.
    + left. rewrite H2. assumption.
    + right. split; [congruence|]. eapply string_leb_trans; eassumption.
Qed.

Lemma cset_le_antisym (a b : ControlSet) :
  cset_le a b = true -> cset_le b a = true -> sort_key a = sort_key b.
Proof.
  rewrite !cset_le_cases. unfold sort_key.
  intros [H1|[H1 H2]] [G1|[G1 G2]].
  - destruct (string_compare_irrefl _ _ H1 G1).
  - rewrite G1 in H1. destruct (string_compare_neq _ H1).
  - rewrite H1 in G1. destruct (string_compare_neq _ G1).
  - destruct H2 as [H2|[H2 H3]], G2 as [G2|[G2 G3]].
    + destruct (string_compare_irrefl _ _ H2 G2).
    + rewrite G2 in H2. destruct (string_compare_neq _ H2).
    + rewrite H2 in G2. destruct (string_compare_neq _ G2).
    + rewrite H1, H2, (String.leb_antisym _ _ H3 G3). reflexivity.
Qed.

Lemma or_empty_named (a b : option string) :
  a <> Some "" -> b <> Some "" -> Py.or_empty a = Py.or_empty b -> a = b.
Proof.
  destruct a as [[|x a]|], b as [[|y b]|]; cbn; congruence.
Qed.

Lemma sort_key_named (a b : ControlSet) :
  named a -> named b -> sort_key a = sort_key b -> a = b.
Proof.
  unfold named, sort_key. destruct a as [r1 e1 c1], b as [r2 e2 c2]. cbn [rs ena clk].
  intros (Hr1 & He1 & Hc1) (Hr2 & He2 & Hc2) [= Hr He Hc].
  rewrite (or_empty_named _ _ Hr1 Hr2 Hr), (or_empty_named _ _ He1 He2 He),
          (or_empty_named _ _ Hc1 Hc2 Hc).
  reflexivity.
Qed.

Section SortedBy.
Context {A : Type} (le : A -> A -> bool).
Hypothesis le_total : forall a b, le a b = true \/ le b a = true.
Hypothesis le_trans : forall a b c, le a b = true -> le b c = true -> le a c = true.

Lemma insert_sorted_sorted (x : A) (l : list A) :
  StronglySorted (fun a b => le a b = true) l ->
  StronglySorted (fun a b => le a b = true) (Py.insert_sorted le x l).
Proof.
  induction l as [|y l IH]; cbn [Py.insert_sorted]; intros Hs.
  - constructor; constructor.
  - apply StronglySorted_inv in Hs. destruct Hs as [Hl Hy].
    destruct (le y x) eqn:Hyx.
    + constructor; [apply IH; assumption|].
      apply Forall_forall. intros z Hz.
      eapply Permutation_in in Hz; [|apply insert_sorted_perm].
      destruct Hz as [<-|Hz]; [assumption|].
      rewrite Forall_forall in Hy. apply Hy. assumption.
    + assert (Hxy : le x y = true) by (destruct (le_total x y); congruence).
      constructor; [constructor; assumption|].
      constructor; [assumption|].
      eapply Forall_impl; [|eassumption]. cbv beta. intros z Hz. eapply le_trans; eassumption.
Qed.

Lemma sorted_sorted (l : list A) :
  StronglySorted (fun a b => le a b = true) (Py.sorted le l).
Proof.
  unfold Py.sorted.
  assert (H : forall acc,
             StronglySorted (fun a b => le a b = true) acc ->
             StronglySorted (fun a b => le a b = true)
               (fold_left (fun acc x => Py.insert_sorted le x acc) l acc)).
  { induction l as [|x l IH]; intros acc Hacc; cbn [fold_left]; [assumption|].
    apply IH. apply insert_sorted_sorted. assumption. }
  apply H. constructor.
Qed.

(** Two sorted lists with the same elements are equal when elements
    that tie are equal. *)
Lemma sorted_unique (l1 : list A) :
  forall l2,
    Permutation l1 l2 ->
    (forall a b, In a l1 -> In b l1 -> le a b = true -> le b a = true -> a = b) ->
    StronglySorted (fun a b => le a b = true) l1 ->
    StronglySorted (fun a b => le a b = true) l2 ->
    l1 = l2.
Proof.
  induction l1 as [|a l1 IH]; intros l2 Hperm Hanti Hs1 Hs2.
  - apply Permutation_nil in Hperm. congruence.
  - destruct l2 as [|b l2]; [symmetry in Hperm; apply Permutation_nil in Hperm; discriminate|].
    apply StronglySorted_inv in Hs1, Hs2.
    destruct Hs1 as [Hs1 Ha], Hs2 as [Hs2 Hb].
    rewrite Forall_forall in Ha, Hb.
    assert (Hab : a = b).
    { assert (Hin_b : In b (a :: l1))
        by (eapply Permutation_in; [symmetry; eassumption|left; reflexivity]).
      assert (Hin_a : In a (b :: l2))
        by (eapply Permutation_in; [eassumption|left; reflexivity]).
      destruct Hin_b as [Eb|Hin_b]; [assumption|].
      destruct Hin_a as [Ea|Hin_a]; [congruence|].
      apply Hanti; [left; reflexivity|right; assumption|auto|auto]. }
    subst b. f_equal. apply IH; try assumption.
    + eapply Permutation_cons_inv. eassumption.
    + intros x y Hx Hy. apply Hanti; right; assumption.
Qed.
End SortedBy.

(** X14: the work list of [optimize].  It holds the control sets of the
    index, each once, in ascending order of the key (reset/set, enable,
    clock), an absent net counting as the empty string; the loop pops
    from its end.  When no net has the empty string as its name, the
    work list is the same for every order in which the index lists its
    control sets. *)
Theorem work_list_order (m : CsetMap) :
  Permutation (Py.sorted cset_le (cs_keys m)) (cs_keys m)
  /\ StronglySorted (fun a b => cset_le a b = true) (Py.sorted cset_le (cs_keys m))
  /\ forall m',
       Permutation (cs_keys m') (cs_keys m) ->
       Forall named (cs_keys m) ->
       Py.sorted cset_le (cs_keys m') = Py.sorted cset_le (cs_keys m).
Proof.
  split; [apply sorted_perm|].
  split; [apply sorted_sorted; [apply cset_le_total|apply cset_le_trans]|].
  intros m' Hperm Hnamed.
  apply (sorted_unique cset_le).
  - rewrite !sorted_perm. assumption.
  - intros a b Ha Hb Hab Hba.
    rewrite Forall_forall in Hnamed.
    eapply Permutation_in in Ha; [|rewrite sorted_perm; exact Hperm].
    eapply Permutation_in in Hb; [|rewrite sorted_perm; exact Hperm].
    apply sort_key_named; auto. apply cset_le_antisym; assumption.
  - apply sorted_sorted; [apply cset_le_total|apply cset_le_trans].
  - apply sorted_sorted; [apply cset_le_total|apply cset_le_trans].
Qed.

(** ** The cells of the netlist under a conversion *)

Lemma assoc_In {V : Type} (k : string) (l : list (string * V)) :
  assoc k l <> None <-> In k (map fst l).
Proof.
  induction l as [|[k' v] l IH]; cbn [assoc map fst In]; [tauto|].
  destruct (String.eqb_spec k k') as [->|Hk].
  - split; [intros _; left; reflexivity|discriminate].
  - rewrite IH. split; [tauto|]. intros [H|H]; [congruence|assumption].
Qed.

Lemma assoc_set_names {V : Type} (k : string) (v : V) (l : list (string * V)) :
  assoc k l <> None -> map fst (assoc_set k v l) = map fst l.
Proof.
  induction l as [|[k' v'] l IH]; cbn [assoc assoc_set map fst]; [congruence|].
  destruct (String.eqb_spec k k') as [->|Hk]; cbn [map fst]; [reflexivity|].
  intros H. rewrite IH by assumption. reflexivity.
Qed.

Lemma same_cells_refl (c : Context) : same_cells c c.
Proof. split; reflexivity. Qed.

Lemma same_cells_trans (c1 c2 c3 : Context) :
  same_cells c1 c2 -> same_cells c2 c3 -> same_cells c1 c3.
Proof.
  intros [Hn1 Ht1] [Hn2 Ht2]. split; [congruence|].
  intros x. rewrite Ht2. apply Ht1.
Qed.

Lemma update_cell_same (c c' : Context) (name : string) (f : CellInfo -> result CellInfo) :
  (forall cell cell', f cell = Ok cell' -> cell_type cell' = cell_type cell) ->
  update_cell c name f = Ok c' ->
  same_cells c c'.
Proof.
  intros Hf H. apply update_cell_Ok in H. destruct H as (cell & cell' & Hc & Hfc & ->).
  split.
  - apply assoc_set_names. congruence.
  - intros x. unfold type_of. rewrite cell_of_assoc_set.
    destruct (String.eqb_spec x name) as [->|]; [|reflexivity].
    rewrite (cell_of_present _ _ _ Hc). eapply Hf. eassumption.
Qed.

Lemma disconnectPort_same (c c' : Context) (name p : string) :
  disconnectPort c name p = Ok c' -> same_cells c c'.
Proof.
  apply update_cell_same. intros cell cell'.
  destruct (assoc p (cell_ports cell)); intros [= <-]; reflexivity.
Qed.

Lemma connectPort_same (c c' : Context) (net name p : string) :
  connectPort c net name p = Ok c' -> same_cells c c'.
Proof.
  apply update_cell_same. intros cell cell'.
  destruct (assoc p (cell_ports cell)); cbn [from_option bind]; intros [= <-]; reflexivity.
Qed.

Lemma addPort_same (c c' : Context) (name p : string) (t : PortType) :
  addPort c name p t = Ok c' -> same_cells c c'.
Proof.
  apply update_cell_same. intros cell cell' [= <-]. reflexivity.
Qed.

Lemma setParam_same (c c' : Context) (name k : string) (v : bits) :
  setParam c name k v = Ok c' -> same_cells c c'.
Proof.
  apply update_cell_same. intros cell cell' [= <-]. reflexivity.
Qed.

Ltac same_step H :=
  lazymatch type of H with
  | disconnectPort _ _ _ = Ok _ => apply disconnectPort_same in H
  | connectPort _ _ _ _ = Ok _ => apply connectPort_same in H
  | addPort _ _ _ _ = Ok _ => apply addPort_same in H
  | setParam _ _ _ _ = Ok _ => apply setParam_same in H
  end.

Ltac same_chain :=
  repeat (eapply same_cells_trans; [eassumption|]); apply same_cells_refl.

Lemma createCell_names (c c' : Context) (name t : string) :
  createCell c name t = Ok c' ->
  map fst c' = map fst c ++ [name]
  /\ ~ In name (map fst c)
  /\ type_of c' name = t
  /\ forall x, In x (map fst c) -> type_of c' x = type_of c x.
Proof.
  unfold createCell. destruct (assoc name c) eqn:Hn; [discriminate|].
  intros H. apply Ok_inj in H. subst c'.
  assert (Hnin : ~ In name (map fst c)) by (rewrite <- assoc_In; congruence).
  split; [rewrite map_app; reflexivity|]. split; [assumption|]. split.
  - unfold type_of, cell_of.
    assert (Hl : forall l : Context, assoc name l = None ->
                   assoc name (l ++ [(name, mkCell t [] [])]) = Some (mkCell t [] [])).
    { induction l as [|[k v] l IH]; cbn [assoc app].
      - rewrite String.eqb_refl. reflexivity.
      - destruct (name =? k); [discriminate|assumption]. }
    rewrite (Hl c Hn). reflexivity.
  - intros x Hx. apply assoc_In in Hx.
    unfold type_of, cell_of. rewrite (assoc_app_present _ _ _ Hx). reflexivity.
Qed.

Lemma insert_lut_names (c c' : Context) (cell tgt : string) (fp : list string) :
  insert_lut c cell = Ok (c', tgt, fp) ->
  map fst c' = map fst c ++ [(cell ++ "_conv")%string]
  /\ ~ In (cell ++ "_conv")%string (map fst c)
  /\ type_of c' (cell ++ "_conv")%string = "SB_LUT4"
  /\ forall x, In x (map fst c) -> type_of c' x = type_of c x.
Proof.
  unfold insert_lut, createNet. intros H.
  inv_bind H as c1 H1. inv_bind H as c2 H2. inv_bind H as c3 H3.
  inv_bind H as c4 H4. inv_bind H as c5 H5. inv_bind H as c6 H6.
  inv_bind H as c7 H7. inv_bind H as c8 H8. apply Ok_inj in H8. subst c8.
  inv_bind H as d Hd. inv_bind H as old_net Hold.
  inv_bind H as c9 H9. inv_bind H as c10 H10. inv_bind H as c11 H11.
  inv_bind H as c12 H12. apply Ok_inj in H. injection H as <- <- <-.
  same_step H2. same_step H3. same_step H4. same_step H5. same_step H6.
  same_step H7. same_step H9. same_step H10. same_step H11. same_step H12.
  assert (Hsame : same_cells c1 c12) by same_chain.
  destruct Hsame as [Hn Ht].
  apply createCell_names in H1. destruct H1 as (Hn1 & Hfresh & Hty & Hold1).
  split; [congruence|]. split; [assumption|]. split; [rewrite Ht; assumption|].
  intros x Hx. rewrite Ht. apply Hold1. assumption.
Qed.

Lemma retype_lut (conv : Z) : retype conv "SB_LUT4" = "SB_LUT4".
Proof. unfold retype. destruct (rm_rs_of conv), (rm_ena_of conv); reflexivity. Qed.

Lemma retype_iter_lut (conv : Z) (k : nat) : Nat.iter k (retype conv) "SB_LUT4" = "SB_LUT4".
Proof.
  induction k as [|k IH]; [reflexivity|].
  rewrite Nat.iter_succ, IH. apply retype_lut.
Qed.

Lemma same_cells_grows (conv : Z) (c c' : Context) :
  same_cells c c' -> grows conv [] c c' [].
Proof.
  intros [Hn Ht]. split; [rewrite app_nil_r; assumption|].
  intros x _. exists 0. split; [apply Ht|reflexivity].
Qed.

Lemma grows_trans (conv : Z) (ex1 ex2 : list string) (c1 c2 c3 : Context)
    (a1 a2 : list string) :
  grows conv ex1 c1 c2 a1 -> grows conv ex2 c2 c3 a2 ->
  grows conv (ex1 ++ ex2) c1 c3 (a1 ++ a2).
Proof.
  intros [Hn1 Ht1] [Hn2 Ht2]. split; [rewrite Hn2, Hn1, app_assoc; reflexivity|].
  intros x Hx.
  destruct (Ht1 x Hx) as (k1 & Hk1 & Hz1).
  destruct (Ht2 x) as (k2 & Hk2 & Hz2); [rewrite Hn1; apply in_or_app; left; assumption|].
  exists (k2 + k1). split.
  - rewrite Hk2, Hk1. symmetry. apply Nat.iter_add.
  - intros Hnin. rewrite Hz1, Hz2; [reflexivity| |];
      intros Hin; apply Hnin; apply in_or_app; [right|left]; assumption.
Qed.

(** What converting one flip-flop does to the list of cells: at most
    the fresh lookup table [<cell>_conv] is appended, and no cell but
    [cell] changes its type. *)
Lemma convert_cell_grows (c c' : Context) (cset : ControlSet) (conv : Z) (cell : string) :
  convert_cell c cset conv cell = Ok c' ->
  exists added,
    grows conv [cell] c c' added
    /\ (added = []
        \/ added = [(cell ++ "_conv")%string]
           /\ ~ In (cell ++ "_conv")%string (map fst c)
           /\ type_of c' (cell ++ "_conv")%string = "SB_LUT4").
Proof.
  unfold convert_cell. intros H.
  inv_bind H as [c1 t1] H1. inv_bind H as [c2 t2] H2.
  assert (Hdis : bind (if rm_rs_of conv
                       then c1 <- disconnectPort c cell "R" ;;
                            c1 <- disconnectPort c1 cell "S" ;;
                            Ok (c1, Py.replace "SS" "" (Py.replace "SR" "" (type_of c cell)))
                       else Ok (c, type_of c cell))
                      (fun p => let '(c1, t1) := p in
                                if rm_ena_of conv
                                then c1 <- disconnectPort c1 cell "E" ;;
                                     Ok (c1, Py.replace "E" "" t1)
                                else Ok (c1, t1))
                 = Ok (c2, t2))
    by (rewrite H1; exact H2).
  assert (Hs2 : same_cells c c2).
  { assert (Hs1 : same_cells c c1).
    { destruct (rm_rs_of conv).
      - inv_bind H1 as ca Ha. inv_bind H1 as cb Hb. apply Ok_inj in H1. injection H1 as <- <-.
        same_step Ha. same_step Hb. same_chain.
      - apply Ok_inj in H1. injection H1 as <- <-. apply same_cells_refl. }
    destruct (rm_ena_of conv).
    - inv_bind H2 as ca Ha. apply Ok_inj in H2. injection H2 as <- <-.
      same_step Ha. same_chain.
    - apply Ok_inj in H2. injection H2 as <- <-. assumption. }
  apply disconnect_controls in Hdis. destruct Hdis as (-> & _).
  clear H1 H2 c1 t1.
  set (cA := set_type c2 cell (retype conv (type_of c cell))) in *.
  assert (HgA : grows conv [cell] c cA []).
  { destruct Hs2 as [Hn2 Ht2]. unfold cA, set_type.
    destruct (assoc cell c2) as [info|] eqn:Hinfo.
    - split.
      + rewrite app_nil_r, assoc_set_names by congruence. assumption.
      + intros x _. unfold type_of at 1. rewrite cell_of_assoc_set.
        destruct (String.eqb_spec x cell) as [->|Hne].
        * exists 1. split; [reflexivity|]. intros Hnin. exfalso. apply Hnin. left. reflexivity.
        * exists 0. split; [apply Ht2|reflexivity].
    - split; [rewrite app_nil_r; assumption|].
      intros x _. exists 0. split; [apply Ht2|reflexivity]. }
  inv_bind H as driver Hd. inv_bind H as fp Hfp.
  inv_bind H as [[c3 tgt] fp3] Hins.
  inv_bind H as [[c4 fp4] pn_rs] Hrs.
  assert (H4 : same_cells c3 c4).
  { destruct (rm_rs_of conv).
    - inv_bind Hrs as [[p_rs pn] fpr] Htake. inv_bind Hrs as ca Ha.
      inv_bind Hrs as net Hnet. inv_bind Hrs as cb Hb.
      apply Ok_inj in Hrs. injection Hrs as <- <- <-.
      same_step Ha. same_step Hb. same_chain.
    - apply Ok_inj in Hrs. injection Hrs as <- <- <-. apply same_cells_refl. }
  inv_bind H as [[c5 pn_ena] pn_old] Hena.
  assert (H5 : same_cells c4 c5).
  { destruct (rm_ena_of conv).
    - inv_bind Hena as [[p_ena pne] fpe] Htake1.
      inv_bind Hena as [[p_old pno] fpo] Htake2.
      inv_bind Hena as ca Ha. inv_bind Hena as cb Hb.
      inv_bind Hena as net Hnet. inv_bind Hena as cc Hc.
      inv_bind Hena as q Hq. inv_bind Hena as q_net Hqn. inv_bind Hena as cd Hdd.
      apply Ok_inj in Hena. injection Hena as <- <- <-.
      same_step Ha. same_step Hb. same_step Hc. same_step Hdd. same_chain.
    - apply Ok_inj in Hena. injection Hena as <- <- <-. apply same_cells_refl. }
  inv_bind H as lut_init Hinit. inv_bind H as lut_init' Hupd.
  same_step H.
  assert (Hs35 : same_cells c3 c') by same_chain.
  clear H4 H5 H.
  destruct (Nat.ltb (List.length fp) (n_in_of conv)).
  - apply insert_lut_names in Hins. destruct Hins as (Hn3 & Hfresh & Hty & Hold3).
    destruct HgA as [HnA HtA]. rewrite app_nil_r in HnA.
    destruct Hs35 as [Hn5 Ht5].
    exists [(cell ++ "_conv")%string]. split; [split|].
    + rewrite Hn5, Hn3, HnA. reflexivity.
    + intros x Hx. destruct (HtA x Hx) as (k & Hk & Hz).
      exists k. split; [|assumption].
      rewrite Ht5, Hold3 by (rewrite HnA; assumption). assumption.
    + right. split; [reflexivity|]. split; [rewrite <- HnA; assumption|].
      rewrite Ht5. assumption.
  - apply Ok_inj in Hins. injection Hins as <- <- <-.
    exists []. split; [|left; reflexivity].
    pose proof (grows_trans conv _ _ _ _ _ _ _ HgA (same_cells_grows conv _ _ Hs35)) as Hg.
    exact Hg.
Qed.

Lemma convert_cells_grows (cset : ControlSet) (conv : Z) (cells : list string) :
  forall c c',
    convert_cells c cset conv cells = Ok c' ->
    exists added,
      grows conv cells c c' added
      /\ List.length added <= List.length cells
      /\ forall x, In x added ->
           ~ In x (map fst c)
           /\ type_of c' x = "SB_LUT4"
           /\ exists cell, In cell cells /\ x = (cell ++ "_conv")%string.
Proof.
  induction cells as [|cell cells IH]; cbn [convert_cells]; intros c c' H.
  - apply Ok_inj in H. subst c'. exists []. split; [|split; [reflexivity|intros x []]].
    apply same_cells_grows, same_cells_refl.
  - inv_bind H as c1 H1.
    destruct (convert_cell_grows _ _ _ _ _ H1) as (a1 & Hg1 & Ha1).
    destruct (IH _ _ H) as (a2 & Hg2 & Hlen2 & Ha2).
    exists (a1 ++ a2).
    pose proof (grows_trans _ _ _ _ _ _ _ _ Hg1 Hg2) as Hg. cbn [app] in Hg.
    split; [exact Hg|]. split.
    + rewrite length_app. destruct Ha1 as [->|[-> _]]; cbn [List.length]; lia.
    + intros x Hx. apply in_app_or in Hx. destruct Hx as [Hx|Hx].
      * destruct Ha1 as [->|(-> & Hfresh & Hty)]; [destruct Hx|].
        destruct Hx as [<-|[]].
        split; [assumption|]. split.
        -- destruct Hg2 as [_ Ht2].
           destruct (Ht2 (cell ++ "_conv")%string) as (k & Hk & _).
           { destruct Hg1 as [Hn1 _]. rewrite Hn1. apply in_or_app. right. left. reflexivity. }
           rewrite Hk, Hty. apply retype_iter_lut.
        -- exists cell. split; [left|]; reflexivity.
      * destruct (Ha2 x Hx) as (Hfresh & Hty & cell' & Hin & ->).
        split; [|split; [assumption|]].
        -- intros Hc. apply Hfresh. destruct Hg1 as [Hn1 _]. rewrite Hn1.
           apply in_or_app. left. assumption.
        -- exists cell'. split; [right; assumption|reflexivity].
Qed.

(** X15: the cells of the netlist under [exec_convert].  A conversion
    that returns deletes, renames and reorders no cell: the netlist
    lists the cells it had, followed by the cells it added.  Every added
    cell is a lookup table of type [SB_LUT4] whose name was not taken and
    is the name of a member of the converted control set followed by
    [_conv], and at most one cell is added per member.  A cell that is
    not a member of the converted control set keeps its type. *)
Theorem exec_convert_only_adds_lookup_tables
    (self self' : Optimizer) (cset : ControlSet) (conv : Z) :
  exec_convert self cset conv = Ok self' ->
  exists added,
    map fst (ctx self') = map fst (ctx self) ++ added
    /\ List.length added <= List.length (members (cset_map self) cset)
    /\ (forall x, In x added ->
          ~ In x (map fst (ctx self))
          /\ type_of (ctx self') x = "SB_LUT4"
          /\ exists cell, In cell (members (cset_map self) cset)
                          /\ x = (cell ++ "_conv")%string)
    /\ (forall x, In x (map fst (ctx self)) ->
          ~ In x (members (cset_map self) cset) ->
          type_of (ctx self') x = type_of (ctx self) x).
Proof.
  unfold exec_convert, members. intros H.
  inv_bind H as cells Hcells. apply cs_get_Ok in Hcells. rewrite Hcells.
  inv_bind H as c' Hc. apply Ok_inj in H. subst self'. cbn [with_ctx ctx].
  destruct (convert_cells_grows _ _ _ _ _ Hc) as (added & [Hn Ht] & Hlen & Hadd).
  exists added. split; [assumption|]. split; [assumption|]. split; [assumption|].
  intros x Hx Hnin. destruct (Ht x Hx) as (k & Hk & Hz).
  rewrite Hk, (Hz Hnin). reflexivity.
Qed.

(** ** The lookup table inserted by a conversion *)

Lemma update_cell_params (c c' : Context) (name : string) (f : CellInfo -> result CellInfo) :
  (forall cell cell', f cell = Ok cell' -> cell_params cell' = cell_params cell) ->
  update_cell c name f = Ok c' ->
  forall x k, param_of c' x k = param_of c x k.
Proof.
  intros Hf H x k. apply update_cell_Ok in H. destruct H as (cell & cell' & Hc & Hfc & ->).
  unfold param_of. rewrite cell_of_assoc_set.
  destruct (String.eqb_spec x name) as [->|]; [|reflexivity].
  rewrite (cell_of_present _ _ _ Hc), (Hf _ _ Hfc). reflexivity.
Qed.

Lemma disconnectPort_writes (c c' : Context) (name p : string) :
  disconnectPort c name p = Ok c' -> writes_port name p None c c'.
Proof.
  intros H. split; [eapply disconnectPort_net; eassumption|]. split.
  - apply disconnectPort_rewires in H. apply H.
  - revert H. apply update_cell_params. intros cell cell'.
    destruct (assoc p (cell_ports cell)); intros [= <-]; reflexivity.
Qed.

Lemma connectPort_writes (c c' : Context) (net name p : string) :
  connectPort c net name p = Ok c' -> writes_port name p (Some net) c c'.
Proof.
  intros H. split; [|split].
  - unfold connectPort in H.
    apply update_cell_Ok in H. destruct H as (cell & cell' & Hc & Hf & ->).
    inv_bind Hf as pi Hpi. apply Ok_inj in Hf. subst cell'.
    unfold net_name. rewrite cell_of_assoc_set, String.eqb_refl. cbn [cell_ports].
    rewrite assoc_set_spec, String.eqb_refl. reflexivity.
  - apply connectPort_rewires in H. apply H.
  - revert H. apply update_cell_params. intros cell cell'.
    destruct (assoc p (cell_ports cell)); cbn [from_option bind]; intros [= <-]; reflexivity.
Qed.

Lemma addPort_writes (c c' : Context) (name p : string) (t : PortType) :
  addPort c name p t = Ok c' -> writes_port name p None c c'.
Proof.
  intros H. split; [|split].
  - unfold addPort in H.
    apply update_cell_Ok in H. destruct H as (cell & cell' & Hc & Hf & ->).
    apply Ok_inj in Hf. subst cell'.
    unfold net_name. rewrite cell_of_assoc_set, String.eqb_refl. cbn [cell_ports].
    rewrite assoc_set_spec, String.eqb_refl. reflexivity.
  - apply addPort_rewires in H. apply H.
  - revert H. apply update_cell_params. intros cell cell' [= <-]. reflexivity.
Qed.

Lemma setParam_writes (c c' : Context) (name k : string) (v : bits) :
  setParam c name k v = Ok c' ->
  param_of c' name k = Ok v /\ forall x q, net_name c' x q = net_name c x q.
Proof.
  unfold setParam. intros H.
  apply update_cell_Ok in H. destruct H as (cell & cell' & Hc & Hf & ->).
  apply Ok_inj in Hf. subst cell'. split.
  - unfold param_of. rewrite cell_of_assoc_set, String.eqb_refl. cbn [cell_params].
    rewrite assoc_set_spec, String.eqb_refl. reflexivity.
  - intros x q. unfold net_name. rewrite cell_of_assoc_set.
    destruct (String.eqb_spec x name) as [->|]; [|reflexivity].
    rewrite (cell_of_present _ _ _ Hc). reflexivity.
Qed.

Lemma createCell_view (c c' : Context) (name t : string) :
  createCell c name t = Ok c' ->
  (forall x q, net_name c' x q = net_name c x q)
  /\ (forall x k, param_of c' x k = param_of c x k).
Proof.
  unfold createCell. destruct (assoc name c) eqn:Hn; [discriminate|].
  intros H. apply Ok_inj in H. subst c'.
  assert (Hcell : forall x, cell_of (c ++ [(name, mkCell t [] [])]) x = cell_of c x
                            \/ (cell_of (c ++ [(name, mkCell t [] [])]) x = mkCell t [] []
                                /\ cell_of c x = no_cell)).
  { intros x. unfold cell_of. destruct (assoc x c) as [info|] eqn:Hx.
    - left. rewrite assoc_app_present by congruence. rewrite Hx. reflexivity.
    - assert (Hl : forall l : Context, assoc x l = None ->
                     assoc x (l ++ [(name, mkCell t [] [])])
                     = if x =? name then Some (mkCell t [] []) else None).
      { induction l as [|[k v] l IH]; cbn [assoc app]; [reflexivity|].
        destruct (x =? k); [discriminate|assumption]. }
      rewrite (Hl c Hx). destruct (x =? name); [right; split; reflexivity|left; reflexivity]. }
  split; intros x q; unfold net_name, param_of;
    destruct (Hcell x) as [->|[-> ->]]; reflexivity.
Qed.

Lemma set_type_view (c : Context) (name t : string) :
  (forall x q, net_name (set_type c name t) x q = net_name c x q)
  /\ (forall x k, param_of (set_type c name t) x k = param_of c x k)
  /\ map fst (set_type c name t) = map fst c.
Proof.
  unfold set_type. destruct (assoc name c) as [info|] eqn:Hinfo;
    [|repeat split; reflexivity].
  split; [|split].
  - intros x q. unfold net_name. rewrite cell_of_assoc_set.
    destruct (String.eqb_spec x name) as [->|]; [|reflexivity].
    rewrite (cell_of_present _ _ _ Hinfo). reflexivity.
  - intros x k. unfold param_of. rewrite cell_of_assoc_set.
    destruct (String.eqb_spec x name) as [->|]; [|reflexivity].
    rewrite (cell_of_present _ _ _ Hinfo). reflexivity.
  - apply assoc_set_names. congruence.
Qed.

Lemma conv_name_neq (cell : string) : cell <> (cell ++ "_conv")%string.
Proof.
  induction cell as [|a cell IH]; cbn [String.append]; [discriminate|].
  intros [= H]. contradiction.
Qed.

Ltac frame H :=
  rewrite (proj1 (proj2 H))
    by first [left; assumption | left; congruence | right; discriminate].

(** The lookup table that [exec_convert] puts in front of a flip-flop
    passes the old data net, on its input [I3], to the data input. *)
Lemma insert_lut_view (c c' : Context) (cell tgt : string) (fp : list string) :
  insert_lut c cell = Ok (c', tgt, fp) ->
  tgt = (cell ++ "_conv")%string
  /\ fp = ["I0"; "I1"; "I2"]
  /\ net_name c' cell "D" = Some (cell ++ "_net")%string
  /\ net_name c' tgt "O" = Some (cell ++ "_net")%string
  /\ net_name c cell "D" <> None
  /\ net_name c' tgt "I3" = net_name c cell "D"
  /\ net_name c' tgt "I0" = None
  /\ net_name c' tgt "I1" = None
  /\ net_name c' tgt "I2" = None
  /\ net_name c' cell "Q" = net_name c cell "Q"
  /\ param_of c' tgt "LUT_INIT" = Ok (bits_of_string "1111111100000000").
Proof.
  unfold insert_lut, createNet. intros H.
  pose proof (conv_name_neq cell) as Hne.
  assert (Hne' : (cell ++ "_conv")%string <> cell) by congruence.
  set (lut := (cell ++ "_conv")%string) in *.
  inv_bind H as c1 H1. inv_bind H as c2 H2. inv_bind H as c3 H3.
  inv_bind H as c4 H4. inv_bind H as c5 H5. inv_bind H as c6 H6.
  inv_bind H as c7 H7. inv_bind H as c8 H8. apply Ok_inj in H8. subst c8.
  inv_bind H as d Hd. inv_bind H as old_net Hold.
  inv_bind H as c9 H9. inv_bind H as c10 H10. inv_bind H as c11 H11.
  inv_bind H as c12 H12. apply Ok_inj in H. injection H as <- <- <-.
  apply createCell_view in H1. destruct H1 as [Hn1 Hp1].
  apply addPort_writes in H2, H3, H4, H5, H6.
  apply setParam_writes in H7. destruct H7 as [Hp7 Hn7].
  apply port_net_of_Ok in Hd. apply from_option_Some in Hold. rewrite Hold in Hd.
  apply disconnectPort_writes in H9.
  apply connectPort_writes in H10, H11, H12.
  assert (HD : net_name c cell "D" = Some old_net).
  { rewrite <- Hd, Hn7. frame H6. frame H5. frame H4. frame H3. frame H2.
    rewrite Hn1. reflexivity. }
  split; [reflexivity|]. split; [reflexivity|].
  split; [apply H12|].
  split; [frame H12; apply H11|].
  split; [congruence|].
  split; [frame H12; frame H11; rewrite HD; apply H10|].
  split; [frame H12; frame H11; frame H10; frame H9; rewrite Hn7;
          frame H6; frame H5; frame H4; frame H3; apply H2|].
  split; [frame H12; frame H11; frame H10; frame H9; rewrite Hn7;
          frame H6; frame H5; frame H4; apply H3|].
  split; [frame H12; frame H11; frame H10; frame H9; rewrite Hn7;
          frame H6; frame H5; apply H4|].
  split; [frame H12; frame H11; frame H10; frame H9; rewrite Hn7;
          frame H6; frame H5; frame H4; frame H3; frame H2; apply Hn1|].
  rewrite (proj2 (proj2 H12)), (proj2 (proj2 H11)), (proj2 (proj2 H10)),
          (proj2 (proj2 H9)).
  assumption.
Qed.

Lemma passthrough_table (i : nat) :
  i < 16 -> table_bit (bits_of_string "1111111100000000") i = input_bit i 3.
Proof.
  intros Hi. do 16 (destruct i as [|i]; [reflexivity|]). lia.
Qed.

Lemma update_lut_init_no_enable (tbl : bits) (pn_rs : option nat) (rs_val : bool)
    (pn_old pn_old' : option nat) :
  _update_lut_init tbl pn_rs rs_val None pn_old
  = _update_lut_init tbl pn_rs rs_val None pn_old'.
Proof.
  unfold _update_lut_init. destruct (int_bits tbl) as [v|]; cbn [bind]; [|reflexivity].
  rewrite (lut_loop_no_enable pn_rs rs_val pn_old pn_old'). reflexivity.
Qed.

Lemma passthrough_length : List.length (bits_of_string "1111111100000000") <= 16.
Proof. vm_compute. lia. Qed.

Lemma passthrough_cons :
  bits_of_string "1111111100000000" = true :: bits_of_string "111111100000000".
Proof. reflexivity. Qed.

(** The rewrite of the pass-through table. *)
Lemma update_passthrough (pn_rs : option nat) (rs_val : bool) (pn_ena pn_old : option nat)
    (po : nat) :
  pn_old = Some po \/ (pn_ena = None /\ pn_old = None) ->
  exists tbl,
    _update_lut_init (bits_of_string "1111111100000000") pn_rs rs_val pn_ena pn_old = Ok tbl
    /\ List.length tbl = 16
    /\ forall i, i < 16 ->
         table_bit tbl i = edited_bit pn_rs rs_val pn_ena po i (input_bit i 3).
Proof.
  intros Hpos.
  generalize passthrough_length passthrough_table.
  rewrite passthrough_cons.
  generalize (bits_of_string "111111100000000"). intros rest Hlen Hpass.
  destruct (update_lut_init_bits true rest pn_rs rs_val pn_ena po) as (tbl & Htbl & Hbits).
  assert (Hrun : _update_lut_init (true :: rest) pn_rs rs_val pn_ena pn_old = Ok tbl).
  { destruct Hpos as [->|[-> ->]]; [exact Htbl|].
    rewrite (update_lut_init_no_enable _ _ _ None (Some po)). exact Htbl. }
  exists tbl. split; [assumption|]. split.
  - eapply update_lut_init_width; eassumption.
  - intros i Hi. rewrite (Hbits i Hi), Hpass by assumption. reflexivity.
Qed.

(** Wiring the inserted lookup table, whose inputs [I0], [I1] and [I2]
    are free: the nets taken off the flip-flop go to the inputs from [I2]
    downwards, reset/set first, then enable, then the output of the
    flip-flop. *)
Lemma connect_target_fresh (c c' : Context) (cset : ControlSet) (conv : Z)
    (cell lut : string) (set_reset : bool) :
  lut <> cell ->
  param_of c lut "LUT_INIT" = Ok (bits_of_string "1111111100000000") ->
  connect_target c cset conv cell set_reset lut ["I0"; "I1"; "I2"] = Ok c' ->
  (forall x q, x <> lut -> net_name c' x q = net_name c x q)
  /\ net_name c' lut "I3" = net_name c lut "I3"
  /\ net_name c' lut "O" = net_name c lut "O"
  /\ net_name c' lut "I2"
     = (if rm_rs_of conv then rs cset
        else if rm_ena_of conv then ena cset else net_name c lut "I2")
  /\ net_name c' lut "I1"
     = (if rm_ena_of conv
        then if rm_rs_of conv then ena cset else net_name c cell "Q"
        else net_name c lut "I1")
  /\ net_name c' lut "I0"
     = (if rm_ena_of conv && rm_rs_of conv then net_name c cell "Q" else net_name c lut "I0")
  /\ (rm_rs_of conv = true -> rs cset <> None)
  /\ (rm_ena_of conv = true -> ena cset <> None /\ net_name c cell "Q" <> None)
  /\ exists tbl,
       param_of c' lut "LUT_INIT" = Ok tbl
       /\ List.length tbl = 16
       /\ forall i, i < 16 ->
            table_bit tbl i
            = edited_bit (if rm_rs_of conv then Some 2 else None) set_reset
                         (if rm_ena_of conv
                          then Some (if rm_rs_of conv then 1 else 2) else None)
                         (if rm_rs_of conv then 0 else 1)
                         i (input_bit i 3).
Proof.
  intros Hne Hinit. unfold connect_target. intros H.
  inv_bind H as [[c4 fp4] pn_rs] Hrs.
  inv_bind H as [[c5 pn_ena] pn_old] Hena.
  inv_bind H as lut_init Hl. inv_bind H as tbl Hupd.
  apply setParam_writes in H. destruct H as [Hp Hn].
  destruct (rm_rs_of conv) eqn:Ers.
  - change (take_port ["I0"; "I1"; "I2"]) with (Ok ("I2", 2, ["I0"; "I1"])) in Hrs.
    cbn [bind] in Hrs.
    inv_bind Hrs as ca Ha. inv_bind Hrs as net Hnet. inv_bind Hrs as cb Hb.
    apply Ok_inj in Hrs. injection Hrs as <- <- <-.
    apply from_option_Some in Hnet.
    apply disconnectPort_writes in Ha. apply connectPort_writes in Hb.
    destruct (rm_ena_of conv) eqn:Eena.
    + change (take_port ["I0"; "I1"]) with (Ok ("I1", 1, ["I0"])) in Hena.
      cbn [bind] in Hena.
      change (take_port ["I0"]) with (Ok ("I0", 0, @nil string)) in Hena.
      cbn [bind] in Hena.
      inv_bind Hena as cc Hc. inv_bind Hena as cd Hd.
      inv_bind Hena as net' Hnet'. inv_bind Hena as ce He.
      inv_bind Hena as q Hq. inv_bind Hena as q_net Hqn. inv_bind Hena as cf Hf.
      apply Ok_inj in Hena. injection Hena as <- <- <-.
      apply from_option_Some in Hnet', Hqn. apply port_net_of_Ok in Hq. rewrite Hqn in Hq.
      apply disconnectPort_writes in Hc, Hd. apply connectPort_writes in He, Hf.
      assert (HQ : net_name c cell "Q" = Some q_net).
      { rewrite <- Hq. frame He. frame Hd. frame Hc. frame Hb. frame Ha. reflexivity. }
      rewrite (proj2 (proj2 Hf)), (proj2 (proj2 He)), (proj2 (proj2 Hd)),
              (proj2 (proj2 Hc)), (proj2 (proj2 Hb)), (proj2 (proj2 Ha)), Hinit in Hl.
      apply Ok_inj in Hl. subst lut_init.
      destruct (update_passthrough (Some 2) set_reset (Some 1) (Some 0) 0 (or_introl eq_refl))
        as (tbl' & Htbl' & Hlen & Hbits).
      rewrite Htbl' in Hupd. apply Ok_inj in Hupd. subst tbl'.
      split; [intros x q' Hx; rewrite Hn; frame Hf; frame He; frame Hd; frame Hc;
              frame Hb; frame Ha; reflexivity|].
      split; [rewrite Hn; frame Hf; frame He; frame Hd; frame Hc; frame Hb; frame Ha;
              reflexivity|].
      split; [rewrite Hn; frame Hf; frame He; frame Hd; frame Hc; frame Hb; frame Ha;
              reflexivity|].
      split; [rewrite Hn; frame Hf; frame He; frame Hd; frame Hc; rewrite Hnet; apply Hb|].
      split; [rewrite Hn; frame Hf; rewrite Hnet'; apply He|].
      split; [rewrite Hn, HQ; apply Hf|].
      split; [intros _; congruence|].
      split; [intros _; split; congruence|].
      exists tbl. split; [assumption|]. split; assumption.
    + apply Ok_inj in Hena. injection Hena as <- <- <-.
      rewrite (proj2 (proj2 Hb)), (proj2 (proj2 Ha)), Hinit in Hl.
      apply Ok_inj in Hl. subst lut_init.
      destruct (update_passthrough (Some 2) set_reset None None 0
                                   (or_intror (conj eq_refl eq_refl)))
        as (tbl' & Htbl' & Hlen & Hbits).
      rewrite Htbl' in Hupd. apply Ok_inj in Hupd. subst tbl'.
      split; [intros x q' Hx; rewrite Hn; frame Hb; frame Ha; reflexivity|].
      split; [rewrite Hn; frame Hb; frame Ha; reflexivity|].
      split; [rewrite Hn; frame Hb; frame Ha; reflexivity|].
      split; [rewrite Hn, Hnet; apply Hb|].
      split; [rewrite Hn; frame Hb; frame Ha; reflexivity|].
      split; [rewrite Hn; frame Hb; frame Ha; reflexivity|].
      split; [intros _; congruence|].
      split; [discriminate|].
      exists tbl. split; [assumption|]. split; assumption.
  - apply Ok_inj in Hrs. injection Hrs as <- <- <-.
    destruct (rm_ena_of conv) eqn:Eena.
    + change (take_port ["I0"; "I1"; "I2"]) with (Ok ("I2", 2, ["I0"; "I1"])) in Hena.
      cbn [bind] in Hena.
      change (take_port ["I0"; "I1"]) with (Ok ("I1", 1, ["I0"])) in Hena.
      cbn [bind] in Hena.
      inv_bind Hena as cc Hc. inv_bind Hena as cd Hd.
      inv_bind Hena as net' Hnet'. inv_bind Hena as ce He.
      inv_bind Hena as q Hq. inv_bind Hena as q_net Hqn. inv_bind Hena as cf Hf.
      apply Ok_inj in Hena. injection Hena as <- <- <-.
      apply from_option_Some in Hnet', Hqn. apply port_net_of_Ok in Hq. rewrite Hqn in Hq.
      apply disconnectPort_writes in Hc, Hd. apply connectPort_writes in He, Hf.
      assert (HQ : net_name c cell "Q" = Some q_net).
      { rewrite <- Hq. frame He. frame Hd. frame Hc. reflexivity. }
      rewrite (proj2 (proj2 Hf)), (proj2 (proj2 He)), (proj2 (proj2 Hd)),
              (proj2 (proj2 Hc)), Hinit in Hl.
      apply Ok_inj in Hl. subst lut_init.
      destruct (update_passthrough None set_reset (Some 2) (Some 1) 1 (or_introl eq_refl))
        as (tbl' & Htbl' & Hlen & Hbits).
      rewrite Htbl' in Hupd. apply Ok_inj in Hupd. subst tbl'.
      split; [intros x q' Hx; rewrite Hn; frame Hf; frame He; frame Hd; frame Hc;
              reflexivity|].
      split; [rewrite Hn; frame Hf; frame He; frame Hd; frame Hc; reflexivity|].
      split; [rewrite Hn; frame Hf; frame He; frame Hd; frame Hc; reflexivity|].
      split; [rewrite Hn; frame Hf; rewrite Hnet'; apply He|].
      split; [rewrite Hn, HQ; apply Hf|].
      split; [rewrite Hn; frame Hf; frame He; frame Hd; frame Hc; reflexivity|].
      split; [discriminate|].
      split; [intros _; split; congruence|].
      exists tbl. split; [assumption|]. split; assumption.
    + apply Ok_inj in Hena. injection Hena as <- <- <-.
      rewrite Hinit in Hl. apply Ok_inj in Hl. subst lut_init.
      destruct (update_passthrough None set_reset None None 1
                                   (or_intror (conj eq_refl eq_refl)))
        as (tbl' & Htbl' & Hlen & Hbits).
      rewrite Htbl' in Hupd. apply Ok_inj in Hupd. subst tbl'.
      split; [intros x q' Hx; apply Hn|].
      split; [apply Hn|]. split; [apply Hn|]. split; [apply Hn|].
      split; [apply Hn|]. split; [apply Hn|].
      split; [discriminate|]. split; [discriminate|].
      exists tbl. split; [assumption|]. split; assumption.
Qed.

Lemma connect_target_same (c c' : Context) (cset : ControlSet) (conv : Z)
    (cell : string) (set_reset : bool) (tgt : string) (fp : list string) :
  connect_target c cset conv cell set_reset tgt fp = Ok c' -> same_cells c c'.
Proof.
  unfold connect_target. intros H.
  inv_bind H as [[c4 fp4] pn_rs] Hrs.
  assert (H4 : same_cells c c4).
  { destruct (rm_rs_of conv).
    - inv_bind Hrs as [[p_rs pn] fpr] Htake. inv_bind Hrs as ca Ha.
      inv_bind Hrs as net Hnet. inv_bind Hrs as cb Hb.
      apply Ok_inj in Hrs. injection Hrs as <- <- <-.
      same_step Ha. same_step Hb. same_chain.
    - apply Ok_inj in Hrs. injection Hrs as <- <- <-. apply same_cells_refl. }
  inv_bind H as [[c5 pn_ena] pn_old] Hena.
  assert (H5 : same_cells c4 c5).
  { destruct (rm_ena_of conv).
    - inv_bind Hena as [[p_ena pne] fpe] Htake1.
      inv_bind Hena as [[p_old pno] fpo] Htake2.
      inv_bind Hena as ca Ha. inv_bind Hena as cb Hb.
      inv_bind Hena as net Hnet. inv_bind Hena as cc Hc.
      inv_bind Hena as q Hq. inv_bind Hena as q_net Hqn. inv_bind Hena as cd Hdd.
      apply Ok_inj in Hena. injection Hena as <- <- <-.
      same_step Ha. same_step Hb. same_step Hc. same_step Hdd. same_chain.
    - apply Ok_inj in Hena. injection Hena as <- <- <-. apply same_cells_refl. }
  inv_bind H as lut_init Hinit. inv_bind H as lut_init' Hupd.
  same_step H. same_chain.
Qed.

(** X16: the lookup table that a conversion inserts.  When converting a
    flip-flop has added the cell [<cell>_conv], the data input of the
    flip-flop is on the new net [<cell>_net], driven by the output of
    the new lookup table, whose input [I3] is on the old data net.  The
    nets taken off the flip-flop go to the inputs from [I2] downwards:
    the reset/set net if it is removed, then the enable net and the
    output of the flip-flop if the enable is removed; the inputs that
    are left stay unconnected.  The truth table of the new cell is the
    pass-through of [I3] edited for these positions: for every input
    combination, the flip-flop output when the enable input is low,
    else the set/reset level when the reset/set input is high, else
    [I3]. *)
Theorem convert_cell_inserted_lut
    (c c' : Context) (cset : ControlSet) (conv : Z) (cell : string) :
  convert_cell c cset conv cell = Ok c' ->
  ~ In (cell ++ "_conv")%string (map fst c) ->
  In (cell ++ "_conv")%string (map fst c') ->
  net_name c' cell "D" = Some (cell ++ "_net")%string
  /\ net_name c' (cell ++ "_conv") "O" = Some (cell ++ "_net")%string
  /\ net_name c cell "D" <> None
  /\ net_name c' (cell ++ "_conv") "I3" = net_name c cell "D"
  /\ net_name c' (cell ++ "_conv") "I2"
     = (if rm_rs_of conv then rs cset else if rm_ena_of conv then ena cset else None)
  /\ net_name c' (cell ++ "_conv") "I1"
     = (if rm_ena_of conv
        then if rm_rs_of conv then ena cset else net_name c cell "Q"
        else None)
  /\ net_name c' (cell ++ "_conv") "I0"
     = (if rm_ena_of conv && rm_rs_of conv then net_name c cell "Q" else None)
  /\ exists tbl,
       param_of c' (cell ++ "_conv") "LUT_INIT" = Ok tbl
       /\ List.length tbl = 16
       /\ forall i, i < 16 ->
            table_bit tbl i
            = edited_bit (if rm_rs_of conv then Some 2 else None)
                         (Py.contains "SS" (type_of c cell))
                         (if rm_ena_of conv
                          then Some (if rm_rs_of conv then 1 else 2) else None)
                         (if rm_rs_of conv then 0 else 1)
                         i (input_bit i 3).
Proof.
  unfold convert_cell. intros H Hfresh Hin.
  pose proof (conv_name_neq cell) as Hne.
  assert (Hne' : (cell ++ "_conv")%string <> cell) by congruence.
  inv_bind H as [c1 t1] H1. inv_bind H as [c2 t2] H2.
  assert (Hs1 : same_cells c c1
                /\ forall q, In q ["D"; "Q"] -> net_name c1 cell q = net_name c cell q).
  { destruct (rm_rs_of conv).
    - inv_bind H1 as ca Ha. inv_bind H1 as cb Hb. apply Ok_inj in H1. injection H1 as <- <-.
      pose proof (disconnectPort_writes _ _ _ _ Ha) as Wa.
      pose proof (disconnectPort_writes _ _ _ _ Hb) as Wb.
      same_step Ha. same_step Hb. split; [same_chain|].
      intros q [<-|[<-|[]]]; frame Wb; frame Wa; reflexivity.
    - apply Ok_inj in H1. injection H1 as <- <-.
      split; [apply same_cells_refl|reflexivity]. }
  destruct Hs1 as [Hs1 Hq1].
  assert (Hs2 : same_cells c1 c2
                /\ forall q, In q ["D"; "Q"] -> net_name c2 cell q = net_name c1 cell q).
  { destruct (rm_ena_of conv).
    - inv_bind H2 as ca Ha. apply Ok_inj in H2. injection H2 as <- <-.
      pose proof (disconnectPort_writes _ _ _ _ Ha) as Wa.
      same_step Ha. split; [same_chain|].
      intros q [<-|[<-|[]]]; frame Wa; reflexivity.
    - apply Ok_inj in H2. injection H2 as <- <-.
      split; [apply same_cells_refl|reflexivity]. }
  destruct Hs2 as [Hs2 Hq2].
  destruct (set_type_view c2 cell t2) as (HnA & HpA & HmA).
  set (cA := set_type c2 cell t2) in *.
  inv_bind H as driver Hd. inv_bind H as fp Hfp.
  inv_bind H as [[c3 tgt] fp3] Hins.
  change (connect_target c3 cset conv cell (Py.contains "SS" (type_of c cell)) tgt fp3 = Ok c')
    in H.
  pose proof (connect_target_same _ _ _ _ _ _ _ _ H) as [Hn35 _].
  assert (HDc : net_name cA cell "D" = net_name c cell "D")
    by (rewrite HnA, Hq2, Hq1 by (simpl; tauto); reflexivity).
  assert (HQc : net_name cA cell "Q" = net_name c cell "Q")
    by (rewrite HnA, Hq2, Hq1 by (simpl; tauto); reflexivity).
  destruct (Nat.ltb (List.length fp) (n_in_of conv)).
  - apply insert_lut_view in Hins.
    destruct Hins as (-> & -> & HD & HO & HDn & HI3 & HI0 & HI1 & HI2 & HQ & Hinit).
    destruct (connect_target_fresh _ _ _ _ _ _ _ Hne' Hinit H)
      as (Hoth & H3 & HOo & H2' & H1' & H0' & _ & _ & tbl & Htbl & Hlen & Hbits).
    split; [rewrite Hoth by assumption; assumption|].
    split; [rewrite HOo; assumption|].
    split; [rewrite <- HDc; assumption|].
    split; [rewrite H3, HI3; assumption|].
    split; [rewrite H2', HI2; reflexivity|].
    split; [rewrite H1', HI1, HQ, HQc; reflexivity|].
    split; [rewrite H0', HI0, HQ, HQc; reflexivity|].
    exists tbl. split; [assumption|]. split; assumption.
  - apply Ok_inj in Hins. injection Hins as <- <- <-.
    exfalso. apply Hfresh.
    destruct Hs1 as [Hm1 _], Hs2 as [Hm2 _].
    rewrite <- Hm1, <- Hm2, <- HmA, <- Hn35. assumption.
Qed.

(** ** Further instances on the example netlists *)

Module MoreInstances.
Import Examples.

Lemma two_sets_index :
  NoDup (cs_keys (cset_map (opt_of (two_sets 3))))
  /\ synced (ctx (opt_of (two_sets 3))) (cset_map (opt_of (two_sets 3))).
Proof.
  destruct (build_map_spec (two_sets 3)) as (m & Hb & Hnd & _ & _ & Hs).
  assert (Hm : cset_map (opt_of (two_sets 3)) = m).
  { assert (Hinit : init (two_sets 3) = Ok (opt_of (two_sets 3))) by (vm_compute; reflexivity).
    unfold init in Hinit. rewrite Hb in Hinit.
    destruct (find_global_nets (two_sets 3)) as [g|]; [|discriminate].
    cbn [bind] in Hinit. apply Ok_inj in Hinit. rewrite <- Hinit. reflexivity. }
  rewrite Hm. split; assumption.
Qed.

(** The reset-only conversion of A on [two_sets 3] leaves [a0] wired to
    the control set B. *)
Lemma exec_convert_control_sets_witness :
  from_cell (ctx (converted (opt_of (two_sets 3)) set_A 1)) "a0" = Ok set_B.
Proof.
  assert (He : exec_convert (opt_of (two_sets 3)) set_A 1
               = Ok (converted (opt_of (two_sets 3)) set_A 1))
    by (vm_compute; reflexivity).
  assert (Hff : forall cell, In cell (members (cset_map (opt_of (two_sets 3))) set_A) ->
                  is_ff (ctx (opt_of (two_sets 3))) cell = true)
    by (intros cell [<-|[<-|[]]]; vm_compute; reflexivity).
  assert (Hk : from_cell (ctx (opt_of (two_sets 3))) "a0" = Ok set_A)
    by (vm_compute; reflexivity).
  exact (exec_convert_control_sets _ _ _ _ He Hff "a0" set_A Hk).
Defined.

(** After the run on [two_sets 3] the five flip-flops are wired to the
    control set they are filed under. *)
Lemma optimize_keeps_index_in_step_witness :
  NoDup (cs_keys (cset_map (final (two_sets 3) 4)))
  /\ synced (ctx (final (two_sets 3) 4)) (cset_map (final (two_sets 3) 4)).
Proof.
  assert (Hrun : optimize (opt_of (two_sets 3)) 4 false
                 = Some (Ok (final (two_sets 3) 4, [Summary 0 2 1])))
    by (vm_compute; reflexivity).
  exact (optimize_keeps_index_in_step _ _ _ _ _
           (proj1 two_sets_index) (proj2 two_sets_index) Hrun).
Defined.

(** The run on [two_sets 3] goes from two control sets to one. *)
Lemma optimize_merges_or_leaves_alone_witness :
  List.length (cset_map (final (two_sets 3) 4))
  <= List.length (cset_map (opt_of (two_sets 3))).
Proof.
  assert (Hrun : optimize (opt_of (two_sets 3)) 4 false
                 = Some (Ok (final (two_sets 3) 4, [Summary 0 2 1])))
    by (vm_compute; reflexivity).
  exact (proj1 (optimize_merges_or_leaves_alone _ _ _ _ _ Hrun)).
Defined.

(** With threshold 2 both control sets of [two_sets 3] are well used. *)
Lemma optimize_leaves_well_used_index_witness :
  optimize (opt_of (two_sets 3)) 2 true = Some (Ok (opt_of (two_sets 3), [Summary 0 2 2])).
Proof.
  apply (optimize_leaves_well_used_index (opt_of (two_sets 3)) 2 true).
  intros k l Hl.
  assert (Hin : In (k, l) (cset_map (opt_of (two_sets 3))))
    by (apply cs_lookup_In; assumption).
  vm_compute in Hin.
  destruct Hin as [[= <- <-]|[[= <- <-]|[]]]; vm_compute; discriminate.
Defined.

(** The set A = (x, -, c) is not in the index of [enabled], whose
    flip-flops all have an enable. *)
Lemma can_convert_decision_table_witness :
  can_convert (opt_of enabled) set_A 1 = Raise KeyError.
Proof.
  refine (proj1 (can_convert_decision_table (opt_of enabled) set_A) _ _ 1%Z).
  - vm_compute. reflexivity.
  - vm_compute. discriminate.
Defined.

(** Removing the reset of A on [lut_fed] costs one cell out of two, and
    removing more costs at least as much. *)
Lemma cost_convert_bounds_witness :
  1 <= List.length (members (cset_map (opt_of lut_fed)) set_A)
  /\ exists n', cost_convert (opt_of lut_fed) set_A 3 = Ok n' /\ 1 <= n'.
Proof.
  assert (Hc : cost_convert (opt_of lut_fed) set_A 1 = Ok 1) by (vm_compute; reflexivity).
  destruct (cost_convert_bounds (opt_of lut_fed) set_A 1 1 Hc) as (Hb & _ & Hm & _).
  split; [exact Hb|].
  destruct (Hm 3%Z) as (n' & Hn' & Hle).
  exists n'. split; [exact Hn'|]. apply Hle. vm_compute. lia.
Defined.

(** The lookup table [l1] of [lut_fed] uses [I0] only. *)
Lemma lut_free_ports_are_the_unused_inputs_witness :
  ["I1"; "I2"; "I3"]
  = filter (fun p => free_input (ctx (opt_of lut_fed)) "l1" p
                     && negb (has_carry (ctx (opt_of lut_fed)) "l1" && Py.mem p ["I1"; "I2"]))
           ["I0"; "I1"; "I2"; "I3"].
Proof.
  apply (lut_free_ports_are_the_unused_inputs (ctx (opt_of lut_fed)) "l1").
  vm_compute. reflexivity.
Defined.

(** A two-digit table with a set input at position 0. *)
Lemma update_lut_init_outcome_witness :
  exists out,
    _update_lut_init (bits_of_string "10") (Some 0) true None None = Ok out
    /\ 16 <= List.length out
    /\ (List.length (bits_of_string "10") <= 16 -> List.length out = 16).
Proof.
  exact (proj2 (proj2 (update_lut_init_outcome (Some 0) true None None))
               true [false] (or_introl eq_refl)).
Defined.

(** A two-digit table comes back padded to sixteen digits. *)
Lemma update_lut_init_repeatable_witness :
  _update_lut_init (bits_of_string "10") None false None None
  = Ok (bits_of_string "0000000000000010").
Proof.
  refine (proj2 (update_lut_init_repeatable (bits_of_string "10") None false None None) _ _).
  - discriminate.
  - vm_compute. lia.
Defined.

(** The run on [two_sets 3] with the flag prints the summary last. *)
Lemma optimize_debug_only_prints_witness :
  exists dbg summary,
    [DebugCandidate 0 5 set_B; DebugMember 2 set_A; DebugRule; Summary 0 2 1]
    = dbg ++ [summary]
    /\ optimize (opt_of (two_sets 3)) 4 false
       = Some (Ok (final (two_sets 3) 4, [summary])).
Proof.
  apply (proj2 (optimize_debug_only_prints (opt_of (two_sets 3)) 4)).
  vm_compute. reflexivity.
Defined.

(** The optimizer built on [two_sets 3] has the clock net as its only
    global net. *)
Lemma init_outcome_witness :
  ctx (opt_of (two_sets 3)) = two_sets 3
  /\ build_map (two_sets 3) = Ok (cset_map (opt_of (two_sets 3)))
  /\ NoDup (global_nets (opt_of (two_sets 3)))
  /\ forall n,
       In n (global_nets (opt_of (two_sets 3)))
       <-> exists cell, In cell (map fst (two_sets 3)) /\ type_of (two_sets 3) cell = "SB_GB"
                        /\ net_name (two_sets 3) cell "GLOBAL_BUFFER_OUTPUT" = Some n.
Proof.
  apply (proj2 (init_outcome (two_sets 3))).
  vm_compute. reflexivity.
Defined.

(** The work list of [two_sets 3] does not depend on the order of its
    index. *)
Lemma work_list_order_witness :
  Py.sorted cset_le (cs_keys (rev (cset_map (opt_of (two_sets 3)))))
  = Py.sorted cset_le (cs_keys (cset_map (opt_of (two_sets 3)))).
Proof.
  apply (proj2 (proj2 (work_list_order (cset_map (opt_of (two_sets 3)))))).
  - unfold cs_keys. rewrite map_rev. symmetry. apply Permutation_rev.
  - vm_compute. repeat constructor; discriminate.
Defined.

(** The reset-only conversion of A on [two_sets 3] appends lookup
    tables only. *)
Lemma exec_convert_only_adds_lookup_tables_witness :
  exists added,
    map fst (ctx (converted (opt_of (two_sets 3)) set_A 1))
    = map fst (ctx (opt_of (two_sets 3))) ++ added
    /\ List.length added <= List.length (members (cset_map (opt_of (two_sets 3))) set_A).
Proof.
  assert (He : exec_convert (opt_of (two_sets 3)) set_A 1
               = Ok (converted (opt_of (two_sets 3)) set_A 1))
    by (vm_compute; reflexivity).
  destruct (exec_convert_only_adds_lookup_tables _ _ _ _ He) as (added & Hn & Hlen & _).
  exists added. split; assumption.
Defined.

(** Converting [a0] of [two_sets 3], which is fed by a pad, inserts the
    lookup table [a0_conv] with the reset net on its input [I2]. *)
Lemma convert_cell_inserted_lut_witness :
  net_name (converted_cell (two_sets 3) set_A 1 "a0") "a0_conv" "I2" = Some "x".
Proof.
  assert (Hc : convert_cell (two_sets 3) set_A 1 "a0"
               = Ok (converted_cell (two_sets 3) set_A 1 "a0"))
    by (vm_compute; reflexivity).
  assert (Hfresh : ~ In ("a0" ++ "_conv")%string (map fst (two_sets 3))).
  { vm_compute. intros H.
    repeat (destruct H as [H|H]; [discriminate|]). exact H. }
  assert (Hin : In ("a0" ++ "_conv")%string
                   (map fst (converted_cell (two_sets 3) set_A 1 "a0"))).
  { vm_compute. do 14 right. left. reflexivity. }
  exact (proj1 (proj2 (proj2 (proj2 (proj2
           (convert_cell_inserted_lut (two_sets 3) (converted_cell (two_sets 3) set_A 1 "a0")
                                      set_A 1 "a0" Hc Hfresh Hin)))))).
Defined.

End MoreInstances.
